(** * Concept whitening training script ([train_imagenet.py])

  A shallow embedding of the training driver: the resume logic of [main],
  the five-epoch loop, the interleaved calibration sub-pass of [train],
  [rotate_cpt], the forward hooks of [get_optimal_direction] and
  [print_concept_top5], and the top-50 export.

  Python values are embedded as follows: integers as [Z], floating point
  scores as rationals [Q] (every finite float is a rational, and the code
  only compares, adds and scales them), strings as [string], dictionaries
  with string keys as [gmap string _], lists as [list].  The state the
  script threads through its calls (the model, the optimizer, the hook
  registry, the parsed arguments, the global [best_prec1]) is a record
  [World], and the script's functions are computations in a state and
  exception monad over it. *)

From Stdlib Require Import ZArith QArith Qpower Lia Lqa String Ascii List.
From Stdlib Require Import Sorting.Permutation Sorting.Sorted.
From stdpp Require Import base tactics list strings gmap pretty.

Open Scope Z_scope.

(** ** Python built-ins used by the script *)

Module Py.

(** [l[i]] for a Python list: negative indices count from the end, and an
    index outside [-len, len) raises [IndexError] ([None] here). *)
Definition norm_index (len : nat) (i : Z) : option nat :=
  if (0 <=? i) && (i <? Z.of_nat len) then Some (Z.to_nat i)
  else if (i <? 0) && (0 <=? Z.of_nat len + i)
       then Some (Z.to_nat (Z.of_nat len + i))
       else None.

Definition index {A} (l : list A) (i : Z) : option A :=
  i' ← norm_index (length l) i; l !! i'.

(** [s[:-n]] on the characters of a string ([n] a positive literal). *)
Definition slice_until_last {A} (n : nat) (l : list A) : list A :=
  take (length l - n)%nat l.

(** [s[-n:]] on the characters of a string ([n] a positive literal). *)
Definition slice_last {A} (n : nat) (l : list A) : list A :=
  drop (length l - n)%nat l.

Definition str_until_last (n : nat) (s : string) : string :=
  string_of_list_ascii (slice_until_last n (list_ascii_of_string s)).

Definition str_last (n : nat) (s : string) : string :=
  string_of_list_ascii (slice_last n (list_ascii_of_string s)).

(** [s.split(sep)] for a one-character separator: never returns the empty
    list, and yields empty fields for adjacent separators. *)
Fixpoint split (sep : ascii) (s : string) : list string :=
  match s with
  | EmptyString => [EmptyString]
  | String c rest =>
      if Ascii.eqb c sep then EmptyString :: split sep rest
      else match split sep rest with
           | [] => [String c EmptyString]
           | w :: ws => String c w :: ws
           end
  end.

(** [sep.join(parts)]. *)
Fixpoint join (sep : string) (parts : list string) : string :=
  match parts with
  | [] => EmptyString
  | [p] => p
  | p :: ps => p +:+ sep +:+ join sep ps
  end.

Definition digit_of (c : ascii) : option Z :=
  let n := Z.of_nat (nat_of_ascii c) in
  if (48 <=? n) && (n <=? 57) then Some (n - 48) else None.

Fixpoint digits_acc (acc : Z) (s : string) : option Z :=
  match s with
  | EmptyString => Some acc
  | String c rest =>
      match digit_of c with
      | Some d => digits_acc (10 * acc + d) rest
      | None => None
      end
  end.

(** [int(s)] on the decimal literals the script is given: an optional
    sign followed by at least one digit.  Anything else is [ValueError]
    ([None]); surrounding blanks and digit separators, which Python also
    accepts, are not modelled. *)
Definition int (s : string) : option Z :=
  match s with
  | EmptyString => None
  | String "-" (String c r) => Z.opp <$> digits_acc 0 (String c r)
  | String "+" (String c r) => digits_acc 0 (String c r)
  | _ => digits_acc 0 s
  end.

(** [str(n)] for an integer. *)
Definition str (n : Z) : string := pretty n.

(** [range(a, b)]. *)
Definition range (a b : Z) : list Z :=
  (fun k => a + Z.of_nat k) <$> seq 0 (Z.to_nat (b - a)).

(** [a > b] on numbers. *)
Definition gt (a b : Q) : bool := negb (Qle_bool a b).

(** [max(a, b)]: the first argument unless the second is greater. *)
Definition max (a b : Q) : Q := if gt b a then b else a.

(** [l.sort(key=key, reverse=True)].  Python's sort is stable, also
    under [reverse]: elements come out by decreasing key, and elements of
    equal key keep the order they had.  These two properties fix the
    result, which is computed here by insertion: an element goes after
    the elements of greater key and before those of equal or smaller
    key that followed it. *)
Fixpoint insert_desc {A} (key : A → Q) (x : A) (l : list A) : list A :=
  match l with
  | [] => [x]
  | y :: l' =>
      if Qle_bool (key y) (key x) then x :: l
      else y :: insert_desc key x l'
  end.

Definition sort_reverse {A} (key : A → Q) (l : list A) : list A :=
  foldr (insert_desc key) [] l.

End Py.

(** ** Tensors

  A tensor is its shape and its elements in row-major order, as a
  contiguous [torch.Tensor] is.  Elements are rationals. *)

Record Tensor := mkTensor { shape : list nat; elems : list Q }.

Module T.

Definition numel (sh : list nat) : nat := foldr Nat.mul 1%nat sh.

Definition qsum (l : list Q) : Q := foldr Qplus 0%Q l.

Definition at_ (t : Tensor) (i : nat) : Q := default 0%Q (elems t !! i).

(** [t.view] to the shape [sh]: the same elements under another shape of
    the same size; [RuntimeError] ([None]) otherwise. *)
Definition view (sh : list nat) (t : Tensor) : option Tensor :=
  if decide (numel sh = numel (shape t)) then Some (mkTensor sh (elems t))
  else None.

(** Cuts a list into consecutive pieces of [n] elements, [k] times. *)
Fixpoint chunks {A} (k n : nat) (l : list A) : list (list A) :=
  match k with
  | O => []
  | S k' => take n l :: chunks k' n (drop n l)
  end.

(** [t.sum((2,3))] of a tensor of shape (B, C, H, W): shape (B, C). *)
Definition sum23 (t : Tensor) : option Tensor :=
  match shape t with
  | [b; c; h; w] =>
      Some (mkTensor [b; c] (qsum <$> chunks (b * c) (h * w) (elems t)))
  | _ => None
  end.

(** [t[:, k]] of a tensor of shape (B, C): the B entries of column [k];
    an index outside [-C, C) raises [IndexError] ([None]). *)
Definition column (k : Z) (t : Tensor) : option (list Q) :=
  match shape t with
  | [b; c] =>
      let k' := if 0 <=? k then k else Z.of_nat c + k in
      if (0 <=? k') && (k' <? Z.of_nat c)
      then Some ((fun i => at_ t (i * c + Z.to_nat k')) <$> seq 0 b)
      else None
  | _ => None
  end.

(** [torch.einsum('bgchw,gdc->bgdhw', x, r)] for [x] of shape
    (B, G, C, H, W) and [r] of shape (G, D, C). *)
Definition einsum_rot (x r : Tensor) : option Tensor :=
  match shape x, shape r with
  | [nb; ng; nc; nh; nw], [rg; nd; rc] =>
      if decide (ng = rg ∧ nc = rc) then
        Some (mkTensor [nb; ng; nd; nh; nw]
          (b ← seq 0 nb; g ← seq 0 ng; d ← seq 0 nd;
           h ← seq 0 nh; w ← seq 0 nw;
           [qsum ((fun c =>
              at_ x ((((b * ng + g) * nc + c) * nh + h) * nw + w)
              * at_ r ((g * nd + d) * nc + c))%Q <$> seq 0 nc)]))
      else None
  | _, _ => None
  end.

(** [t.mean((0,2,3))] of a tensor of shape (B, C, H, W): one entry per
    channel.  An empty reduction is [nan] in torch; it is [None] here. *)
Definition mean023 (t : Tensor) : option (list Q) :=
  match shape t with
  | [b; c; h; w] =>
      if decide (b * h * w = 0)%nat then None
      else Some ((fun ch =>
             (qsum ((fun i => qsum (take (h * w)
                      (drop ((i * c + ch) * (h * w)) (elems t))))
                    <$> seq 0 b)
              / inject_Z (Z.of_nat (b * h * w)))%Q) <$> seq 0 c)
  | _ => None
  end.

End T.

(** ** The model, the optimizer and the state of the script *)

(** Exceptions the modelled statements can raise. *)
Inductive Exn :=
| IndexError | KeyError (key : string) | ValueError | TypeError | RuntimeError
| NameError | AttributeError | ZeroDivisionError.

Inductive Outcome (A : Type) :=
| Ok (a : A)
| Raise (e : Exn).
Arguments Ok {A} a.
Arguments Raise {A} e.

(** Computations that can raise and touch no state. *)
#[global] Instance Outcome_ret : MRet Outcome := fun A a => Ok a.
#[global] Instance Outcome_bind : MBind Outcome := fun A B f o =>
match o with Ok a => f a | Raise e => Raise e end.
#[global] Instance Outcome_fmap : FMap Outcome := fun A B f o =>
match o with Ok a => Ok (f a) | Raise e => Raise e end.

Definition opt {A} (e : Exn) (o : option A) : Outcome A :=
match o with Some a => Ok a | None => Raise e end.

(** ** [AverageMeter]

  The meter of lines 583 to 598, for exact numbers: the values it is
  given are rationals, the weights and the count integers.  [update]
  assigns [val], [sum] and [count] before it divides, so that a division
  by a count of 0 raises with these three already written and [avg] left
  as it was. *)
Module Meter.

Record t := mk { val : Q; avg : Q; sum : Q; count : Z }.

(** [reset], which [__init__] calls. *)
Definition reset : t := mk 0 0 0 0.

(** [update(val, n)]. *)
Definition update (m : t) (v : Q) (n : Z) : Outcome unit * t :=
  let s := (sum m + v * inject_Z n)%Q in
  let c := count m + n in
  if c =? 0 then (Raise ZeroDivisionError, mk v (avg m) s c)
  else (Ok tt, mk v (s / inject_Z c) s c).

(** A sequence of calls of [update], up to the first that raises. *)
Fixpoint updates (m : t) (us : list (Q * Z)) : Outcome unit * t :=
  match us with
  | [] => (Ok tt, m)
  | (v, n) :: more =>
      match update m v n with
      | (Ok _, m') => updates m' more
      | (Raise e, m') => (Raise e, m')
      end
  end.

End Meter.

(** The places of the script that call the model. *)
Inductive Site :=
| InTrain | InCalibrate | InValidate | InRotateCpt | InDirection | InTop5.

(** The closures registered as forward hooks: [get_optimal_direction]'s and
  [print_concept_top5]'s [hook], each with the cell of the variable
  [outputs] of the call that created it, and the axis-independent body. *)
Inductive Hook :=
| DirectionHook (cell : nat)
| Top5Hook (cell : nat).

(** What a hook appends to [outputs]. *)
Inductive Captured :=
| CapMean (v : list Q)
| CapTensor (t : Tensor).

Record Args := mkArgs {
arch : string;
whitened_layers : string;
epochs : Z;
start_epoch : Z;
lr : Q;
resume : string;
prefix : string
}.

Section Script.

(** The data of the collaborators that are not part of the script: a
    mini-batch as a data loader yields it, the learnable parameters of a
    module, the running mean and whitening matrix of a normalisation
    layer, and the momentum buffers of the optimizer. *)
Context {Batch Weights Stats OptBuf : Type}.

Record NormState := mkNormState {
  weight : Weights;
  running : Stats;
  running_rot : Tensor
}.

(** A block's [bn1]: whether it is a whitening layer (one of the
    configured depths) or a plain batch normalisation, its [mode]
    attribute, and what its [state_dict] holds. *)
Record Norm := mkNorm { is_cw : bool; mode : Z; nstate : NormState }.

Record Block := mkBlock { bn1 : Norm; rest : Weights }.

(** The backbone: [training] is the flag set by [model.train()] and
    [model.eval()], [layers] the four block counts [model.layers], and
    [layer1] to [layer4] the four stages. *)
Record Net := mkNet {
  training : bool;
  layers : Z * Z * Z * Z;
  layer1 : list Block;
  layer2 : list Block;
  layer3 : list Block;
  layer4 : list Block;
  fc : Weights;
  stem : Weights
}.

(** A position in the backbone: the stage (1 to 4) and the block. *)
Definition Pos : Type := nat * nat.

Definition stage (n : Net) (s : nat) : list Block :=
  match s with
  | 1%nat => layer1 n | 2%nat => layer2 n
  | 3%nat => layer3 n | 4%nat => layer4 n
  | _ => []
  end.

Definition set_stage (n : Net) (s : nat) (bs : list Block) : Net :=
  match s with
  | 1%nat => mkNet (training n) (layers n) bs (layer2 n) (layer3 n) (layer4 n) (fc n) (stem n)
  | 2%nat => mkNet (training n) (layers n) (layer1 n) bs (layer3 n) (layer4 n) (fc n) (stem n)
  | 3%nat => mkNet (training n) (layers n) (layer1 n) (layer2 n) bs (layer4 n) (fc n) (stem n)
  | 4%nat => mkNet (training n) (layers n) (layer1 n) (layer2 n) (layer3 n) bs (fc n) (stem n)
  | _ => n
  end.

Definition set_training (b : bool) (n : Net) : Net :=
  mkNet b (layers n) (layer1 n) (layer2 n) (layer3 n) (layer4 n) (fc n) (stem n).

Definition set_fc (v : Weights) (n : Net) : Net :=
  mkNet (training n) (layers n) (layer1 n) (layer2 n) (layer3 n) (layer4 n) v (stem n).

Definition bn1_at (n : Net) (p : Pos) : option Norm :=
  bn1 <$> stage n p.1 !! p.2.

Definition set_bn1 (n : Net) (p : Pos) (f : Norm → Norm) : Net :=
  set_stage n p.1
    (alter (fun b => mkBlock (f (bn1 b)) (rest b)) p.2 (stage n p.1)).

(** The blocks in the order a forward pass runs them. *)
Definition positions (n : Net) : list Pos :=
  s ← [1; 2; 3; 4]%nat; (fun i => (s, i)) <$> seq 0 (length (stage n s)).

Definition blocks (n : Net) : list Block :=
  layer1 n ++ layer2 n ++ layer3 n ++ layer4 n.

(** The [mode] of every whitening layer, in forward order. *)
Definition cw_mode (b : Block) : option Z :=
  if is_cw (bn1 b) then Some (mode (bn1 b)) else None.

Definition modes (n : Net) : list Z := omap cw_mode (blocks n).

(** What [model.state_dict()] holds: parameters and buffers of every
    module, and no plain attribute ([training], [mode], [layers]). *)
Definition StateDict : Type :=
  list (list (NormState * Weights)) * Weights * Weights.

Definition state_dict (n : Net) : StateDict :=
  ((fun s => (fun b => (nstate (bn1 b), rest b)) <$> stage n s)
     <$> [1; 2; 3; 4]%nat, fc n, stem n).

(** A parameter handed to the optimizer is a reference into the model. *)
Inductive ParamRef :=
| FcParams
| Bn1Params (p : Pos).

Record Optimizer := mkOptimizer {
  params : list ParamRef;
  group_lr : Q;
  bufs : OptBuf
}.

(** What [optimizer.state_dict()] holds. *)
Definition OptimState : Type := Q * OptBuf.

Inductive PyVal :=
| VInt (z : Z)
| VNum (q : Q)
| VStr (s : string)
| VModel (sd : StateDict)
| VOptim (os : OptimState).

(** A checkpoint is the dictionary [torch.save] is given. *)
Definition Checkpoint : Type := gmap string PyVal.

Inductive Event :=
| EModelTrain
| EModelEval
| EChangeMode (m : Z)
| ENoGrad (entering : bool)
| EForward (s : Site) (b : Batch) (is_training : bool) (ms : list Z)
           (grad : bool)
| EZeroGrad
| EBackward (ms : list Z)
| EStep
| EAdjustLR (epoch : Z)
| EValidated (epoch : Z)
| ESave (path : string) (ck : Checkpoint)
| ECopy (src dst : string)
| EPrint (msg : string)
| ETop5Begin
| ETop5End.

Record World := mkWorld {
  args : Args;
  best_prec1 : Q;
  net : Net;
  optimizer : Optimizer;
  grad_enabled : bool;
  hooks : list (Pos * Hook);
  cells : list (list Captured);
  concept_passes : nat;
  train_passes : nat;
  trace : list Event
}.

Definition set_args (f : Args → Args) (w : World) : World :=
  mkWorld (f (args w)) (best_prec1 w) (net w) (optimizer w) (grad_enabled w)
    (hooks w) (cells w) (concept_passes w) (train_passes w) (trace w).
Definition set_best (q : Q) (w : World) : World :=
  mkWorld (args w) q (net w) (optimizer w) (grad_enabled w)
    (hooks w) (cells w) (concept_passes w) (train_passes w) (trace w).
Definition set_net (f : Net → Net) (w : World) : World :=
  mkWorld (args w) (best_prec1 w) (f (net w)) (optimizer w) (grad_enabled w)
    (hooks w) (cells w) (concept_passes w) (train_passes w) (trace w).
Definition set_optimizer (f : Optimizer → Optimizer) (w : World) : World :=
  mkWorld (args w) (best_prec1 w) (net w) (f (optimizer w)) (grad_enabled w)
    (hooks w) (cells w) (concept_passes w) (train_passes w) (trace w).
Definition set_grad (b : bool) (w : World) : World :=
  mkWorld (args w) (best_prec1 w) (net w) (optimizer w) b
    (hooks w) (cells w) (concept_passes w) (train_passes w) (trace w).
Definition set_hooks (f : list (Pos * Hook) → list (Pos * Hook)) (w : World)
  : World :=
  mkWorld (args w) (best_prec1 w) (net w) (optimizer w) (grad_enabled w)
    (f (hooks w)) (cells w) (concept_passes w) (train_passes w) (trace w).
Definition set_cells (f : list (list Captured) → list (list Captured))
  (w : World) : World :=
  mkWorld (args w) (best_prec1 w) (net w) (optimizer w) (grad_enabled w)
    (hooks w) (f (cells w)) (concept_passes w) (train_passes w) (trace w).
Definition set_concept_passes (k : nat) (w : World) : World :=
  mkWorld (args w) (best_prec1 w) (net w) (optimizer w) (grad_enabled w)
    (hooks w) (cells w) k (train_passes w) (trace w).
Definition set_train_passes (k : nat) (w : World) : World :=
  mkWorld (args w) (best_prec1 w) (net w) (optimizer w) (grad_enabled w)
    (hooks w) (cells w) (concept_passes w) k (trace w).
Definition log (e : Event) (w : World) : World :=
  mkWorld (args w) (best_prec1 w) (net w) (optimizer w) (grad_enabled w)
    (hooks w) (cells w) (concept_passes w) (train_passes w) (trace w ++ [e]).

(** *** The monad: state [World], exceptions [Exn] *)

Definition M (A : Type) : Type := World → Outcome A * World.

#[local] Instance M_ret : MRet M := fun A a w => (Ok a, w).
#[local] Instance M_bind : MBind M := fun A B f m w =>
  match m w with
  | (Ok a, w') => f a w'
  | (Raise e, w') => (Raise e, w')
  end.

Definition raise {A} (e : Exn) : M A := fun w => (Raise e, w).
Definition get : M World := fun w => (Ok w, w).
Definition modify (f : World → World) : M unit := fun w => (Ok tt, f w).
Definition emit (e : Event) : M unit := modify (log e).

Definition lift_opt {A} (e : Exn) (o : option A) : M A :=
  match o with Some a => mret a | None => raise e end.

Definition lift {A} (o : Outcome A) : M A := fun w => (o, w).

(** [for x in xs: body(x)]. *)
Fixpoint for_each {A} (xs : list A) (body : A → M unit) : M unit :=
  match xs with
  | [] => mret tt
  | x :: xs' => body x;; for_each xs' body
  end.

(** [enumerate(xs)], counting from [i]. *)
Fixpoint enumerate_from {A} (i : Z) (xs : list A) : list (Z * A) :=
  match xs with
  | [] => []
  | x :: xs' => (i, x) :: enumerate_from (i + 1) xs'
  end.

(** [with torch.no_grad(): body]: gradient tracking is switched off for
    the body and the previous setting restored afterwards, also when the
    body raises. *)
Definition no_grad {A} (body : M A) : M A := fun w =>
  let prev := grad_enabled w in
  let '(r, w') := body (log (ENoGrad true) (set_grad false w)) in
  (r, log (ENoGrad false) (set_grad prev w')).

(** *** The collaborators outside the script

    The numerical work of the backbone and of the optimizer is left
    abstract: the input a block's [bn1] receives for a batch, whitening
    from batch or running statistics, the moving average of the running
    statistics, the rotation update, the SGD step and the accuracy meter
    are arbitrary functions. *)
Variable bn1_input : Pos → Net → Batch → Tensor.
Variable whiten_batch : Tensor → Tensor.
Variable whiten_running : Stats → Tensor → Tensor.
Variable ema : Stats → Tensor → Stats.
Variable update_rot : Tensor → Tensor → Tensor.
Variable sgd_param : Optimizer → Net → Batch → ParamRef → Weights → Weights.
Variable sgd_bufs : Optimizer → Net → Batch → OptBuf.
Variable top1_avg : Net → list Batch → Q.

Definition NORMAL : Z := 0.
Definition CALIBRATE : Z := 1.

(** Modelled from the spec: [iterative_normalization_py.apply] of
    MODELS/iterative_normalization.py is not among the sources.  In
    training mode it whitens from the batch statistics and moves the
    running estimates; in evaluation mode it uses the running estimates
    and updates nothing. *)
Definition iterative_normalization (x : Tensor) (st : Stats) (tr : bool)
  : Tensor * Stats :=
  if tr then (whiten_batch x, ema st x) else (whiten_running st x, st).

(** Modelled from the spec: the forward of a block's [bn1] is not among
    the sources.  It normalises as above and, for a whitening layer in
    CALIBRATE mode, updates the rotation matrix and nothing else; in
    NORMAL mode the rotation is a frozen map. *)
Definition bn1_forward (tr : bool) (x : Tensor) (n : Norm) : Norm :=
  let '(x_hat, st) := iterative_normalization x (running (nstate n)) tr in
  mkNorm (is_cw n) (mode n)
    (mkNormState (weight (nstate n)) st
       (if is_cw n && (mode n =? CALIBRATE)
        then update_rot (running_rot (nstate n)) x_hat
        else running_rot (nstate n))).

(** Modelled from the spec: [change_mode] of MODELS/model_resnet.py is
    not among the sources.  One call sets the mode of every whitening
    layer of the backbone. *)
Definition set_mode (m : Z) (b : Block) : Block :=
  mkBlock (if is_cw (bn1 b)
           then mkNorm true m (nstate (bn1 b)) else bn1 b) (rest b).

Definition change_mode_net (m : Z) (n : Net) : Net :=
  mkNet (training n) (layers n)
    (set_mode m <$> layer1 n) (set_mode m <$> layer2 n)
    (set_mode m <$> layer3 n) (set_mode m <$> layer4 n) (fc n) (stem n).

Definition change_mode (m : Z) : M unit :=
  emit (EChangeMode m);; modify (set_net (change_mode_net m)).

Definition model_train : M unit :=
  emit EModelTrain;; modify (set_net (set_training true)).

Definition model_eval : M unit :=
  emit EModelEval;; modify (set_net (set_training false)).

(** *** Forward hooks *)

Definition append_cell (c : nat) (v : Captured) : M unit :=
  modify (set_cells (alter (fun l => l ++ [v]) c)).

(** Lines 460 to 466: the whitened activation is viewed by groups,
    multiplied by the rotation matrix and viewed back. *)
Definition rotated (x_hat rot : Tensor) : Outcome Tensor :=
  match shape x_hat, shape rot with
  | b :: _ :: hw, g :: _ :: c :: _ =>
      v ← opt RuntimeError (T.view (b :: g :: c :: hw) x_hat);
      r ← opt RuntimeError (T.einsum_rot v rot);
      opt RuntimeError (T.view (shape x_hat) r)
  | _, _ => Raise IndexError
  end.

(** The call of [iterative_normalization_py.apply] in a hook is given the
    buffers of the module, which it updates in place as the layer's own
    forward does. *)
Definition hook_stats (tr : bool) (x : Tensor) (m : Norm) : Norm :=
  mkNorm (is_cw m) (mode m)
    (mkNormState (weight (nstate m))
       (iterative_normalization x (running (nstate m)) tr).2
       (running_rot (nstate m))).

Definition cell_of (h : Hook) : nat :=
  match h with DirectionHook c => c | Top5Hook c => c end.

(** What a hook computes from the module [m] and its input [x] and
    appends to its [outputs]. *)
Definition hook_capture (tr : bool) (m : Norm) (x : Tensor) (h : Hook)
  : Outcome Captured :=
  let x_hat := (iterative_normalization x (running (nstate m)) tr).1 in
  match h with
  | DirectionHook _ => CapMean <$> opt RuntimeError (T.mean023 x_hat)
  | Top5Hook _ => CapTensor <$> rotated x_hat (running_rot (nstate m))
  end.

(** The body of a hook, called with the module at [p] and the input it
    was given.  A hook returns nothing, so the output of the module is
    what the module computed. *)
Definition run_hook (p : Pos) (x : Tensor) (h : Hook) : M unit :=
  w ← get;
  m ← lift_opt IndexError (bn1_at (net w) p);
  modify (set_net (fun n => set_bn1 n p (hook_stats (training n) x)));;
  v ← lift (hook_capture (training (net w)) m x h);
  append_cell (cell_of h) v.

Definition hooks_at (p : Pos) (hs : list (Pos * Hook)) : list Hook :=
  snd <$> filter (fun ph => ph.1 = p) hs.

(** Modelled from the spec: the forward of the backbone is not among the
    sources.  It runs the blocks in depth order; each block's [bn1] runs
    and then the hooks registered on it are called in the order of their
    registration. *)
Definition block_forward (b : Batch) (p : Pos) : M unit :=
  w ← get;
  let x := bn1_input p (net w) b in
  modify (set_net (fun n => set_bn1 n p (bn1_forward (training n) x)));;
  for_each (hooks_at p (hooks w)) (run_hook p x).

(** [model(X)] at a place of the script. *)
Definition call_model (s : Site) (b : Batch) : M unit :=
  w ← get;
  emit (EForward s b (training (net w)) (modes (net w)) (grad_enabled w));;
  for_each (positions (net w)) (block_forward b).

(** *** [get_param_list] *)

(** The chain of comparisons that maps a whitened layer number to a
    stage and an index into it (lines 83 to 90, and again in the two
    functions that register hooks). *)
Definition select (ls : Z * Z * Z * Z) (wl : Z) : option (nat * Z) :=
  let '(l0, l1, l2, l3) := ls in
  if wl <=? l0 then Some (1%nat, wl - 1)
  else if wl <=? l0 + l1 then Some (2%nat, wl - l0 - 1)
  else if wl <=? l0 + l1 + l2 then Some (3%nat, wl - l0 - l1 - 1)
  else if wl <=? l0 + l1 + l2 + l3 then Some (4%nat, wl - l0 - l1 - l2 - 1)
  else None.

(** The module [model.layerS[i].bn1] the chain selects: nothing when no
    branch is taken, [IndexError] when the index is out of range. *)
Definition locate (n : Net) (wl : Z) : M (option Pos) :=
  match select (layers n) wl with
  | None => mret None
  | Some (s, i) =>
      i' ← lift_opt IndexError (Py.norm_index (length (stage n s)) i);
      mret (Some (s, i'))
  end.

Fixpoint whitened_params (n : Net) (whitened : list Z)
  : M (list ParamRef) :=
  match whitened with
  | [] => mret []
  | wl :: more =>
      o ← locate n wl;
      ps ← whitened_params n more;
      mret (match o with Some p => Bn1Params p :: ps | None => ps end)
  end.

(** The parameters of [fc], then those of the [bn1] of each whitened
    layer. *)
Definition get_param_list (n : Net) (whitened : list Z)
  : M (list ParamRef) :=
  ps ← whitened_params n whitened; mret (FcParams :: ps).

(** *** [train] *)

Definition apply_param (f : Weights → Weights) (r : ParamRef) (n : Net)
  : Net :=
  match r with
  | FcParams => set_fc (f (fc n)) n
  | Bn1Params p =>
      set_bn1 n p (fun m =>
        mkNorm (is_cw m) (mode m)
          (mkNormState (f (weight (nstate m))) (running (nstate m))
             (running_rot (nstate m))))
  end.

(** [optimizer.step()] after [loss.backward()] for batch [b]: the
    optimizer writes to the parameters it was given and to its buffers. *)
Definition optimizer_step (b : Batch) : M unit :=
  w ← get;
  emit EStep;;
  modify (set_net (fun n =>
    foldl (fun acc r => apply_param (sgd_param (optimizer w) n b r) r acc)
          n (params (optimizer w))));;
  modify (set_optimizer (fun o =>
    mkOptimizer (params o) (group_lr o) (sgd_bufs (optimizer w) (net w) b))).

(** Lines 336 to 345: the calibration sub-pass.  Each [for] over the
    concept loader starts a new pass over it, and [break] leaves after
    the first batch. *)
Definition calibrate (concept_loader : nat → list Batch) : M unit :=
  model_eval;;
  change_mode 1;;
  no_grad (
    w ← get;
    modify (set_concept_passes (S (concept_passes w)));;
    match concept_loader (concept_passes w) with
    | [] => mret tt
    | X :: _ => call_model InCalibrate X
    end);;
  change_mode 0;;
  model_train.

(** The body of the loop of [train] for batch [b] of index [i]; the
    meters and the progress line carry no state of the model and are left
    out. *)
Definition train_batch (concept_loader : nat → list Batch)
  (ib : Z * Batch) : M unit :=
  (if (ib.1 + 1) `mod` 2 =? 0 then calibrate concept_loader else mret tt);;
  call_model InTrain ib.2;;
  emit EZeroGrad;;
  w ← get;
  emit (EBackward (modes (net w)));;
  optimizer_step ib.2.

Definition train (train_loader concept_loader : nat → list Batch)
  : M unit :=
  model_train;;
  w ← get;
  modify (set_train_passes (S (train_passes w)));;
  for_each (enumerate_from 0 (train_loader (train_passes w)))
           (train_batch concept_loader).

(** *** [rotate_cpt] *)

(** [running_rot[0,0,:]] of a tensor of three dimensions. *)
Definition rot_row (r : Tensor) : option (list Q) :=
  match shape r with
  | [S _; S _; c] => Some (take c (elems r))
  | _ => None
  end.

(** The alignment that is printed after each batch is not kept; reading
    it raises when [layer2] is empty or the shapes do not fit. *)
Definition rotate_cpt (concept_loader : nat → list Batch) (mean : list Q)
  : M unit :=
  model_eval;;
  change_mode 1;;
  no_grad (
    for_each (seq 0 10) (fun _ =>
      w ← get;
      modify (set_concept_passes (S (concept_passes w)));;
      for_each (concept_loader (concept_passes w)) (fun X =>
        call_model InRotateCpt X;;
        w' ← get;
        b ← lift_opt IndexError (layer2 (net w') !! 0%nat);
        r0 ← lift_opt IndexError (rot_row (running_rot (nstate (bn1 b))));
        if decide (length r0 = length mean) then mret tt
        else raise RuntimeError)));;
  change_mode 0.

(** *** [validate] *)

Definition validate (val_loader : list Batch) : M Q :=
  model_eval;;
  no_grad (
    w ← get;
    for_each val_loader (call_model InValidate);;
    mret (top1_avg (net w) val_loader)).

(** *** Construction of the model *)

(** What the constructor is given for a block: whether its [bn1] is a
    whitening layer, and the initial parameters and buffers. *)
Definition Blueprint : Type :=
  (Z * Z * Z * Z) * list (list (bool * NormState * Weights))
  * Weights * Weights.

(** Modelled from the spec: the constructors [ResidualNet] and
    [ResidualNetTransfer] of MODELS/model_resnet.py are not among the
    sources.  A new model is in training mode, as every torch module is,
    and each of its whitening layers has mode NORMAL. *)
Definition new_block (x : bool * NormState * Weights) : Block :=
  mkBlock (mkNorm x.1.1 NORMAL x.1.2) x.2.

Definition ResidualNet (bp : Blueprint) : Net :=
  let stage_of i := new_block <$> default [] (bp.1.1.2 !! i) in
  mkNet true bp.1.1.1 (stage_of 0%nat) (stage_of 1%nat) (stage_of 2%nat)
        (stage_of 3%nat) bp.1.2 bp.2.

(** *** Checkpoints *)

Definition load_block (x : NormState * Weights) (b : Block) : Block :=
  mkBlock (mkNorm (is_cw (bn1 b)) (mode (bn1 b)) x.1) x.2.

(** [model.load_state_dict(sd)]: the parameters and buffers are replaced;
    a state of another structure raises. *)
Definition load_state_dict (sd : StateDict) (n : Net) : option Net :=
  match sd.1.1 with
  | [s1; s2; s3; s4] =>
      if decide (length s1 = length (layer1 n) ∧ length s2 = length (layer2 n)
                 ∧ length s3 = length (layer3 n)
                 ∧ length s4 = length (layer4 n))
      then Some (mkNet (training n) (layers n)
                   (zip_with load_block s1 (layer1 n))
                   (zip_with load_block s2 (layer2 n))
                   (zip_with load_block s3 (layer3 n))
                   (zip_with load_block s4 (layer4 n)) sd.1.2 sd.2)
      else None
  | _ => None
  end.

Definition optimizer_state_dict (o : Optimizer) : OptimState :=
  (group_lr o, bufs o).

Definition optimizer_load_state_dict (os : OptimState) (o : Optimizer)
  : Optimizer :=
  mkOptimizer (params o) os.1 os.2.

(** [d[key]]. *)
Definition item (d : Checkpoint) (key : string) : M PyVal :=
  lift_opt (KeyError key) (d !! key).

Definition layer_suffix (a : Args) : string :=
  Py.join "_" (Py.split "," (whitened_layers a)).

(** Line 136: the path that is looked up is the given one with the layer
    suffix inserted before its last 19 characters. *)
Definition resume_path (a : Args) : string :=
  Py.str_until_last 19 (resume a) +:+ "_" +:+ layer_suffix a
    +:+ Py.str_last 19 (resume a).

(** Lines 135 to 148.  [disk] maps the paths of the regular files to the
    record [torch.load] reads from them.  The epoch and the score of a
    record are taken to be numbers. *)
Definition resume_from (disk : gmap string Checkpoint) : M unit :=
  w ← get;
  if decide (resume (args w) = EmptyString) then mret tt
  else
    let path := resume_path (args w) in
    modify (set_args (fun a =>
      mkArgs (arch a) (whitened_layers a) (epochs a) (start_epoch a)
             (lr a) path (prefix a)));;
    match disk !! path with
    | Some checkpoint =>
        emit (EPrint ("=> loading checkpoint '" +:+ path +:+ "'"));;
        e ← item checkpoint "epoch";
        e ← (match e with VInt z => mret z | _ => raise TypeError end);
        modify (set_args (fun a =>
          mkArgs (arch a) (whitened_layers a) (epochs a) e
                 (lr a) (resume a) (prefix a)));;
        b ← item checkpoint "best_prec1";
        b ← (match b with
             | VInt z => mret (inject_Z z)
             | VNum q => mret q
             | _ => raise TypeError
             end);
        modify (set_best b);;
        sd ← item checkpoint "state_dict";
        sd ← (match sd with VModel sd => mret sd | _ => raise TypeError end);
        w' ← get;
        n ← lift_opt RuntimeError (load_state_dict sd (net w'));
        modify (set_net (fun _ => n));;
        match checkpoint !! "optimizer" with
        | Some v =>
            os ← (match v with VOptim os => mret os | _ => raise TypeError end);
            modify (set_optimizer (optimizer_load_state_dict os))
        | None => mret tt
        end;;
        emit (EPrint ("=> loaded checkpoint '" +:+ path +:+ "' (epoch "
                        +:+ Py.str e +:+ ")"))
    | None =>
        emit (EPrint ("=> no checkpoint found at '" +:+ path +:+ "'"))
    end.

Definition save_checkpoint (state : Checkpoint) (is_best : bool)
  (pfx : string) : M unit :=
  let filename := "./checkpoints/" +:+ pfx +:+ "_checkpoint.pth.tar" in
  emit (ESave filename state);;
  if is_best
  then emit (ECopy filename ("./checkpoints/" +:+ pfx +:+ "_model_best.pth.tar"))
  else mret tt.

(** [lr = args.lr * (0.1 ** (epoch // 50))], written to every group. *)
Definition adjust_learning_rate (epoch : Z) : M unit :=
  w ← get;
  emit (EAdjustLR epoch);;
  modify (set_optimizer (fun o =>
    mkOptimizer (params o)
      (lr (args w) * Qpower (1 # 10) (epoch `div` 50))%Q (bufs o))).

(** *** Hooks and the top-50 export *)

Definition new_cell : M nat :=
  w ← get;
  modify (set_cells (fun cs => cs ++ [[]]));;
  mret (length (cells w)).

Definition read_cell (c : nat) : M (list Captured) :=
  w ← get; mret (default [] (cells w !! c)).

(** The loop that registers [hook] on the [bn1] of each listed layer. *)
Definition register_hooks (h : Hook) (layer_list : list string) : M unit :=
  for_each layer_list (fun layer =>
    l ← lift_opt ValueError (Py.int layer);
    w ← get;
    o ← locate (net w) l;
    match o with
    | Some p => modify (set_hooks (fun hs => hs ++ [(p, h)]))
    | None => mret tt
    end).

Fixpoint add_means (acc : list Q) (outs : list Captured) : M (list Q) :=
  match outs with
  | [] => mret acc
  | CapMean v :: more =>
      if decide (length v = length acc)
      then add_means (zip_with Qplus acc v) more
      else raise RuntimeError
  | CapTensor _ :: _ => raise RuntimeError
  end.

(** [get_optimal_direction].  Its [outputs] is bound once, before the
    loop over the concept batches.  The mean of no capture at all is
    [nan] in torch and raises here. *)
Definition get_optimal_direction (concept_loader : nat → list Batch)
  (whitened : string) : M (list Q) :=
  let layer_list := Py.split "," whitened in
  outputs ← new_cell;
  register_hooks (DirectionHook outputs) layer_list;;
  no_grad (
    model_eval;;
    w ← get;
    modify (set_concept_passes (S (concept_passes w)));;
    for_each (concept_loader (concept_passes w)) (call_model InDirection);;
    outs ← read_cell outputs;
    mean ← add_means (replicate 128 0%Q) outs;
    if decide (outs = []) then raise RuntimeError
    else mret ((fun q => q / inject_Z (Z.of_nat (length outs)))%Q <$> mean)).

(** [val.reshape((rows, -1))] of a flat array. *)
Definition reshape_rows (rows : nat) (v : list Q) : option (list (list Q)) :=
  match rows with
  | O => None
  | S _ =>
      if decide (length v `mod` rows = 0)%nat
      then Some (T.chunks rows (length v `div` rows) v)
      else None
  end.

(** [np.concatenate((vals, val), 1)]. *)
Definition concat_columns (vals val : list (list Q))
  : option (list (list Q)) :=
  if decide (length vals = length val) then Some (zip_with app vals val)
  else None.

(** Lines 496 to 498: the scores of the captures for axis [k], one
    after the other. *)
Fixpoint flat_scores (k : Z) (outs : list Captured) : Outcome (list Q) :=
  match outs with
  | [] => Ok []
  | CapTensor t :: more =>
      s ← opt IndexError (T.sum23 t);
      col ← opt IndexError (T.column k s);
      rest ← flat_scores k more;
      Ok (col ++ rest)
  | CapMean _ :: _ => Raise TypeError
  end.

(** Lines 496 to 499: the scores of a batch, one row per capture.  With
    no capture at all [val] is still the Python list it was bound to,
    which has no [reshape]. *)
Definition batch_vals (k : Z) (outs : list Captured)
  : Outcome (list (list Q)) :=
  flat ← flat_scores k outs;
  match outs with
  | [] => Raise AttributeError
  | _ :: _ => opt ValueError (reshape_rows (length outs) flat)
  end.

Definition next_vals (i : Z) (vals : option (list (list Q)))
  (val : list (list Q)) : Outcome (list (list Q)) :=
  if i =? 0 then Ok val
  else match vals with
       | Some vs => opt ValueError (concat_columns vs val)
       | None => Raise TypeError
       end.

(** Lines 491 to 503: the loop over the validation batches for axis
    [k], with the local variables [paths] and [vals] as accumulators. *)
Fixpoint collect (outputs : nat) (k : Z)
  (batches : list (Z * (Batch * list string)))
  (paths : list string) (vals : option (list (list Q)))
  : M (list string * option (list (list Q))) :=
  match batches with
  | [] => mret (paths, vals)
  | (i, (input, path)) :: more =>
      modify (set_cells (fun cs => <[outputs := []]> cs));;
      call_model InTop5 input;;
      outs ← read_cell outputs;
      val ← lift (batch_vals k outs);
      vals ← lift (next_vals i vals val);
      collect outputs k more (paths ++ path) (Some vals)
  end.

Definition top_k : Z := 50.

(** Lines 506 and 507: the scores of the layer of index [i] paired with
    the paths and sorted. *)
Definition layer_ranking (vals : option (list (list Q)))
  (paths : list string) (i : Z) : Outcome (list (Q * string)) :=
  vs ← opt TypeError vals;
  row ← opt IndexError (vs !! Z.to_nat i);
  Ok (Py.sort_reverse fst (zip row paths)).

Definition copy_name (folder layer suffix : string) (j : Z) : string :=
  folder +:+ "layer" +:+ layer +:+ "_" +:+ Py.str (j + 1)
    +:+ suffix +:+ ".jpg".

(** Lines 505 to 515 for the layer of index [il.1] in the list. *)
Definition export_layer (folder suffix : string)
  (vals : option (list (list Q))) (paths : list string)
  (il : Z * string) : M unit :=
  arr ← lift (layer_ranking vals paths il.1);
  for_each (Py.range 0 top_k) (fun j =>
    e ← lift_opt IndexError (arr !! Z.to_nat j);
    emit (ECopy e.2 (copy_name folder il.2 suffix j))).

Definition plot_dir : string := "/usr/xtmp/zhichen/attention-module/plot/".

Definition top5_folder (a : Args) (layer_list : list string)
  (print_other : bool) : string :=
  if decide (arch a = "resnet_transfer")
  then plot_dir +:+ Py.join "_" layer_list +:+ "_rot_transfer/"
  else if print_other
       then plot_dir +:+ Py.join "_" layer_list +:+ "_rot_otherdim/"
       else plot_dir +:+ Py.join "_" layer_list +:+ "_rot/".

(** [print_concept_top5].  Creating the folder and the failures of the
    file system are left out; each [copyfile] is recorded. *)
Definition print_concept_top5 (val_loader : list (Batch * list string))
  (whitened : string) (print_other : bool) : M Z :=
  emit ETop5Begin;;
  model_eval;;
  let layer_list := Py.split "," whitened in
  w ← get;
  let folder := top5_folder (args w) layer_list print_other in
  outputs ← new_cell;
  register_hooks (Top5Hook outputs) layer_list;;
  let '(begin, end_) := if print_other then (1, 11) else (0, 1) in
  no_grad (
    for_each (Py.range begin end_) (fun k =>
      '(paths, vals) ← collect outputs k (enumerate_from 0 val_loader) [] None;
      for_each (enumerate_from 0 layer_list)
        (export_layer folder
           (if print_other then "_dim" +:+ Py.str k else EmptyString)
           vals paths)));;
  emit ETop5End;;
  mret 0.

(** *** [main] *)

Definition parse_layers (s : string) : M (list Z) :=
  lift_opt ValueError (mapM Py.int (Py.split "," s)).

Definition checkpoint_of (epoch : Z) (w : World) : Checkpoint :=
  <["epoch" := VInt (epoch + 1)]>
  (<["arch" := VStr (arch (args w))]>
  (<["state_dict" := VModel (state_dict (net w))]>
  (<["best_prec1" := VNum (best_prec1 w)]>
  (<["optimizer" := VOptim (optimizer_state_dict (optimizer w))]> ∅)))).

(** The body of the loop of lines 248 to 268. *)
Definition run_epoch (train_loader concept_loader : nat → list Batch)
  (val_loader : list Batch) (epoch : Z) : M unit :=
  adjust_learning_rate epoch;;
  train train_loader concept_loader;;
  prec1 ← validate val_loader;
  emit (EValidated epoch);;
  w ← get;
  let is_best := Py.gt prec1 (best_prec1 w) in
  modify (set_best (Py.max prec1 (best_prec1 w)));;
  w' ← get;
  save_checkpoint (checkpoint_of epoch w') is_best (prefix (args w')).

(** Lines 97 to 148 of [main]: the model, the optimizer and the optional
    resume. *)
Definition setup (bp : Blueprint) (bufs0 : OptBuf)
  (disk : gmap string Checkpoint) : M unit :=
  modify (set_args (fun a =>
    mkArgs (arch a) (whitened_layers a) (epochs a) (start_epoch a) (lr a)
           (resume a) (prefix a +:+ "_" +:+ layer_suffix a)));;
  w ← get;
  (if decide (arch (args w) = "resnet")
   then parse_layers (whitened_layers (args w));;
        modify (set_net (fun _ => ResidualNet bp))
   else if decide (arch (args w) = "resnet_transfer")
        then parse_layers (whitened_layers (args w));;
             modify (set_net (fun _ => ResidualNet bp))
        else raise NameError);;
  whitened ← parse_layers (whitened_layers (args w));
  w ← get;
  param_list ← get_param_list (net w) whitened;
  modify (set_optimizer (fun _ =>
    mkOptimizer param_list (lr (args w)) bufs0));;
  resume_from disk.

(** Lines 248 to 268 of [main]. *)
Definition training_loop (train_loader concept_loader : nat → list Batch)
  (val_loader : list Batch) : M unit :=
  w ← get;
  for_each (Py.range (start_epoch (args w)) (start_epoch (args w) + 5))
           (run_epoch train_loader concept_loader val_loader).

Definition main (bp : Blueprint) (bufs0 : OptBuf)
  (disk : gmap string Checkpoint)
  (train_loader concept_loader : nat → list Batch)
  (val_loader : list Batch) (val_loader_2 : list (Batch * list string))
  : M unit :=
  setup bp bufs0 disk;;
  training_loop train_loader concept_loader val_loader;;
  w ← get;
  print_concept_top5 val_loader_2 (whitened_layers (args w)) false;;
  mret tt.

(** The state of the process when [main] is entered: the module has set
    [best_prec1] to 0 and parsed the arguments; the model and the
    optimizer are bound by [main] itself before any use. *)
Definition fresh_world (a : Args) (bp : Blueprint) (bufs0 : OptBuf)
  : World :=
  mkWorld a 0%Q (ResidualNet bp) (mkOptimizer [] (lr a) bufs0) true
          [] [] 0 0 [].

(** ** Reasoning about the script

    A triple [hoare P m Q E]: from a state satisfying [P], [m] either
    returns [a] in a state satisfying [Q a] or raises in a state
    satisfying [E]. *)
Definition hoare {A} (P : World → Prop) (m : M A)
  (Q : A → World → Prop) (E : World → Prop) : Prop :=
  ∀ w, P w →
    match m w with
    | (Ok a, w') => Q a w'
    | (Raise _, w') => E w'
    end.

(** A projection of every block, stage by stage. *)
Definition per_block {X} (g : Block → X) (n : Net) : list (list X) :=
  [g <$> layer1 n; g <$> layer2 n; g <$> layer3 n; g <$> layer4 n].

(** Everything a model holds except the rotation matrices of its
    whitening layers, its modes and its training flag: the parameters of
    the classification path, the parameters and running statistics of
    every normalisation layer. *)
Definition classification_block (b : Block)
  : Weights * bool * Weights * Stats * option Tensor :=
  (rest b, is_cw (bn1 b), weight (nstate (bn1 b)),
   running (nstate (bn1 b)),
   if is_cw (bn1 b) then None else Some (running_rot (nstate (bn1 b)))).

Definition classification_state (n : Net) :=
  (fc n, stem n, per_block classification_block n).

(** A pass of the classification path: the forward of a training or a
    validation batch. *)
Definition classification_site (s : Site) : Prop :=
  s = InTrain ∨ s = InValidate.

(** An event of the classification path finds every whitening layer in
    NORMAL mode. *)
Definition event_ok (e : Event) : Prop :=
  match e with
  | EForward s _ _ ms _ => classification_site s → Forall (eq NORMAL) ms
  | EBackward ms => Forall (eq NORMAL) ms
  | _ => True
  end.

(** The milestones of [main] in a trace, in the order they happen. *)
Inductive Milestone :=
| MAdjust (k : Z) | MValidated (k : Z) | MSaved (k : option PyVal)
| MRanking.

Definition milestone (e : Event) : option Milestone :=
  match e with
  | EAdjustLR k => Some (MAdjust k)
  | EValidated k => Some (MValidated k)
  | ESave _ ck => Some (MSaved (ck !! "epoch"))
  | ETop5Begin => Some MRanking
  | _ => None
  end.

Definition milestones (tr : list Event) : list Milestone := omap milestone tr.

Definition epoch_milestones (k : Z) : list Milestone :=
  [MAdjust k; MValidated k; MSaved (Some (VInt (k + 1)))].

(** [kept w0 w]: [w] differs from [w0] only in what a forward pass may
    write: the statistics and rotations of the model, and the cells the
    registered hooks append to. *)
Definition kept (w0 w : World) : Prop :=
  args w = args w0 ∧ best_prec1 w = best_prec1 w0
  ∧ optimizer w = optimizer w0 ∧ grad_enabled w = grad_enabled w0
  ∧ hooks w = hooks w0 ∧ concept_passes w = concept_passes w0
  ∧ train_passes w = train_passes w0 ∧ trace w = trace w0
  ∧ training (net w) = training (net w0)
  ∧ per_block cw_mode (net w) = per_block cw_mode (net w0)
  ∧ (training (net w0) = false →
     classification_state (net w) = classification_state (net w0))
  ∧ (hooks w0 = [] → cells w = cells w0).

(** A computation that only reads the state. *)
Definition pure_m {A} (m : M A) : Prop := ∀ w, (m w).2 = w.

(** The events of one classification step on batch [b]. *)
Definition batch_events (b : Batch) (tr : bool) (ms : list Z) (g : bool)
  : list Event :=
  [EForward InTrain b tr ms g; EZeroGrad; EBackward ms; EStep].

(** The events of a calibration sub-pass over the concept batches
    [batches] of a model with [k] whitening layers. *)
Definition calibration_events (k : nat) (batches : list Batch)
  : list Event :=
  [EModelEval; EChangeMode CALIBRATE; ENoGrad true]
  ++ match batches with
     | [] => []
     | X :: _ => [EForward InCalibrate X false (replicate k CALIBRATE) false]
     end
  ++ [ENoGrad false; EChangeMode NORMAL; EModelTrain].

(** The interleaving the scheduler is specified to produce, with the
    cadence 2: before every second classification batch, one calibration
    sub-pass on the first batch of the next pass over the concept data;
    [k] is the number of whitening layers, [g] the gradient switch, [cp]
    the number of passes begun on the concept data and [ms] the modes at
    the start. *)
Fixpoint interleaving (k : nat) (g : bool) (cl : nat → list Batch)
  (cp : nat) (ms : list Z) (ibs : list (Z * Batch)) : list Event :=
  match ibs with
  | [] => []
  | (i, b) :: more =>
      if (i + 1) `mod` 2 =? 0
      then calibration_events k (cl cp)
           ++ batch_events b true (replicate k NORMAL) g
           ++ interleaving k g cl (S cp) (replicate k NORMAL) more
      else batch_events b true ms g ++ interleaving k g cl cp ms more
  end.

(** [emits P m]: whatever [m] does, it only appends events satisfying
    [P] to the trace. *)
Definition emits {A} (P : Event → Prop) (m : M A) : Prop :=
  ∀ w, ∃ evs, trace (m w).2 = trace w ++ evs ∧ Forall P evs.

(** An event that is no milestone of [main] and respects the modes. *)
Definition quiet (e : Event) : Prop := milestone e = None ∧ event_ok e.

(** The events of [validate]. *)
Definition validation_events (ms : list Z) (val_loader : list Batch)
  : list Event :=
  [EModelEval; ENoGrad true]
  ++ ((fun b => EForward InValidate b false ms false) <$> val_loader)
  ++ [ENoGrad false].

(** The state after the events [evs] are recorded. *)
Definition logs (evs : list Event) (w : World) : World :=
  foldl (fun w e => log e w) w evs.

(** The event a forward pass records in state [w]. *)
Definition forward_event (s : Site) (b : Batch) (w : World) : Event :=
  EForward s b (training (net w)) (modes (net w)) (grad_enabled w).

(** The invariant that holds from the construction of the model to the
    start of the export. *)
Definition training_ready (w : World) : Prop :=
  hooks w = [] ∧ Forall (eq NORMAL) (modes (net w)).



(** Every cell still starts with what it held in [cs0]. *)
Definition grown (cs0 cs : list (list Captured)) : Prop :=
  length cs = length cs0
  ∧ ∀ c l, cs0 !! c = Some l → ∃ l', cs !! c = Some (l ++ l').

(** ** The forward pass of a model at rest

    A model is at rest when it is in evaluation mode and none of its
    whitening layers is in CALIBRATE mode: a forward pass then writes
    nothing to the model, and all it does is to run the hooks. *)
Definition at_rest_block (b : Block) : Prop :=
  is_cw (bn1 b) && (mode (bn1 b) =? CALIBRATE) = false.

Definition quiescent (n : Net) : Prop :=
  training n = false ∧ Forall at_rest_block (blocks n).

Definition with_cells (cs : list (list Captured)) (w : World) : World :=
  set_cells (fun _ => cs) w.

(** The hooks [hs] of the block at [p] run on its input [x]: the cells
    afterwards, and whether a hook raised. *)
Fixpoint fire_hooks (n : Net) (p : Pos) (x : Tensor) (hs : list Hook)
  (cs : list (list Captured)) : Outcome unit * list (list Captured) :=
  match hs with
  | [] => (Ok tt, cs)
  | h :: more =>
      match bn1_at n p with
      | None => (Raise IndexError, cs)
      | Some m =>
          match hook_capture false m x h with
          | Ok v =>
              fire_hooks n p x more (alter (fun l => l ++ [v]) (cell_of h) cs)
          | Raise e => (Raise e, cs)
          end
      end
  end.

(** The hooks [hs] of the model run block by block on the batch [b]. *)
Fixpoint fire (n : Net) (b : Batch) (hs : list (Pos * Hook))
  (ps : list Pos) (cs : list (list Captured))
  : Outcome unit * list (list Captured) :=
  match ps with
  | [] => (Ok tt, cs)
  | p :: more =>
      match fire_hooks n p (bn1_input p n b) (hooks_at p hs) cs with
      | (Ok _, cs') => fire n b hs more cs'
      | (Raise e, cs') => (Raise e, cs')
      end
  end.

Definition is_top5 (h : Hook) : Prop :=
  match h with Top5Hook _ => True | DirectionHook _ => False end.

(** What a hook of [print_concept_top5] on the block at [p] captures for
    the batch [b]: the rotated activation of the block. *)
Definition cap_x (n : Net) (p : Pos) (x : Tensor) : Outcome Captured :=
  match bn1_at n p with
  | None => Raise IndexError
  | Some m => hook_capture false m x (Top5Hook 0)
  end.

Definition cap_at (n : Net) (p : Pos) (b : Batch) : Outcome Captured :=
  cap_x n p (bn1_input p n b).

(** The captures a list receives from a forward pass over the blocks
    [ps] when [m p] of the hooks on the block at [p] append to it, up to
    the first capture that raises. *)
Fixpoint caps (n : Net) (b : Batch) (m : Pos → nat) (ps : list Pos)
  : Outcome unit * list Captured :=
  match ps with
  | [] => (Ok tt, [])
  | p :: more =>
      match m p with
      | O => caps n b m more
      | S _ =>
          match cap_at n p b with
          | Ok v => let '(o, l) := caps n b m more in
                    (o, replicate (m p) v ++ l)
          | Raise e => (Raise e, [])
          end
      end
  end.

(** The hooks of one call of [print_concept_top5], on the blocks [ps]. *)
Definition tag (c : nat) (ps : list Pos) : list (Pos * Hook) :=
  (fun p => (p, Top5Hook c)) <$> ps.

(** How many times the block at [p] is listed. *)
Definition times (p : Pos) (ps : list Pos) : nat :=
  length (filter (fun q => q = p) ps).

(** ** What the export does, as a function of the model

    The outcome of a piece of the script together with the events it
    records. *)
Definition Rec (A : Type) : Type := Outcome A * list Event.

Definition rec_bind {A B} (m : Rec A) (f : A → Rec B) : Rec B :=
  match m with
  | (Ok a, evs) => let '(r, evs') := f a in (r, evs ++ evs')
  | (Raise e, evs) => (Raise e, evs)
  end.

Fixpoint rec_for {A} (xs : list A) (body : A → Rec unit) : Rec unit :=
  match xs with
  | [] => (Ok tt, [])
  | x :: more => rec_bind (body x) (fun _ => rec_for more body)
  end.

(** The block [locate] selects. *)
Definition locate_o (n : Net) (wl : Z) : Outcome (option Pos) :=
  match select (layers n) wl with
  | None => Ok None
  | Some (s, i) =>
      i' ← opt IndexError (Py.norm_index (length (stage n s)) i);
      Ok (Some (s, i'))
  end.

(** The blocks the registration loop puts a hook on, in the order of
    the list of layers. *)
Fixpoint located (n : Net) (layer_list : list string) : Outcome (list Pos) :=
  match layer_list with
  | [] => Ok []
  | layer :: more =>
      l ← opt ValueError (Py.int layer);
      o ← locate_o n l;
      ps ← located n more;
      Ok (option_list o ++ ps)
  end.

(** The captures the list [outputs] holds after the forward pass of the
    batch [b], when the hooks appending to it sit on the blocks [cfg]. *)
Definition captures (n : Net) (cfg : list Pos) (b : Batch)
  : Outcome unit * list Captured :=
  caps n b (fun p => times p cfg) (positions n).

(** The loop over the validation batches for axis [k]. *)
Fixpoint collect_rec (n : Net) (cfg : list Pos) (k : Z)
  (batches : list (Z * (Batch * list string)))
  (paths : list string) (vals : option (list (list Q)))
  : Rec (list string * option (list (list Q))) :=
  match batches with
  | [] => (Ok (paths, vals), [])
  | (i, (input, path)) :: more =>
      let ev := EForward InTop5 input false (modes n) false in
      match captures n cfg input with
      | (Raise e, _) => (Raise e, [ev])
      | (Ok _, outs) =>
          match val ← batch_vals k outs; next_vals i vals val with
          | Raise e => (Raise e, [ev])
          | Ok vals' =>
              rec_bind (Ok tt, [ev]) (fun _ =>
                collect_rec n cfg k more (paths ++ path) (Some vals'))
          end
      end
  end.

Fixpoint copies (arr : list (Q * string)) (name : Z → string)
  (js : list Z) : Rec unit :=
  match js with
  | [] => (Ok tt, [])
  | j :: more =>
      match arr !! Z.to_nat j with
      | None => (Raise IndexError, [])
      | Some e =>
          rec_bind (Ok tt, [ECopy e.2 (name j)]) (fun _ =>
            copies arr name more)
      end
  end.

Definition export_rec (folder suffix : string)
  (vals : option (list (list Q))) (paths : list string)
  (il : Z * string) : Rec unit :=
  match layer_ranking vals paths il.1 with
  | Raise e => (Raise e, [])
  | Ok arr => copies arr (copy_name folder il.2 suffix) (Py.range 0 top_k)
  end.

Definition top5_suffix (print_other : bool) (k : Z) : string :=
  if print_other then "_dim" +:+ Py.str k else EmptyString.

Definition top5_axes (print_other : bool) : list Z :=
  if print_other then Py.range 1 11 else Py.range 0 1.

(** The events of the [no_grad] block of [print_concept_top5]. *)
Definition ranking_rec (n : Net) (a : Args) (cfg : list Pos)
  (val_loader : list (Batch * list string)) (layer_list : list string)
  (print_other : bool) : Rec unit :=
  rec_for (top5_axes print_other) (fun k =>
    rec_bind (collect_rec n cfg k (enumerate_from 0 val_loader) [] None)
      (fun pv =>
         rec_for (enumerate_from 0 layer_list)
           (export_rec (top5_folder a layer_list print_other)
              (top5_suffix print_other k) pv.2 pv.1))).

(** [print_concept_top5] on the model [n] with the arguments [a]. *)
Definition top5_rec (n : Net) (a : Args)
  (val_loader : list (Batch * list string)) (whitened : string)
  (print_other : bool) : Rec Z :=
  let n' := set_training false n in
  let layer_list := Py.split "," whitened in
  match located n' layer_list with
  | Raise e => (Raise e, [ETop5Begin; EModelEval])
  | Ok cfg =>
      match ranking_rec n' a cfg val_loader layer_list print_other with
      | (Ok _, evs) =>
          (Ok 0, [ETop5Begin; EModelEval; ENoGrad true] ++ evs
                 ++ [ENoGrad false; ETop5End])
      | (Raise e, evs) =>
          (Raise e, [ETop5Begin; EModelEval; ENoGrad true] ++ evs
                    ++ [ENoGrad false])
      end
  end.

(** The hooks in place are hooks of earlier calls of
    [print_concept_top5] for the blocks [cfg], each appending to a list
    of its own. *)
Definition ranking_hooks (cfg : list Pos) (w : World) : Prop :=
  Forall (fun ph => is_top5 ph.2 ∧ ph.1 ∈ cfg
                    ∧ (cell_of ph.2 < length (cells w))%nat) (hooks w).

Definition no_calibration (n : Net) : Prop :=
  Forall at_rest_block (blocks n).

(** What stays as it is while the export runs. *)
Definition ranking_state (n : Net) (a : Args) (hs : list (Pos * Hook))
  (len : nat) (w : World) : Prop :=
  net w = n ∧ args w = a ∧ grad_enabled w = false ∧ hooks w = hs
  ∧ length (cells w) = len.

(** The hooks [hs] feed the list [c] as [print_concept_top5] set them up
    for the blocks [cfg]. *)
Definition feeds (hs : list (Pos * Hook)) (c : nat) (cfg : list Pos)
  : Prop :=
  Forall (fun ph => is_top5 ph.2) hs
  ∧ (∀ p, times p cfg
          = length (filter (fun h => cell_of h = c) (hooks_at p hs)))
  ∧ (∀ p, times p cfg = 0%nat → hooks_at p hs = []).

(** [follows I m s]: from a state satisfying [I], the computation [m]
    has the outcome and records the events of [s], and [I] holds
    afterwards. *)
Definition follows {A} (I : World → Prop) (m : M A) (s : Rec A) : Prop :=
  ∀ w, I w →
    ∃ w', m w = (s.1, w') ∧ trace w' = trace w ++ s.2 ∧ I w'.

(** The states [print_concept_top5] is called in: no whitening layer is
    left in CALIBRATE mode, and the hooks in place are those of earlier
    calls for the same layers. *)
Definition rankable (whitened : string) (w : World) : Prop :=
  no_calibration (net w)
  ∧ ∀ cfg, located (set_training false (net w)) (Py.split "," whitened)
           = Ok cfg → ranking_hooks cfg w.

(** ** The ranking

    [before key idx x y]: [x] is ranked before [y], having the greater
    key or, the keys being equal, having come earlier. *)
Definition before {A} (key : A → Q) (idx : A → nat) (x y : A) : Prop :=
  (key y < key x)%Q ∨ (key x == key y)%Q ∧ (idx x < idx y)%nat.

(** The score of the image of index [i]. *)
Definition score_at (scores : list Q) (i : nat) : Q :=
  default 0%Q (scores !! i).

(** [ranks scores order]: [order] lists the images, by their indices in
    the order of iteration, by descending score, images of equal score
    in the order they were iterated. *)
Definition ranks (scores : list Q) (order : list nat) : Prop :=
  order ≡ₚ seq 0 (length scores)
  ∧ StronglySorted (before (score_at scores) id) order.

(** The activation of axis [k] of the image of index [i] of a capture
    of shape (B, C, H, W), at its H * W locations. *)
Definition pixels (t : Tensor) (k i : nat) : list Q :=
  match shape t with
  | [b; c; h; w] => take (h * w) (drop ((i * c + k) * (h * w)) (elems t))
  | _ => []
  end.

(** The spatial mean of axis [k] for the image of index [i]. *)
Definition spatial_mean (t : Tensor) (k i : nat) : Q :=
  match shape t with
  | [b; c; h; w] =>
      (T.qsum (pixels t k i) / inject_Z (Z.of_nat (h * w)))%Q
  | _ => 0%Q
  end.

(** The activations [act p b] of the block at [p] for the batches of the
    validation set, by image: the sums over the locations, which the
    export computes, and the spatial means. *)
Definition image_sums (act : Pos → Batch → Tensor) (k : nat) (p : Pos)
  (vl : list (Batch * list string)) : list Q :=
  bp ← vl; (fun i => T.qsum (pixels (act p bp.1) k i)) <$> seq 0 (length bp.2).

Definition image_means (act : Pos → Batch → Tensor) (k : nat) (p : Pos)
  (vl : list (Batch * list string)) : list Q :=
  bp ← vl; spatial_mean (act p bp.1) k <$> seq 0 (length bp.2).

(** The configured blocks, taken in the order the forward pass runs
    them, are the list as configured. *)
Definition in_forward_order (n : Net) (cfg : list Pos) : Prop :=
  (p ← positions n; replicate (times p cfg) p) = cfg.

(** The forward passes of one loop over the validation set. *)
Definition forwards (n : Net) (vl : list (Batch * list string))
  : list Event :=
  (fun bp => EForward InTop5 bp.1 false (modes n) false) <$> vl.

(** The copies of one layer: the sources in the order of their rank,
    the destination named after the layer and the rank, from 1. *)
Definition copy_events (folder layer suffix : string) (srcs : list string)
  : list Event :=
  (fun js => ECopy js.2 (copy_name folder layer suffix js.1))
  <$> enumerate_from 0 srcs.

(** The sources copied for axis [k] and the layer of index [i] in the
    list: at most 50, taken from the head of the sorted list. *)
Definition top_sources (act : Pos → Batch → Tensor) (cfg : list Pos)
  (vl : list (Batch * list string)) (k i : nat) : list string :=
  snd <$> take 50
    (Py.sort_reverse fst
       (zip (default [] (((fun p => image_sums act k p vl) <$> cfg) !! i))
            (vl ≫= snd))).

(** The events of the export for one axis: the forward passes of the
    validation set, then the copies layer by layer. *)
Definition axis_events (n : Net) (folder suffix : string)
  (vl : list (Batch * list string)) (layer_list : list string)
  (top : nat → list string) : list Event :=
  forwards n vl
  ++ (il ← enumerate_from 0 layer_list;
      copy_events folder il.2 suffix (top (Z.to_nat il.1))).

(** ** Counting events *)

Definition count_events (f : Event → bool) (evs : list Event) : nat :=
  length (List.filter f evs).

Definition is_step (e : Event) : bool :=
  match e with EStep => true | _ => false end.

Definition is_forward (s : Site) (e : Event) : bool :=
  match e, s with
  | EForward InTrain _ _ _ _, InTrain => true
  | EForward InCalibrate _ _ _ _, InCalibrate => true
  | EForward InValidate _ _ _ _, InValidate => true
  | EForward InRotateCpt _ _ _ _, InRotateCpt => true
  | EForward InDirection _ _ _ _, InDirection => true
  | EForward InTop5 _ _ _ _, InTop5 => true
  | _, _ => false
  end.

(** ** Names and numbers of the script *)

(** The two files [save_checkpoint] writes for the prefix [pfx]. *)
Definition checkpoint_file (pfx : string) : string :=
  "./checkpoints/" +:+ pfx +:+ "_checkpoint.pth.tar".

Definition best_file (pfx : string) : string :=
  "./checkpoints/" +:+ pfx +:+ "_model_best.pth.tar".

(** The layer counts the model announces are those of its stages. *)
Definition counts_fit (n : Net) : Prop :=
  layers n = (Z.of_nat (length (layer1 n)), Z.of_nat (length (layer2 n)),
              Z.of_nat (length (layer3 n)), Z.of_nat (length (layer4 n))).

(** [s.replace(',', '_')], character by character. *)
Fixpoint underscored (s : string) : string :=
  match s with
  | EmptyString => EmptyString
  | String c rest =>
      String (if Ascii.eqb c "," then "_"%char else c) (underscored rest)
  end.

(** ** The rules of the logic *)

Lemma run_bind {A B} (m : M A) (f : A → M B) (w : World) :
  (m ≫= f) w = match m w with
                | (Ok a, w') => f a w'
                | (Raise e, w') => (Raise e, w')
                end.
Proof. reflexivity. Qed.

Lemma run_ret {A} (a : A) (w : World) : (mret a : M A) w = (Ok a, w).
Proof. reflexivity. Qed.

Lemma run_get (w : World) : get w = (Ok w, w).
Proof. reflexivity. Qed.

Lemma run_modify f (w : World) : modify f w = (Ok tt, f w).
Proof. reflexivity. Qed.

Lemma run_emit e (w : World) : emit e w = (Ok tt, log e w).
Proof. reflexivity. Qed.

Lemma run_raise {A} e (w : World) : @raise A e w = (Raise e, w).
Proof. reflexivity. Qed.

Lemma run_lift_some {A} e (a : A) (w : World) :
  lift_opt e (Some a) w = (Ok a, w).
Proof. reflexivity. Qed.

Lemma run_lift_none {A} e (w : World) :
  @lift_opt A e None w = (Raise e, w).
Proof. reflexivity. Qed.

Lemma run_lift {A} (o : Outcome A) (w : World) : lift o w = (o, w).
Proof. reflexivity. Qed.

Ltac wsimpl :=
  cbn [args best_prec1 net optimizer grad_enabled hooks cells
       concept_passes train_passes trace set_args set_best set_net
       set_optimizer set_grad set_hooks set_cells set_concept_passes
       set_train_passes log arch whitened_layers epochs start_epoch lr
       resume prefix] in *.

Ltac mrun :=
  repeat (progress (rewrite ?run_bind, ?run_get, ?run_modify, ?run_emit,
                      ?run_ret, ?run_raise, ?run_lift_some, ?run_lift_none,
                      ?run_lift;
                    cbn beta iota; wsimpl)).

Lemma hoare_ret {A} (P : World → Prop) (a : A) Q E :
  (∀ w, P w → Q a w) → hoare P (mret a) Q E.
Proof. intros H w Hw. apply H, Hw. Qed.

Lemma hoare_bind {A B} P (m : M A) (f : A → M B) R Q E :
  hoare P m R E → (∀ a, hoare (R a) (f a) Q E) → hoare P (m ≫= f) Q E.
Proof.
  intros Hm Hf w Hw. rewrite run_bind. specialize (Hm w Hw).
  destruct (m w) as [[a|e] w']; [apply Hf, Hm | exact Hm].
Qed.

Lemma hoare_conseq {A} (P P' : World → Prop) (m : M A)
  (Q Q' : A → World → Prop) (E E' : World → Prop) :
  hoare P' m Q' E' → (∀ w, P w → P' w) → (∀ a w, Q' a w → Q a w) →
  (∀ w, E' w → E w) → hoare P m Q E.
Proof.
  intros H HP HQ HE w Hw. specialize (H w (HP w Hw)).
  destruct (m w) as [[a|e] w']; auto.
Qed.

Lemma hoare_get P E : hoare P get (fun a w => a = w ∧ P w) E.
Proof. intros w Hw. simpl. auto. Qed.

Lemma hoare_modify (P : World → Prop) f (Q : unit → World → Prop) E :
  (∀ w, P w → Q tt (f w)) → hoare P (modify f) Q E.
Proof. intros H w Hw. apply H, Hw. Qed.

Lemma hoare_emit (P : World → Prop) e (Q : unit → World → Prop) E :
  (∀ w, P w → Q tt (log e w)) → hoare P (emit e) Q E.
Proof. intros H w Hw. apply H, Hw. Qed.

Lemma hoare_raise {A} (P : World → Prop) e (Q : A → World → Prop)
  (E : World → Prop) :
  (∀ w, P w → E w) → hoare P (raise e) Q E.
Proof. intros H w Hw. apply H, Hw. Qed.

Lemma hoare_lift_opt {A} (P : World → Prop) e (o : option A)
  (Q : A → World → Prop) (E : World → Prop) :
  (∀ a w, o = Some a → P w → Q a w) → (∀ w, o = None → P w → E w) →
  hoare P (lift_opt e o) Q E.
Proof. intros H1 H2 w Hw. destruct o; simpl; auto. Qed.

Lemma hoare_for_each {A} (I : World → Prop) (xs : list A) body E :
  (∀ x, x ∈ xs → hoare I (body x) (fun _ => I) E) →
  hoare I (for_each xs body) (fun _ => I) E.
Proof.
  induction xs as [|x xs IH]; intros H.
  - apply hoare_ret. auto.
  - simpl. eapply hoare_bind.
    + apply H. left.
    + intros u. apply IH. intros y Hy. apply H. by right.
Qed.

(** An invariant that does not look at the gradient switch nor at the
    events that record it holds through [no_grad]. *)
Lemma hoare_no_grad {A} (I : World → Prop) (body : M A)
  (Q : A → World → Prop) (E : World → Prop) :
  (∀ w b, I w → I (log (ENoGrad b) w)) →
  (∀ w b, I w → I (set_grad b w)) →
  (∀ a w b, Q a w → Q a (log (ENoGrad b) w)) →
  (∀ a w b, Q a w → Q a (set_grad b w)) →
  (∀ w b, E w → E (log (ENoGrad b) w)) →
  (∀ w b, E w → E (set_grad b w)) →
  hoare I body Q E → hoare I (no_grad body) Q E.
Proof.
  intros HI1 HI2 HQ1 HQ2 HE1 HE2 H w Hw. unfold no_grad.
  specialize (H (log (ENoGrad true) (set_grad false w))
                (HI1 _ _ (HI2 _ _ Hw))).
  destruct (body _) as [[a|e] w']; auto.
Qed.

(** ** What a forward pass leaves alone *)

Lemma fmap_alter_same {X} (g : Block → X) (f : Block → Block) i
  (l : list Block) :
  (∀ b, g (f b) = g b) → g <$> alter f i l = g <$> l.
Proof.
  intros H. revert i. induction l as [|b l IH]; intros [|i]; csimpl; auto.
  - by rewrite H.
  - f_equal. apply IH.
Qed.

Lemma per_block_set_bn1 {X} (g : Block → X) n p f :
  (∀ b, g (mkBlock (f (bn1 b)) (rest b)) = g b) →
  per_block g (set_bn1 n p f) = per_block g n.
Proof.
  intros H. unfold set_bn1, per_block.
  destruct p as [[|[|[|[|[|s]]]]] i]; simpl; try reflexivity;
    by rewrite fmap_alter_same.
Qed.

Lemma set_bn1_fields n p f :
  training (set_bn1 n p f) = training n ∧ layers (set_bn1 n p f) = layers n
  ∧ fc (set_bn1 n p f) = fc n ∧ stem (set_bn1 n p f) = stem n.
Proof.
  unfold set_bn1. by destruct p as [[|[|[|[|[|s]]]]] i].
Qed.

Lemma omap_fmap_id {X Y} (g : X → option Y) (l : list X) :
  omap g l = omap id (g <$> l).
Proof.
  induction l as [|x l IH]; csimpl; [done|]. rewrite <- IH.
  by destruct (g x).
Qed.

Lemma modes_per_block n n' :
  per_block cw_mode n = per_block cw_mode n' → modes n = modes n'.
Proof.
  unfold per_block, modes, blocks. intros H.
  rewrite !(omap_fmap_id cw_mode), !fmap_app.
  injection H as H1 H2 H3 H4. by rewrite H1, H2, H3, H4.
Qed.

Lemma length_per_block {X} (g : Block → X) n n' :
  per_block g n = per_block g n' →
  ∀ s, length (stage n s) = length (stage n' s).
Proof.
  unfold per_block. intros H s. injection H as H1 H2 H3 H4.
  destruct s as [|[|[|[|[|s]]]]]; simpl; try done;
    apply (f_equal length) in H1, H2, H3, H4;
    rewrite !length_fmap in H1, H2, H3, H4; done.
Qed.

Lemma kept_refl w : kept w w.
Proof. unfold kept. tauto. Qed.

Lemma kept_modes w0 w : kept w0 w → modes (net w) = modes (net w0).
Proof. intros H. apply modes_per_block, H. Qed.

Lemma kept_set_bn1 w0 w p f :
  kept w0 w →
  (∀ m, is_cw (f m) = is_cw m ∧ mode (f m) = mode m
        ∧ weight (nstate (f m)) = weight (nstate m)) →
  (training (net w0) = false →
   ∀ m, running (nstate (f m)) = running (nstate m)
        ∧ (is_cw m = false →
           running_rot (nstate (f m)) = running_rot (nstate m))) →
  kept w0 (set_net (fun n => set_bn1 n p f) w).
Proof.
  intros (?&?&?&?&?&?&?&?&Htr&Hm&Hc&Hcells) Hf Hg.
  destruct (set_bn1_fields (net w) p f) as (Ht&Hl&Hfc&Hst).
  unfold kept; simpl. repeat split; try done.
  - by rewrite Ht.
  - rewrite per_block_set_bn1; [done|]. intros b. unfold cw_mode; simpl.
    destruct (Hf (bn1 b)) as (->&->&_). done.
  - intros Hfalse. specialize (Hc Hfalse). specialize (Hg Hfalse).
    unfold classification_state in *. rewrite Hfc, Hst.
    rewrite per_block_set_bn1; [done|]. intros b.
    unfold classification_block; simpl.
    destruct (Hf (bn1 b)) as (->&_&->). destruct (Hg (bn1 b)) as (->&Hr).
    destruct (is_cw (bn1 b)); [done|]. by rewrite Hr.
Qed.

Lemma kept_set_cells w0 w g :
  kept w0 w → hooks w0 ≠ [] → kept w0 (set_cells g w).
Proof. unfold kept; simpl. intuition. Qed.

Lemma pure_run {A} (m : M A) w o w' : pure_m m → m w = (o, w') → w' = w.
Proof. intros H Hr. specialize (H w). by rewrite Hr in H. Qed.

Lemma pure_ret {A} (a : A) : pure_m (mret a).
Proof. done. Qed.

Lemma pure_raise {A} e : pure_m (@raise A e).
Proof. done. Qed.

Lemma pure_lift_opt {A} e (o : option A) : pure_m (lift_opt e o).
Proof. by destruct o. Qed.

Lemma pure_bind {A B} (m : M A) (f : A → M B) :
  pure_m m → (∀ a, pure_m (f a)) → pure_m (m ≫= f).
Proof.
  intros Hm Hf w. rewrite run_bind. specialize (Hm w).
  destruct (m w) as [[a|e] w']; simpl in *; subst; [apply Hf | done].
Qed.

Lemma pure_lift {A} (o : Outcome A) : pure_m (lift o).
Proof. done. Qed.

Lemma bn1_forward_keeps tr x m :
  is_cw (bn1_forward tr x m) = is_cw m
  ∧ mode (bn1_forward tr x m) = mode m
  ∧ weight (nstate (bn1_forward tr x m)) = weight (nstate m).
Proof. unfold bn1_forward, iterative_normalization. by destruct tr. Qed.

Lemma bn1_forward_eval x m :
  running (nstate (bn1_forward false x m)) = running (nstate m)
  ∧ (is_cw m = false →
     running_rot (nstate (bn1_forward false x m)) = running_rot (nstate m)).
Proof. unfold bn1_forward; simpl. split; [done|]. by intros ->. Qed.

Lemma hook_stats_keeps tr x m :
  is_cw (hook_stats tr x m) = is_cw m ∧ mode (hook_stats tr x m) = mode m
  ∧ weight (nstate (hook_stats tr x m)) = weight (nstate m).
Proof. done. Qed.

Lemma hook_stats_eval x m :
  running (nstate (hook_stats false x m)) = running (nstate m)
  ∧ (is_cw m = false →
     running_rot (nstate (hook_stats false x m)) = running_rot (nstate m)).
Proof. done. Qed.

Lemma kept_training w0 w : kept w0 w → training (net w) = training (net w0).
Proof. intros H. apply H. Qed.

Lemma kept_forward_write w0 w p (f : bool → Norm → Norm) :
  kept w0 w →
  (∀ tr m, is_cw (f tr m) = is_cw m ∧ mode (f tr m) = mode m
           ∧ weight (nstate (f tr m)) = weight (nstate m)) →
  (∀ m, running (nstate (f false m)) = running (nstate m)
        ∧ (is_cw m = false →
           running_rot (nstate (f false m)) = running_rot (nstate m))) →
  kept w0 (set_net (fun n => set_bn1 n p (f (training n))) w).
Proof.
  intros Hk Hf Hg.
  change (set_net (fun n => set_bn1 n p (f (training n))) w)
    with (set_net (fun n => set_bn1 n p (f (training (net w)))) w).
  apply kept_set_bn1; [done|apply Hf|].
  intros Hfalse. rewrite (kept_training _ _ Hk), Hfalse. apply Hg.
Qed.

(** A hook leaves the model as it is in evaluation mode, and in any mode
    touches nothing but the running statistics and its cell. *)
Lemma run_hook_kept w0 p x h :
  hoare (fun w => kept w0 w ∧ hooks w0 ≠ []) (run_hook p x h)
        (fun _ w => kept w0 w) (kept w0).
Proof.
  intros w [Hk Hne]. unfold run_hook. mrun.
  destruct (bn1_at (net w) p) as [m|]; mrun; [|done].
  pose proof (kept_forward_write w0 w p (fun tr => hook_stats tr x) Hk
                (fun tr => hook_stats_keeps tr x) (hook_stats_eval x)) as Hk'.
  cbn beta in Hk'. set (w1 := set_net _ w) in *.
  destruct (hook_capture _ _ _ _) as [v|e]; unfold append_cell; mrun;
    [|exact Hk'].
  by apply kept_set_cells.
Qed.

Lemma block_forward_kept w0 b p :
  hoare (kept w0) (block_forward b p) (fun _ => kept w0)
        (fun w => kept w0 w ∧ hooks w0 ≠ []).
Proof.
  intros w Hk. unfold block_forward. mrun.
  pose proof (kept_forward_write w0 w p
                (fun tr => bn1_forward tr (bn1_input p (net w) b)) Hk
                (fun tr => bn1_forward_keeps tr _) (bn1_forward_eval _))
    as Hk'.
  cbn beta in Hk'. set (w1 := set_net _ w) in *.
  assert (Hh : hooks w = hooks w0) by apply Hk.
  destruct (decide (hooks w0 = [])) as [Hnil|Hne].
  - rewrite Hh, Hnil. exact Hk'.
  - pose proof (hoare_for_each (fun w => kept w0 w ∧ hooks w0 ≠ [])
      (hooks_at p (hooks w)) (run_hook p (bn1_input p (net w) b))
      (fun w => kept w0 w ∧ hooks w0 ≠ [])) as Hloop.
    specialize (Hloop (fun h _ => hoare_conseq _ _ _ _ _ _ _
      (run_hook_kept w0 p _ h) (fun _ H => H)
      (fun _ _ H => conj H Hne) (fun _ H => conj H Hne)) w1 (conj Hk' Hne)).
    destruct (for_each _ _ w1) as [[u|e] w2]; [apply Hloop | exact Hloop].
Qed.


(** [model(X)] records one event, may write what [kept] allows, and
    raises only from a hook. *)
Lemma call_model_kept s b w0 :
  hoare (eq w0) (call_model s b)
        (fun _ => kept (log (forward_event s b w0) w0))
        (fun w => kept (log (forward_event s b w0) w0) w ∧ hooks w0 ≠ []).
Proof.
  intros w <-. unfold call_model. mrun. fold (forward_event s b w0).
  set (w1 := log _ w0).
  pose proof (hoare_for_each (kept w1) (positions (net w0))
    (block_forward b) (fun w => kept w1 w ∧ hooks w0 ≠ [])
    (fun p _ => block_forward_kept w1 b p) w1 (kept_refl w1)) as H.
  destruct (for_each _ _ w1) as [[u|e] w2]; exact H.
Qed.

Lemma call_model_run s b w :
  ∃ o w', call_model s b w = (o, w')
          ∧ kept (log (forward_event s b w) w) w'
          ∧ (hooks w = [] → o = Ok tt).
Proof.
  pose proof (call_model_kept s b w w eq_refl) as H.
  destruct (call_model s b w) as [[[]|e] w']; eexists _, _; split; eauto.
  split; [apply H|]. intros Hnil. by destruct H.
Qed.

(** ** Modes *)

Lemma blocks_change_mode m n :
  blocks (change_mode_net m n) = set_mode m <$> blocks n.
Proof. unfold blocks, change_mode_net; simpl. by rewrite !fmap_app. Qed.

Lemma omap_cons_eq {X Y} (g : X → option Y) x (l : list X) :
  omap g (x :: l) = match g x with
                    | Some y => y :: omap g l
                    | None => omap g l
                    end.
Proof. reflexivity. Qed.

Lemma modes_change_mode m n :
  modes (change_mode_net m n) = replicate (length (modes n)) m.
Proof.
  unfold modes. rewrite blocks_change_mode.
  induction (blocks n) as [|b l IH]; [done|].
  rewrite fmap_cons, !omap_cons_eq, IH. unfold cw_mode, set_mode.
  destruct (is_cw (bn1 b)) eqn:Hcw; simpl; by rewrite ?Hcw.
Qed.

Lemma modes_set_training b n : modes (set_training b n) = modes n.
Proof. done. Qed.

Lemma classification_change_mode m n :
  classification_state (change_mode_net m n) = classification_state n.
Proof.
  unfold classification_state, per_block, change_mode_net; simpl.
  assert (H : ∀ l : list Block, classification_block <$> (set_mode m <$> l)
                   = classification_block <$> l).
  { intros l. rewrite <- list_fmap_compose. apply list_fmap_ext.
    intros i b _. unfold set_mode, classification_block; simpl.
    by destruct (is_cw (bn1 b)) eqn:Hcw; simpl; rewrite ?Hcw. }
  by rewrite !H.
Qed.

Lemma classification_set_training b n :
  classification_state (set_training b n) = classification_state n.
Proof. done. Qed.

Ltac norm_net :=
  repeat (progress (rewrite ?classification_set_training,
                      ?classification_change_mode, ?modes_set_training,
                      ?modes_change_mode, ?length_replicate)).

Lemma Forall_replicate_eq {X} (x : X) k : Forall (eq x) (replicate k x).
Proof. induction k; constructor; auto. Qed.

(** What the calibration sub-pass does to the state. *)
Lemma calibrate_run cl w :
  ∃ o w', calibrate cl w = (o, w')
    ∧ classification_state (net w') = classification_state (net w)
    ∧ optimizer w' = optimizer w ∧ hooks w' = hooks w
    ∧ args w' = args w ∧ best_prec1 w' = best_prec1 w
    ∧ train_passes w' = train_passes w
    ∧ concept_passes w' = S (concept_passes w)
    ∧ grad_enabled w' = grad_enabled w
    ∧ length (modes (net w')) = length (modes (net w))
    ∧ (hooks w = [] → o = Ok tt ∧ cells w' = cells w)
    ∧ (o = Ok tt →
       training (net w') = true
       ∧ modes (net w') = replicate (length (modes (net w))) NORMAL
       ∧ trace w' = trace w
           ++ calibration_events (length (modes (net w)))
                                 (cl (concept_passes w))).
Proof.
  unfold calibrate, model_eval, change_mode, model_train, no_grad. mrun.
  match goal with |- context [match cl _ with _ => _ end ?x] =>
    set (w4 := x) end.
  assert (Hm4 : modes (net w4) = replicate (length (modes (net w))) CALIBRATE).
  { subst w4; simpl. by rewrite modes_change_mode. }
  assert (Hc4 : classification_state (net w4) = classification_state (net w)).
  { subst w4; simpl. by rewrite classification_change_mode. }
  destruct (cl (concept_passes w)) as [|X rest_] eqn:Hcl.
  - mrun. subst w4. mrun. eexists _, _. split; [reflexivity|]. wsimpl.
    norm_net. repeat split; try done.
    unfold calibration_events. by rewrite <- !app_assoc.
  - destruct (call_model_run InCalibrate X w4)
      as (o & w5 & -> & Hk & Hok).
    destruct Hk as (Ha&Hb&Ho&Hg&Hh&Hcp&Htp&Htr&Htrain&Hmd&Hcs&Hcells).
    assert (Hm5 : modes (net w5) = modes (net w4))
      by (apply modes_per_block, Hmd).
    unfold forward_event in *. subst w4. wsimpl.
    specialize (Hcs eq_refl). rewrite Hm4 in *.
    destruct o as [[]|e]; mrun; eexists _, _; (split; [reflexivity|]);
      wsimpl; norm_net; rewrite ?Hcs, ?Hc4, ?Hm5, ?length_replicate.
    + repeat split; try done.
      * by apply Hcells.
      * rewrite Htr. unfold calibration_events. by rewrite <- !app_assoc.
    + repeat split; try done; auto.
Qed.

(** ** The training loop *)

Lemma apply_param_keeps f r n :
  training (apply_param f r n) = training n
  ∧ per_block cw_mode (apply_param f r n) = per_block cw_mode n.
Proof.
  destruct r as [|p]; simpl; [done|].
  split; [apply set_bn1_fields|]. by apply per_block_set_bn1.
Qed.

Lemma fold_apply_param_keeps (g : ParamRef → Weights → Weights) rs n :
  training (foldl (fun acc r => apply_param (g r) r acc) n rs) = training n
  ∧ modes (foldl (fun acc r => apply_param (g r) r acc) n rs) = modes n.
Proof.
  revert n. induction rs as [|r rs IH]; intros n; simpl; [done|].
  destruct (IH (apply_param (g r) r n)) as [-> ->].
  destruct (apply_param_keeps (g r) r n) as [-> Hm].
  split; [done|]. by apply modes_per_block.
Qed.

(** One iteration of the loop of [train], when no hook is registered. *)
Lemma train_batch_run cl i b w :
  hooks w = [] → training (net w) = true →
  let k := length (modes (net w)) in
  let calibrating := (i + 1) `mod` 2 =? 0 in
  ∃ w', train_batch cl (i, b) w = (Ok tt, w')
    ∧ hooks w' = [] ∧ training (net w') = true
    ∧ grad_enabled w' = grad_enabled w
    ∧ train_passes w' = train_passes w ∧ args w' = args w
    ∧ best_prec1 w' = best_prec1 w ∧ cells w' = cells w
    ∧ concept_passes w'
      = (if calibrating then S (concept_passes w) else concept_passes w)
    ∧ modes (net w')
      = (if calibrating then replicate k NORMAL else modes (net w))
    ∧ trace w' = trace w
        ++ (if calibrating
            then calibration_events k (cl (concept_passes w))
                 ++ batch_events b true (replicate k NORMAL) (grad_enabled w)
            else batch_events b true (modes (net w)) (grad_enabled w)).
Proof.
  intros Hh Htrain k calibrating. unfold train_batch. simpl fst; simpl snd.
  fold calibrating. rewrite run_bind.
  assert (Hpre : ∃ w1,
    (if calibrating then calibrate cl else mret ()) w = (Ok tt, w1)
    ∧ hooks w1 = [] ∧ training (net w1) = true
    ∧ grad_enabled w1 = grad_enabled w
    ∧ train_passes w1 = train_passes w ∧ args w1 = args w
    ∧ best_prec1 w1 = best_prec1 w ∧ cells w1 = cells w
    ∧ concept_passes w1
      = (if calibrating then S (concept_passes w) else concept_passes w)
    ∧ modes (net w1)
      = (if calibrating then replicate k NORMAL else modes (net w))
    ∧ trace w1 = trace w
        ++ (if calibrating
            then calibration_events k (cl (concept_passes w)) else [])).
  { destruct calibrating.
    - destruct (calibrate_run cl w)
        as (o & w1 & -> & _ & _ & Hh1 & Ha & Hb & Htp & Hcp & Hg & _
            & Hok & Hres).
      destruct (Hok Hh) as [-> Hcells]. destruct (Hres eq_refl) as (?&?&?).
      exists w1. rewrite Hh1. repeat split; done.
    - exists w. rewrite app_nil_r. repeat split; done. }
  destruct Hpre as (w1 & -> & Hh1 & Htr1 & Hg1 & Htp1 & Ha1 & Hb1 & Hc1
                    & Hcp1 & Hm1 & Ht1).
  cbn beta iota. rewrite run_bind.
  destruct (call_model_run InTrain b w1) as (o & w2 & -> & Hk & Hok).
  rewrite (Hok Hh1). cbn beta iota.
  destruct Hk as (Ha2&Hb2&Ho2&Hg2&Hh2&Hcp2&Htp2&Ht2&Htr2&Hmd2&_&Hcells2).
  assert (Hm2 : modes (net w2) = modes (net w1))
    by (apply modes_per_block, Hmd2).
  unfold forward_event in *. wsimpl. unfold optimizer_step. mrun.
  eexists. split; [reflexivity|]. wsimpl.
  destruct (fold_apply_param_keeps
              (sgd_param (optimizer w2) (net w2) b)
              (params (optimizer w2)) (net w2)) as [Hft Hfm].
  rewrite Hft, Hfm, Hm2, Htr2, Htr1, Hg2, Hg1, Htp2, Htp1, Ha2, Ha1,
    Hb2, Hb1, Hcp2, Hcp1, Hh2, Hh1, Hm1, Ht2, Ht1, (Hcells2 Hh1), Hc1.
  repeat split; try done.
  rewrite ?Htr1, ?Hm1, ?Hg1. unfold batch_events.
  destruct calibrating; by rewrite <- ?app_assoc, ?app_nil_r.
Qed.

Lemma interleaving_cons k g cl cp ms i b more :
  interleaving k g cl cp ms ((i, b) :: more)
  = if (i + 1) `mod` 2 =? 0
    then calibration_events k (cl cp)
         ++ batch_events b true (replicate k NORMAL) g
         ++ interleaving k g cl (S cp) (replicate k NORMAL) more
    else batch_events b true ms g ++ interleaving k g cl cp ms more.
Proof. reflexivity. Qed.

Lemma train_loop_run cl ibs : ∀ w,
  hooks w = [] → training (net w) = true →
  ∃ w', for_each ibs (train_batch cl) w = (Ok tt, w')
    ∧ hooks w' = [] ∧ training (net w') = true
    ∧ grad_enabled w' = grad_enabled w
    ∧ train_passes w' = train_passes w ∧ args w' = args w
    ∧ best_prec1 w' = best_prec1 w ∧ cells w' = cells w
    ∧ (modes (net w') = modes (net w)
       ∨ modes (net w') = replicate (length (modes (net w))) NORMAL)
    ∧ trace w' = trace w
        ++ interleaving (length (modes (net w))) (grad_enabled w) cl
             (concept_passes w) (modes (net w)) ibs.
Proof.
  induction ibs as [|[i b] more IH]; intros w Hh Htr.
  - exists w. simpl. rewrite app_nil_r. repeat split; auto.
  - simpl for_each. rewrite run_bind.
    destruct (train_batch_run cl i b w Hh Htr)
      as (w1 & -> & Hh1 & Htr1 & Hg1 & Htp1 & Ha1 & Hb1 & Hc1 & Hcp1 & Hm1
          & Ht1).
    cbn beta iota.
    destruct (IH w1 Hh1 Htr1)
      as (w2 & -> & Hh2 & Htr2 & Hg2 & Htp2 & Ha2 & Hb2 & Hc2 & Hm2 & Ht2).
    exists w2. split; [done|].
    assert (Hlen : length (modes (net w1)) = length (modes (net w))).
    { rewrite Hm1. destruct (_ =? 0); [apply length_replicate | done]. }
    rewrite Hlen in *.
    rewrite Hg2, Hg1, Htp2, Htp1, Ha2, Ha1, Hb2, Hb1, Hc2, Hc1, Ht2, Ht1,
      Hcp1, Hg1.
    repeat split; try done.
    + destruct Hm2 as [-> | ->]; [|by right].
      rewrite Hm1. destruct (_ =? 0); [by right | by left].
    + rewrite interleaving_cons, Hm1.
      destruct (_ =? 0); by rewrite <- ?app_assoc.
Qed.

Lemma train_run tl cl w :
  hooks w = [] →
  ∃ w', train tl cl w = (Ok tt, w')
    ∧ hooks w' = [] ∧ training (net w') = true
    ∧ grad_enabled w' = grad_enabled w
    ∧ train_passes w' = S (train_passes w) ∧ args w' = args w
    ∧ best_prec1 w' = best_prec1 w ∧ cells w' = cells w
    ∧ (modes (net w') = modes (net w)
       ∨ modes (net w') = replicate (length (modes (net w))) NORMAL)
    ∧ trace w' = trace w
        ++ EModelTrain
           :: interleaving (length (modes (net w))) (grad_enabled w) cl
                (concept_passes w) (modes (net w))
                (enumerate_from 0 (tl (train_passes w))).
Proof.
  intros Hh. unfold train, model_train. mrun.
  match goal with |- context [for_each ?l _ ?x] =>
    destruct (train_loop_run cl l x) as (w' & -> & H) end; [done..|].
  wsimpl. rewrite modes_set_training in H. exists w'.
  rewrite <- app_assoc in H. simpl app in H. tauto.
Qed.

(** ** Where a batch sits in the interleaving *)

Lemma enumerate_from_lookup {X} (l : list X) : ∀ j i x,
  l !! i = Some x →
  enumerate_from j l !! i = Some (j + Z.of_nat i, x).
Proof.
  induction l as [|y l IH]; intros j [|i] x H; simpl in *; try done.
  - simplify_eq. do 2 f_equal. lia.
  - rewrite (IH (j + 1) i x H). do 2 f_equal. lia.
Qed.

Lemma div2_step_odd j : 0 ≤ j → (j + 1) `mod` 2 = 0 →
  (j + 1) `div` 2 = j `div` 2 + 1.
Proof. intros. Z.div_mod_to_equations. lia. Qed.

Lemma div2_step_even j : 0 ≤ j → (j + 1) `mod` 2 ≠ 0 →
  (j + 1) `div` 2 = j `div` 2.
Proof. intros. Z.div_mod_to_equations. lia. Qed.

Lemma div2_mono j i : 0 ≤ j → 0 ≤ i → j `div` 2 ≤ (j + i) `div` 2.
Proof. intros. apply Z.div_le_mono; lia. Qed.
Lemma interleaving_at k g cl (l : list Batch) : ∀ j cp ms i b,
  0 ≤ j → l !! i = Some b → (j + Z.of_nat i + 1) `mod` 2 = 0 →
  ∃ pre post,
    interleaving k g cl cp ms (enumerate_from j l)
    = pre
      ++ calibration_events k
           (cl (cp + Z.to_nat ((j + Z.of_nat i) `div` 2 - j `div` 2))%nat)
      ++ batch_events b true (replicate k NORMAL) g ++ post.
Proof.
  induction l as [|b0 l IH]; intros j cp ms [|i] b Hj Hl Hpar; try done.
   - simpl in Hl. simplify_eq. simpl enumerate_from.
    rewrite interleaving_cons.
    replace (j + Z.of_nat 0 + 1) with (j + 1) in Hpar by lia.
    apply Z.eqb_eq in Hpar as ->.
    exists [], (interleaving k g cl (S cp) (replicate k NORMAL)
                 (enumerate_from (j + 1) l)).
     replace (cp + Z.to_nat ((j + Z.of_nat 0) `div` 2 - j `div` 2))%nat with cp;
      [reflexivity|].
     replace (j + Z.of_nat 0) with j by lia. rewrite Z.sub_diag. simpl. lia.
  - simpl in Hl. simpl enumerate_from. rewrite interleaving_cons.
    assert (Hpar' : (j + 1 + Z.of_nat i + 1) `mod` 2 = 0).
    { replace (j + 1 + Z.of_nat i + 1) with (j + Z.of_nat (S i) + 1) by lia.
      exact Hpar. }
    assert (Hsum : j + 1 + Z.of_nat i = j + Z.of_nat (S i)) by lia.
    pose proof (div2_mono (j + 1) (Z.of_nat i) ltac:(lia) ltac:(lia)) as Hmono.
    rewrite Hsum in Hmono.       destruct ((j + 1) `mod` 2 =? 0) eqn:Hodd.
    + apply Z.eqb_eq in Hodd.
      destruct (IH (j + 1) (S cp) (replicate k NORMAL) i b ltac:(lia) Hl Hpar')
        as (pre & post & ->).         exists (calibration_events k (cl cp)
              ++ batch_events b0 true (replicate k NORMAL) g ++ pre), post.
      rewrite <- !app_assoc.
      rewrite Hsum. pose proof (div2_step_odd j Hj Hodd) as Hd.         replace (S cp + Z.to_nat ((j + Z.of_nat (S i)) `div` 2 - (j + 1) `div` 2))%nat
        with (cp + Z.to_nat ((j + Z.of_nat (S i)) `div` 2 - j `div` 2))%nat
        by (rewrite Hd; lia).
reflexivity.
    + apply Z.eqb_neq in Hodd.
      destruct (IH (j + 1) cp ms i b ltac:(lia) Hl Hpar')
        as (pre & post & ->).
      exists (batch_events b0 true ms g ++ pre), post.
      rewrite <- !app_assoc.
      rewrite Hsum. pose proof (div2_step_even j Hj Hodd) as Hd.
      rewrite Hd. reflexivity.
Qed.

(** ** Computations that only append harmless events *)

Lemma emits_ret {A} P (a : A) : emits P (mret a).
Proof. intros w. exists []. by rewrite app_nil_r. Qed.

Lemma emits_raise {A} P e : emits P (@raise A e).
Proof. intros w. exists []. by rewrite app_nil_r. Qed.

Lemma emits_get P : emits P get.
Proof. intros w. exists []. by rewrite app_nil_r. Qed.

Lemma emits_lift_opt {A} P e (o : option A) : emits P (lift_opt e o).
Proof. destruct o; [apply emits_ret | apply emits_raise]. Qed.

Lemma emits_lift {A} P (o : Outcome A) : emits P (lift o).
Proof. intros w. exists []. by rewrite app_nil_r. Qed.

Lemma emits_modify P f :
  (∀ w, trace (f w) = trace w) → emits P (modify f).
Proof. intros H w. exists []. simpl. by rewrite H, app_nil_r. Qed.

Lemma emits_emit (P : Event → Prop) e : P e → emits P (emit e).
Proof. intros H w. exists [e]. simpl. split; [done|]. by constructor. Qed.

Lemma emits_bind {A B} P (m : M A) (f : A → M B) :
  emits P m → (∀ a, emits P (f a)) → emits P (m ≫= f).
Proof.
  intros Hm Hf w. rewrite run_bind. destruct (Hm w) as (e1 & H1 & HP1).
  destruct (m w) as [[a|e] w1]; simpl in H1; [|by exists e1].
  destruct (Hf a w1) as (e2 & H2 & HP2). exists (e1 ++ e2).
  rewrite H2, H1, app_assoc. split; [done|]. by apply Forall_app.
Qed.

Lemma emits_for_each {A} P (xs : list A) body :
  (∀ x, emits P (body x)) → emits P (for_each xs body).
Proof.
  intros H. induction xs as [|x xs IH]; simpl; [apply emits_ret|].
  apply emits_bind; [apply H | by intros _].
Qed.

Lemma emits_no_grad {A} (P : Event → Prop) (body : M A) :
  (∀ b, P (ENoGrad b)) → emits P body → emits P (no_grad body).
Proof.
  intros HP H w. unfold no_grad.
  destruct (H (log (ENoGrad true) (set_grad false w))) as (evs & He & Hev).
  destruct (body _) as [r w']. simpl in *.
  exists (ENoGrad true :: evs ++ [ENoGrad false]).
  rewrite He, <- !app_assoc. split; [done|].
  constructor; [apply HP|]. apply Forall_app. split; [done|].
  constructor; [apply HP | constructor].
Qed.

Lemma emits_call_model (P : Event → Prop) s b :
  (∀ tr ms g, P (EForward s b tr ms g)) → emits P (call_model s b).
Proof.
  intros HP w. pose proof (call_model_kept s b w w eq_refl) as H.
  destruct (call_model s b w) as [[u|e] w']; simpl.
  - destruct H as (_&_&_&_&_&_&_&->&_). simpl. eexists [_].
    split; [done|]. constructor; [apply HP | constructor].
  - destruct H as [(_&_&_&_&_&_&_&->&_) _]. simpl. eexists [_].
    split; [done|]. constructor; [apply HP | constructor].
Qed.

Lemma emits_weaken {A} (P P' : Event → Prop) (m : M A) :
  (∀ e, P e → P' e) → emits P m → emits P' m.
Proof.
  intros H Hm w. destruct (Hm w) as (evs & He & HP). exists evs.
  split; [done|]. eapply Forall_impl; eauto.
Qed.

Ltac emits_step :=
  lazymatch goal with
  | |- emits _ (mbind _ _) => apply emits_bind; [|intros ?]
  | |- emits _ (mret _) => apply emits_ret
  | |- emits _ (raise _) => apply emits_raise
  | |- emits _ get => apply emits_get
  | |- emits _ (lift_opt _ _) => apply emits_lift_opt
  | |- emits _ (lift _) => apply emits_lift
  | |- emits _ (modify _) => apply emits_modify; intros ?; reflexivity
  | |- emits _ (emit _) => apply emits_emit
  | |- emits _ (for_each _ _) => apply emits_for_each; intros ?
  | |- emits _ (no_grad _) => apply emits_no_grad; [intros ? |]
  | |- emits _ (call_model _ _) => apply emits_call_model; intros ? ? ?
  | |- emits _ (match ?x with _ => _ end) => destruct x
  end.

(** ** Loops of forward passes *)

Lemma logs_fields evs w :
  args (logs evs w) = args w ∧ best_prec1 (logs evs w) = best_prec1 w
  ∧ net (logs evs w) = net w ∧ optimizer (logs evs w) = optimizer w
  ∧ grad_enabled (logs evs w) = grad_enabled w
  ∧ hooks (logs evs w) = hooks w ∧ cells (logs evs w) = cells w
  ∧ concept_passes (logs evs w) = concept_passes w
  ∧ train_passes (logs evs w) = train_passes w
  ∧ trace (logs evs w) = trace w ++ evs.
Proof.
  revert w. induction evs as [|e evs IH]; intros w; simpl.
  - by rewrite app_nil_r.
  - destruct (IH (log e w)) as (->&->&->&->&->&->&->&->&->&->). simpl.
    by rewrite <- app_assoc.
Qed.

Lemma kept_trans w0 w1 w2 : kept w0 w1 → kept w1 w2 → kept w0 w2.
Proof.
  intros (a1&b1&c1&d1&e1&f1&g1&h1&i1&j1&k1&l1)
         (a2&b2&c2&d2&e2&f2&g2&h2&i2&j2&k2&l2).
  unfold kept. rewrite a2, b2, c2, d2, e2, f2, g2, h2, i2, j2.
  repeat split; try done.
  - intros H. rewrite k2; [by apply k1 | by rewrite i1].
  - intros H. rewrite l2; [by apply l1 | by rewrite e1].
Qed.

Lemma kept_log e w0 w : kept w0 w → kept (log e w0) (log e w).
Proof.
  intros (a1&b1&c1&d1&e1&f1&g1&h1&i1&j1&k1&l1). unfold kept; simpl.
  rewrite h1. repeat split; done.
Qed.

Lemma kept_logs evs : ∀ w0 w, kept w0 w → kept (logs evs w0) (logs evs w).
Proof.
  induction evs as [|e evs IH]; intros w0 w Hk; [done|].
  simpl. apply IH. by apply kept_log.
Qed.

Lemma forward_loop_run s bs : ∀ w,
  ∃ o w', for_each bs (call_model s) w = (o, w')
    ∧ (hooks w = [] → o = Ok tt)
    ∧ (o = Ok tt →
       kept (logs ((fun b => forward_event s b w) <$> bs) w) w').
Proof.
  induction bs as [|b bs IH]; intros w.
  - exists (Ok tt), w. split; [done|]. split; [done|]. intros _.
    apply kept_refl.
  - simpl for_each. rewrite run_bind.
    destruct (call_model_run s b w) as (o & w1 & -> & Hk & Hok).
    destruct o as [[]|e]; cbn beta iota.
    + destruct (IH w1) as (o2 & w2 & -> & Hok2 & Hk2).
      exists o2, w2. split; [done|]. split.
      * intros Hnil. apply Hok2. destruct Hk as (_&_&_&_&->&_). done.
      * intros ->. specialize (Hk2 eq_refl). rewrite fmap_cons.
        change (logs (?e :: ?evs) ?x) with (logs evs (log e x)).
        assert (Hev : (fun b0 => forward_event s b0 w1) <$> bs
                      = (fun b0 => forward_event s b0 w) <$> bs).
        { apply list_fmap_ext. intros _ b0 _. unfold forward_event.
          destruct Hk as (_&_&_&->&_&_&_&_&->&Hm&_).
          by rewrite (modes_per_block _ _ Hm). }
        rewrite Hev in Hk2.
        eapply kept_trans; [apply kept_logs, Hk | exact Hk2].
    + exists (Raise e), w1. split; [done|]. split; [|done].
      intros Hnil. by specialize (Hok Hnil).
Qed.

Lemma validate_run vl w :
  hooks w = [] →
  ∃ q w', validate vl w = (Ok q, w')
    ∧ hooks w' = [] ∧ args w' = args w ∧ best_prec1 w' = best_prec1 w
    ∧ optimizer w' = optimizer w ∧ grad_enabled w' = grad_enabled w
    ∧ cells w' = cells w ∧ concept_passes w' = concept_passes w
    ∧ train_passes w' = train_passes w ∧ modes (net w') = modes (net w)
    ∧ trace w' = trace w ++ validation_events (modes (net w)) vl.
Proof.
  intros Hh. unfold validate, model_eval, no_grad. mrun.
  match goal with |- context [for_each vl _ ?x] =>
    destruct (forward_loop_run InValidate vl x) as (o & w1 & -> & Hok & Hk)
  end.
  wsimpl. rewrite (Hok Hh) in *. specialize (Hk eq_refl). mrun.
  eexists _, _. split; [reflexivity|]. wsimpl.
  destruct Hk as (a1&b1&c1&d1&e1&f1&g1&h1&i1&j1&k1&l1).
  match type of a1 with context [logs ?evs ?x] =>
    destruct (logs_fields evs x) as (la&lb&lc&ld&le&lf&lg&lh&li&lj) end.
  rewrite la in a1. rewrite lb in b1. rewrite ld in c1. rewrite lf in e1.
  rewrite lh in f1. rewrite li in g1. rewrite lj in h1.
  rewrite lc in j1. rewrite lf, lg in l1. wsimpl.
  rewrite a1, b1, c1, e1, f1, g1, h1, (modes_per_block _ _ j1), (l1 Hh).
  repeat split; try done.
  unfold validation_events, forward_event. simpl.
  by rewrite <- !app_assoc.
Qed.

(** ** The events of an epoch *)

Lemma milestones_app a b : milestones (a ++ b) = milestones a ++ milestones b.
Proof. apply omap_app. Qed.

Lemma calibration_events_quiet k bs : Forall quiet (calibration_events k bs).
Proof.
  unfold calibration_events. destruct bs; simpl;
    repeat apply Forall_cons_2; try apply Forall_nil_2;
    (split; [done|]); simpl; auto.
  by intros [|].
Qed.

Lemma batch_events_quiet b tr ms g :
  Forall (eq NORMAL) ms → Forall quiet (batch_events b tr ms g).
Proof.
  intros H. unfold batch_events.
  repeat apply Forall_cons_2; [..|apply Forall_nil_2];
    (split; [done|]); simpl; auto.
Qed.

Lemma batch_events_no_milestone b tr ms g :
  milestones (batch_events b tr ms g) = [].
Proof. done. Qed.

Lemma quiet_no_milestone evs : Forall quiet evs → milestones evs = [].
Proof.
  induction 1 as [|e evs [He _] _ IH]; [done|].
  unfold milestones in *. rewrite omap_cons_eq, He. exact IH.
Qed.

Lemma quiet_ok evs : Forall quiet evs → Forall event_ok evs.
Proof. intros H. eapply Forall_impl; [exact H|]. by intros e [_ He]. Qed.

Lemma interleaving_no_milestone k g cl ibs : ∀ cp ms,
  milestones (interleaving k g cl cp ms ibs) = [].
Proof.
  induction ibs as [|[i b] more IH]; intros cp ms; [done|].
  rewrite interleaving_cons. destruct (_ =? 0);
    rewrite !milestones_app, IH, batch_events_no_milestone,
      ?(quiet_no_milestone _ (calibration_events_quiet _ _)); done.
Qed.

Lemma interleaving_ok k g cl ibs : ∀ cp ms,
  Forall (eq NORMAL) ms → Forall event_ok (interleaving k g cl cp ms ibs).
Proof.
  induction ibs as [|[i b] more IH]; intros cp ms Hms; [constructor|].
  rewrite interleaving_cons. destruct (_ =? 0); rewrite !Forall_app.
  - split; [apply quiet_ok, calibration_events_quiet|].
    split; [apply quiet_ok, batch_events_quiet, Forall_replicate_eq|].
    apply IH, Forall_replicate_eq.
  - split; [by apply quiet_ok, batch_events_quiet | by apply IH].
Qed.

Lemma validation_events_no_milestone ms vl :
  milestones (validation_events ms vl) = [].
Proof.
  unfold validation_events. rewrite !milestones_app. simpl.
  rewrite app_nil_r. induction vl as [|b vl IH]; [done|]. exact IH.
Qed.

Lemma validation_events_ok ms vl :
  Forall (eq NORMAL) ms → Forall event_ok (validation_events ms vl).
Proof.
  intros H. unfold validation_events. rewrite !Forall_app.
  repeat split; try by repeat constructor.
  apply Forall_fmap, Forall_forall. intros b _. by intros _.
Qed.

Lemma and_reorder (A B C : Prop) : B ∧ A ∧ C → A ∧ B ∧ C.
Proof. tauto. Qed.

Lemma run_epoch_run tl cl vl epoch w :
  hooks w = [] →
  ∃ w' evs, run_epoch tl cl vl epoch w = (Ok tt, w')
    ∧ hooks w' = [] ∧ args w' = args w ∧ cells w' = cells w
    ∧ (Forall (eq NORMAL) (modes (net w)) →
       Forall (eq NORMAL) (modes (net w')) ∧ Forall event_ok evs)
    ∧ trace w' = trace w ++ evs
    ∧ milestones evs = epoch_milestones epoch.
Proof.
  intros Hh. unfold run_epoch, adjust_learning_rate. mrun.
  match goal with |- context [train tl cl ?x] =>
    destruct (train_run tl cl x Hh)
      as (w1 & -> & Hh1 & Htr1 & Hg1 & Htp1 & Ha1 & Hb1 & Hc1 & Hm1 & Ht1)
  end.
  wsimpl. mrun.
  destruct (validate_run vl w1 Hh1)
    as (q & w2 & -> & Hh2 & Ha2 & Hb2 & Ho2 & Hg2 & Hc2 & Hcp2 & Htp2 & Hm2
        & Ht2).
  unfold save_checkpoint. mrun.
  set (ck := checkpoint_of epoch _).
  set (file := ("./checkpoints/" +:+ _)%string).
  assert (Hck : ck !! "epoch" = Some (VInt (epoch + 1)))
    by apply lookup_insert_eq.
  assert (Hnorm : Forall (eq NORMAL) (modes (net w)) →
                  Forall (eq NORMAL) (modes (net w2))).
  { intros H. rewrite Hm2. destruct Hm1 as [-> | ->];
      [done | apply Forall_replicate_eq]. }
  assert (Hev : ∀ tail, Forall (eq NORMAL) (modes (net w)) →
    Forall event_ok tail →
    Forall event_ok
      ([EAdjustLR epoch]
       ++ (EModelTrain
           :: interleaving (length (modes (net w))) (grad_enabled w) cl
                (concept_passes w) (modes (net w))
                (enumerate_from 0 (tl (train_passes w))))
       ++ validation_events (modes (net w1)) vl ++ tail)).
  { intros tail H Htail. apply Forall_cons_2; [done|].
    apply Forall_cons_2; [done|].
    apply Forall_app. split; [by apply interleaving_ok|].
    apply Forall_app. split; [|done].
    apply validation_events_ok. destruct Hm1 as [-> | ->];
      [done | apply Forall_replicate_eq]. }
  assert (Hmil : ∀ tail,
    milestones
      ([EAdjustLR epoch]
       ++ (EModelTrain
           :: interleaving (length (modes (net w))) (grad_enabled w) cl
                (concept_passes w) (modes (net w))
                (enumerate_from 0 (tl (train_passes w))))
       ++ validation_events (modes (net w1)) vl
       ++ [EValidated epoch] ++ [ESave file ck] ++ tail)
    = MAdjust epoch :: MValidated epoch :: MSaved (Some (VInt (epoch + 1)))
      :: milestones tail).
  { intros tail. rewrite !milestones_app.
    change (milestones (EModelTrain :: ?l)) with (milestones l).
    rewrite interleaving_no_milestone, validation_events_no_milestone.
    simpl. by rewrite Hck. }
  destruct (Py.gt q (best_prec1 w2)); mrun;
    eexists _, _; (split; [reflexivity|]); wsimpl;
    rewrite Hh2, Ha2, Ha1, Hc2, Hc1, Ht2, Ht1, <- !app_assoc;
    (split; [done|]); (split; [done|]); (split; [done|]);
    apply and_reorder; (split; [reflexivity|]); split.
  - intros H. split; [by apply Hnorm|]. apply Hev; [done|].
    by repeat constructor.
  - by rewrite Hmil.
  - intros H. split; [by apply Hnorm|]. apply Hev; [done|].
    by repeat constructor.
  - rewrite <- (app_nil_r [ESave file ck]). by rewrite Hmil.
Qed.

Lemma epochs_run tl cl vl es : ∀ w,
  hooks w = [] →
  ∃ w' evs, for_each es (run_epoch tl cl vl) w = (Ok tt, w')
    ∧ hooks w' = [] ∧ args w' = args w ∧ cells w' = cells w
    ∧ (Forall (eq NORMAL) (modes (net w)) →
       Forall (eq NORMAL) (modes (net w')) ∧ Forall event_ok evs)
    ∧ trace w' = trace w ++ evs
    ∧ milestones evs = concat (epoch_milestones <$> es).
Proof.
  induction es as [|e es IH]; intros w Hh.
  - exists w, []. rewrite app_nil_r. repeat split; auto.
  - simpl for_each. rewrite run_bind.
    destruct (run_epoch_run tl cl vl e w Hh)
      as (w1 & ev1 & -> & Hh1 & Ha1 & Hc1 & Hn1 & Ht1 & Hm1).
    cbn beta iota.
    destruct (IH w1 Hh1) as (w2 & ev2 & -> & Hh2 & Ha2 & Hc2 & Hn2 & Ht2 & Hm2).
    exists w2, (ev1 ++ ev2).
    rewrite Ha2, Ha1, Hc2, Hc1, Ht2, Ht1, milestones_app, Hm1, Hm2, app_assoc.
    split; [done|]. split; [done|]. split; [done|]. split; [done|].
    split; [|done]. intros Hn. split; [apply Hn2, Hn1, Hn|].
    apply Forall_app. split; [apply Hn1, Hn | apply Hn2, Hn1, Hn].
Qed.

Lemma training_loop_run tl cl vl w :
  hooks w = [] →
  ∃ w' evs, training_loop tl cl vl w = (Ok tt, w')
    ∧ hooks w' = [] ∧ args w' = args w ∧ cells w' = cells w
    ∧ (Forall (eq NORMAL) (modes (net w)) →
       Forall (eq NORMAL) (modes (net w')) ∧ Forall event_ok evs)
    ∧ trace w' = trace w ++ evs
    ∧ milestones evs
      = concat (epoch_milestones
                  <$> Py.range (start_epoch (args w))
                               (start_epoch (args w) + 5)).
Proof. intros Hh. unfold training_loop. mrun. by apply epochs_run. Qed.


(** ** The export only appends harmless events *)

Lemma quiet_forward_top5 b tr ms g : quiet (EForward InTop5 b tr ms g).
Proof. split; [done|]. by intros [|]. Qed.

Lemma emits_locate P n wl : emits P (locate n wl).
Proof. unfold locate. repeat emits_step. Qed.

Lemma emits_register_hooks P h ls : emits P (register_hooks h ls).
Proof.
  unfold register_hooks. repeat emits_step. apply emits_locate.
Qed.

Lemma emits_collect c k batches : ∀ paths vals,
  emits quiet (collect c k batches paths vals).
Proof.
  induction batches as [|[i [input path]] more IH]; intros paths vals;
    simpl; [apply emits_ret|].
  unfold read_cell. repeat emits_step; try apply quiet_forward_top5;
    try apply IH.
Qed.

Lemma emits_export_layer folder suffix vals paths il :
  emits quiet (export_layer folder suffix vals paths il).
Proof. unfold export_layer. repeat emits_step. by split. Qed.

Lemma print_concept_top5_events vl2 wl po w :
  ∃ evs, trace (print_concept_top5 vl2 wl po w).2
         = trace w ++ ETop5Begin :: evs
         ∧ Forall quiet evs.
Proof.
  unfold print_concept_top5. rewrite run_bind, run_emit. cbn beta iota.
  match goal with |- context [(?m (log ETop5Begin w)).2] =>
    assert (He : emits quiet m) end.
  { unfold model_eval, new_cell. repeat emits_step; try by split.
    - apply emits_register_hooks.
    - apply emits_collect.
    - apply emits_export_layer. }
  destruct (He (log ETop5Begin w)) as (evs & -> & Hq). simpl.
  exists evs. by rewrite <- app_assoc.
Qed.

(** ** Construction and resume *)

Lemma modes_new_blocks (xs : list (bool * NormState * Weights)) :
  Forall (eq NORMAL) (omap cw_mode (new_block <$> xs)).
Proof.
  induction xs as [|x xs IH]; [constructor|].
  rewrite fmap_cons, omap_cons_eq. unfold cw_mode at 1, new_block at 1.
  simpl. destruct (x.1.1); [by constructor | done].
Qed.

Lemma modes_ResidualNet bp : Forall (eq NORMAL) (modes (ResidualNet bp)).
Proof.
  unfold modes, blocks, ResidualNet; simpl. rewrite !omap_app, !Forall_app.
  repeat split; apply modes_new_blocks.
Qed.

Lemma modes_load_blocks (xs : list (NormState * Weights)) : ∀ bs,
  length xs = length bs →
  omap cw_mode (zip_with load_block xs bs) = omap cw_mode bs.
Proof.
  induction xs as [|x xs IH]; intros [|b bs] Hlen; simpl in Hlen; try done.
  simpl zip_with. rewrite !omap_cons_eq, IH by lia. done.
Qed.

Lemma modes_load_state_dict sd n n' :
  load_state_dict sd n = Some n' → modes n' = modes n.
Proof.
  unfold load_state_dict.
  destruct (sd.1.1) as [|s1 [|s2 [|s3 [|s4 [|]]]]]; try done.
  destruct (decide _) as [(H1&H2&H3&H4)|]; [|done]. intros [= <-].
  unfold modes, blocks; simpl.
  by rewrite !omap_app, !modes_load_blocks.
Qed.

Lemma pure_locate n wl : pure_m (locate n wl).
Proof.
  unfold locate. destruct (select _ _) as [[s i]|]; [|apply pure_ret].
  apply pure_bind; [apply pure_lift_opt | intros ?; apply pure_ret].
Qed.

Lemma pure_whitened_params n wls : pure_m (whitened_params n wls).
Proof.
  induction wls as [|wl wls IH]; simpl; [apply pure_ret|].
  apply pure_bind; [apply pure_locate | intros ?].
  apply pure_bind; [apply IH | intros ?; apply pure_ret].
Qed.

Lemma pure_get_param_list n wls : pure_m (get_param_list n wls).
Proof.
  unfold get_param_list.
  apply pure_bind; [apply pure_whitened_params | intros ?; apply pure_ret].
Qed.


Lemma resume_from_ready disk :
  hoare training_ready (resume_from disk) (fun _ => training_ready)
        (fun _ => True).
Proof.
  intros w [Hh Hm]. unfold resume_from, item. mrun.
  destruct (decide _); mrun; [done|].
  destruct (disk !! _) as [ck|]; mrun; [|done].
  destruct (ck !! "epoch") as [[]|]; mrun; try done.
  destruct (ck !! "best_prec1") as [[]|]; mrun; try done.
  all: destruct (ck !! "state_dict") as [[]|]; mrun; try done.
  all: destruct (load_state_dict _ _) as [n'|] eqn:Hl; mrun; try done.
  all: apply modes_load_state_dict in Hl.
  all: destruct (ck !! "optimizer") as [[]|]; mrun; try done.
  all: split; simpl; [done | by rewrite Hl].
Qed.

Lemma setup_ready bp bufs0 disk :
  hoare (fun w => hooks w = []) (setup bp bufs0 disk)
        (fun _ => training_ready) (fun _ => True).
Proof.
  intros w Hh. unfold setup, parse_layers. mrun.
  set (o := mapM Py.int _).
  assert (Hres : ∀ wls (w1 : World), training_ready w1 →
    match
      (w0 ← get;
       param_list ← get_param_list (net w0) wls;
       modify (set_optimizer (fun _ =>
         mkOptimizer param_list (lr (args w)) bufs0));;
       resume_from disk) w1
    with
    | (Ok _, w') => training_ready w'
    | (Raise _, _) => True
    end).
  { intros wls w1 Hr. mrun.
    destruct (get_param_list (net w1) wls w1) as [[ps|e] w2] eqn:Hp;
      apply (pure_run _ _ _ _ (pure_get_param_list _ _)) in Hp; subst w2;
      mrun; [|done].
    apply (resume_from_ready disk). exact Hr. }
  destruct (decide (arch (args w) = "resnet")); mrun.
  - destruct o as [wls|]; mrun; [|done].
    refine (Hres wls _ _). split; [done | apply modes_ResidualNet].
  - destruct (decide (arch (args w) = "resnet_transfer")); mrun; [|done].
    destruct o as [wls|]; mrun; [|done].
    refine (Hres wls _ _). split; [done | apply modes_ResidualNet].
Qed.

Lemma emits_whitened_params P n wls : emits P (whitened_params n wls).
Proof.
  induction wls as [|wl wls IH]; simpl; repeat emits_step; try done.
  apply emits_locate.
Qed.

Lemma emits_resume_from disk : emits quiet (resume_from disk).
Proof.
  unfold resume_from, item. repeat emits_step; by split.
Qed.

Lemma emits_setup bp bufs0 disk : emits quiet (setup bp bufs0 disk).
Proof.
  unfold setup, parse_layers, get_param_list. repeat emits_step.
  - apply emits_whitened_params.
  - apply emits_resume_from.
Qed.

(** ** [main] as a whole *)

Lemma main_decompose bp bufs0 disk tl cl vl vl2 w0 :
  hooks w0 = [] →
  (∃ e w1, setup bp bufs0 disk w0 = (Raise e, w1)
     ∧ main bp bufs0 disk tl cl vl vl2 w0 = (Raise e, w1))
  ∨ (∃ w1 evs2 evs3,
       setup bp bufs0 disk w0 = (Ok tt, w1) ∧ training_ready w1
       ∧ trace (main bp bufs0 disk tl cl vl vl2 w0).2
         = trace w1 ++ evs2 ++ ETop5Begin :: evs3
       ∧ Forall event_ok evs2
       ∧ milestones evs2
         = concat (epoch_milestones
                     <$> Py.range (start_epoch (args w1))
                                  (start_epoch (args w1) + 5))
       ∧ Forall quiet evs3).
Proof.
  intros Hh. unfold main. rewrite run_bind.
  pose proof (setup_ready bp bufs0 disk w0 Hh) as Hs.
  destruct (setup bp bufs0 disk w0) as [[[]|e] w1]; [right | left; eauto].
  destruct Hs as [Hh1 Hm1]. rewrite run_bind.
  destruct (training_loop_run tl cl vl w1 Hh1)
    as (w2 & evs2 & -> & Hh2 & Ha2 & Hc2 & Hn2 & Ht2 & Hmil2).
  destruct (Hn2 Hm1) as [Hm2 Hok2]. cbn beta iota.
  rewrite run_bind, run_get. cbn beta iota. rewrite run_bind.
  destruct (print_concept_top5_events vl2 (whitened_layers (args w2)) false w2)
    as (evs3 & Ht3 & Hq3).
  exists w1, evs2, evs3. split; [done|]. split; [done|].
  split; [|done].
  destruct (print_concept_top5 _ _ _ w2) as [[z|e] w3]; simpl in *;
    rewrite Ht3, Ht2; by rewrite <- app_assoc.
Qed.

Lemma load_blocks_state (xs : list (NormState * Weights)) : ∀ bs,
  length xs = length bs →
  (fun b => (nstate (bn1 b), rest b)) <$> zip_with load_block xs bs = xs.
Proof.
  induction xs as [|[st r] xs IH]; intros [|b bs] Hlen; simpl in Hlen;
    try done.
  simpl zip_with. rewrite fmap_cons, IH by lia. done.
Qed.

(** Loading a state and reading it back gives the state that was
    loaded. *)
Lemma state_dict_load sd n n' :
  load_state_dict sd n = Some n' → state_dict n' = sd.
Proof.
  unfold load_state_dict. destruct sd as [[l f] s]. simpl.
  destruct l as [|s1 [|s2 [|s3 [|s4 [|]]]]]; try done.
  destruct (decide _) as [(H1&H2&H3&H4)|]; [|done]. intros [= <-].
  unfold state_dict; simpl. by rewrite !load_blocks_state.
Qed.





(** ** Hooks and their cells *)

Lemma alter_same {X} (g : X → X) i (l : list X) :
  Forall (fun x => g x = x) l → alter g i l = l.
Proof.
  intros H. revert i. induction H as [|x l Hx _ IH]; intros [|i]; csimpl;
    try done.
  - by rewrite Hx.
  - f_equal. apply IH.
Qed.

Lemma set_stage_same (n : Net) s : set_stage n s (stage n s) = n.
Proof. by destruct n, s as [|[|[|[|[|s]]]]]. Qed.

Lemma set_bn1_same n p f : (∀ m, f m = m) → set_bn1 n p f = n.
Proof.
  intros H. unfold set_bn1. rewrite alter_same; [apply set_stage_same|].
  apply Forall_forall. intros b _. rewrite H. by destruct b.
Qed.

Lemma hook_stats_eval_same x m : hook_stats false x m = m.
Proof. by destruct m as [cw md [wt rn rt]]. Qed.

Lemma set_net_same (w : World) : set_net (fun n => n) w = w.
Proof. by destruct w. Qed.

Lemma grown_refl cs : grown cs cs.
Proof.
  split; [done|]. intros c l H. exists []. by rewrite app_nil_r.
Qed.

Lemma grown_append cs0 cs c v :
  grown cs0 cs → grown cs0 (alter (fun l => l ++ [v]) c cs).
Proof.
  intros [Hlen H]. split; [by rewrite length_alter|].
  intros c' l Hl. destruct (H c' l Hl) as (l' & Hl').
  destruct (decide (c = c')) as [->|Hne].
  - exists (l' ++ [v]). rewrite list_lookup_alter_eq, Hl'. simpl.
    by rewrite app_assoc.
  - exists l'. by rewrite list_lookup_alter_ne.
Qed.

Lemma run_hook_grown cs0 p x h :
  hoare (fun w => grown cs0 (cells w)) (run_hook p x h)
        (fun _ w => grown cs0 (cells w)) (fun w => grown cs0 (cells w)).
Proof.
  intros w Hg. unfold run_hook. mrun.
  destruct (bn1_at (net w) p) as [m|]; mrun; [|done].
  destruct (hook_capture _ _ _ _) as [v|e]; unfold append_cell; mrun;
    [|done].
  by apply grown_append.
Qed.

Lemma for_each_grown {A} cs0 (xs : list A) body :
  (∀ x, hoare (fun w => grown cs0 (cells w)) (body x)
              (fun _ w => grown cs0 (cells w))
              (fun w => grown cs0 (cells w))) →
  ∀ w, grown cs0 (cells w) → grown cs0 (cells (for_each xs body w).2).
Proof.
  intros H w Hw.
  pose proof (hoare_for_each (fun w => grown cs0 (cells w)) xs body
                (fun w => grown cs0 (cells w)) (fun x _ => H x) w Hw) as Hl.
  by destruct (for_each xs body w) as [[u|e] w'].
Qed.

Lemma block_forward_grown cs0 b p :
  hoare (fun w => grown cs0 (cells w)) (block_forward b p)
        (fun _ w => grown cs0 (cells w)) (fun w => grown cs0 (cells w)).
Proof.
  intros w Hg. unfold block_forward. mrun.
  match goal with |- context [for_each ?l ?f ?x] =>
    pose proof (for_each_grown cs0 l f (run_hook_grown cs0 p _) x Hg) as H;
    destruct (for_each l f x) as [[u|e] w'] end; exact H.
Qed.

Lemma call_model_grown cs0 s b :
  hoare (fun w => grown cs0 (cells w)) (call_model s b)
        (fun _ w => grown cs0 (cells w)) (fun w => grown cs0 (cells w)).
Proof.
  intros w Hg. unfold call_model. mrun.
  match goal with |- context [for_each ?l ?f ?x] =>
    pose proof (for_each_grown cs0 l f (block_forward_grown cs0 b) x Hg) as H;
    destruct (for_each l f x) as [[u|e] w'] end; exact H.
Qed.

(** ** The forward pass of a model at rest *)

Lemma bn1_forward_at_rest x m :
  is_cw m && (mode m =? CALIBRATE) = false → bn1_forward false x m = m.
Proof.
  intros H. unfold bn1_forward, iterative_normalization. rewrite H.
  by destruct m as [cw md [wt rn rt]].
Qed.

Lemma set_bn1_same_on n p f :
  Forall (fun b => f (bn1 b) = bn1 b) (stage n p.1) → set_bn1 n p f = n.
Proof.
  intros H. unfold set_bn1. rewrite alter_same; [apply set_stage_same|].
  eapply Forall_impl; [exact H|]. intros b Hb. simpl in Hb. rewrite Hb.
  by destruct b.
Qed.

Lemma Forall_stage (P : Block → Prop) n s :
  Forall P (blocks n) → Forall P (stage n s).
Proof.
  unfold blocks. rewrite !Forall_app. intros (H1&H2&H3&H4).
  by destruct s as [|[|[|[|[|s]]]]]; simpl.
Qed.

Lemma set_net_id f (w : World) : f (net w) = net w → set_net f w = w.
Proof. intros H. destruct w; unfold set_net; simpl in *. by rewrite H. Qed.

Lemma with_cells_same (w : World) : with_cells (cells w) w = w.
Proof. by destruct w. Qed.

Lemma with_cells_twice cs cs' (w : World) :
  with_cells cs (with_cells cs' w) = with_cells cs w.
Proof. by destruct w. Qed.

Lemma run_hook_quiet p x h w :
  training (net w) = false →
  run_hook p x h w
  = match fire_hooks (net w) p x [h] (cells w) with
    | (o, cs) => (o, with_cells cs w)
    end.
Proof.
  intros Htr. unfold run_hook. mrun. simpl fire_hooks.
  destruct (bn1_at (net w) p) as [m|]; mrun; [|by rewrite with_cells_same].
  rewrite set_net_id.
  2:{ rewrite Htr. apply set_bn1_same, hook_stats_eval_same. }
  rewrite Htr.
  destruct (hook_capture false m x h) as [v|e]; unfold append_cell; mrun;
    [done | by rewrite with_cells_same].
Qed.

Lemma hooks_run_quiet p x hs : ∀ w,
  training (net w) = false →
  for_each hs (run_hook p x) w
  = match fire_hooks (net w) p x hs (cells w) with
    | (o, cs) => (o, with_cells cs w)
    end.
Proof.
  induction hs as [|h hs IH]; intros w Htr.
  - simpl. by rewrite with_cells_same.
  - simpl for_each. rewrite run_bind, run_hook_quiet by done.
    simpl fire_hooks. destruct (bn1_at (net w) p) as [m|]; [|done].
    destruct (hook_capture false m x h) as [v|e]; [|done].
    cbn beta iota. rewrite IH by done. simpl.
    destruct (fire_hooks _ _ _ _ _) as [o cs].
    by rewrite with_cells_twice.
Qed.

Lemma block_forward_quiet b p w :
  quiescent (net w) →
  block_forward b p w
  = match fire_hooks (net w) p (bn1_input p (net w) b)
            (hooks_at p (hooks w)) (cells w) with
    | (o, cs) => (o, with_cells cs w)
    end.
Proof.
  intros [Htr Hrest]. unfold block_forward. mrun.
  rewrite set_net_id.
  2:{ rewrite Htr. apply set_bn1_same_on.
      eapply Forall_impl; [apply (Forall_stage _ _ _ Hrest)|].
      intros blk Hb. by apply bn1_forward_at_rest. }
  by apply hooks_run_quiet.
Qed.

Lemma blocks_forward_quiet b ps : ∀ w,
  quiescent (net w) →
  for_each ps (block_forward b) w
  = match fire (net w) b (hooks w) ps (cells w) with
    | (o, cs) => (o, with_cells cs w)
    end.
Proof.
  induction ps as [|p ps IH]; intros w Hq.
  - simpl. by rewrite with_cells_same.
  - simpl for_each. rewrite run_bind, block_forward_quiet by done.
    simpl fire. destruct (fire_hooks _ _ _ _ _) as [[[]|e] cs]; [|done].
    cbn beta iota. rewrite IH by done. simpl.
    destruct (fire _ _ _ _ _) as [o cs']. by rewrite with_cells_twice.
Qed.

Lemma call_model_quiet s b w :
  quiescent (net w) →
  call_model s b w
  = match fire (net w) b (hooks w) (positions (net w)) (cells w) with
    | (o, cs) => (o, with_cells cs (log (forward_event s b w) w))
    end.
Proof.
  intros Hq. unfold call_model. mrun. fold (forward_event s b w).
  by rewrite blocks_forward_quiet.
Qed.

(** ** The cells after a forward pass *)

Lemma hook_capture_top5 m x c :
  hook_capture false m x (Top5Hook c) = hook_capture false m x (Top5Hook 0).
Proof. reflexivity. Qed.

Lemma appends_lookup (v : Captured) (hs : list Hook) : ∀ cs c,
  length (foldl (fun cs h => alter (fun l => l ++ [v]) (cell_of h) cs) cs hs)
  = length cs
  ∧ foldl (fun cs h => alter (fun l => l ++ [v]) (cell_of h) cs) cs hs !! c
    = (fun l => l ++ replicate
                 (length (filter (fun h => cell_of h = c) hs)) v)
      <$> cs !! c.
Proof.
  induction hs as [|h hs IH]; intros cs c; simpl.
  - split; [done|]. destruct (cs !! c); simpl; [|done].
    by rewrite app_nil_r.
  - destruct (IH (alter (fun l => l ++ [v]) (cell_of h) cs) c) as [-> ->].
    rewrite length_alter. split; [done|].
    rewrite filter_cons. destruct (decide (cell_of h = c)) as [->|Hne].
    + rewrite list_lookup_alter_eq. destruct (cs !! c); simpl; [|done].
      by rewrite <- app_assoc.
    + by rewrite list_lookup_alter_ne.
Qed.

Lemma fire_hooks_cons n p x h hs cs :
  fire_hooks n p x (h :: hs) cs
  = match bn1_at n p with
    | None => (Raise IndexError, cs)
    | Some m =>
        match hook_capture false m x h with
        | Ok v =>
            fire_hooks n p x hs (alter (fun l => l ++ [v]) (cell_of h) cs)
        | Raise e => (Raise e, cs)
        end
    end.
Proof. reflexivity. Qed.

Lemma fire_hooks_top5 n p x hs : ∀ cs,
  Forall is_top5 hs →
  fire_hooks n p x hs cs
  = match hs with
    | [] => (Ok tt, cs)
    | _ :: _ =>
        match cap_x n p x with
        | Ok v =>
            (Ok tt,
             foldl (fun cs h => alter (fun l => l ++ [v]) (cell_of h) cs)
                   cs hs)
        | Raise e => (Raise e, cs)
        end
    end.
Proof.
  induction hs as [|h hs IH]; intros cs Hall; [done|].
  apply Forall_cons in Hall as [Hh Hall]. rewrite fire_hooks_cons.
  unfold cap_x in *. destruct (bn1_at n p) as [m|]; [|done].
  destruct h as [c|c]; [done|]. rewrite hook_capture_top5.
  destruct (hook_capture false m x (Top5Hook 0)) as [v|e] eqn:Hc; [|done].
  rewrite IH by done. by destruct hs as [|h' hs].
Qed.

Lemma hooks_at_app p h1 h2 :
  hooks_at p (h1 ++ h2) = hooks_at p h1 ++ hooks_at p h2.
Proof. unfold hooks_at. by rewrite filter_app, fmap_app. Qed.

Lemma hooks_at_tag p c ps :
  hooks_at p (tag c ps) = replicate (times p ps) (Top5Hook c).
Proof.
  induction ps as [|q ps IH]; [done|].
  unfold hooks_at, tag, times in *. rewrite fmap_cons, !filter_cons.
  cbn [fst]. destruct (decide (q = p)); [rewrite fmap_cons|];
    simpl; by rewrite IH.
Qed.

Lemma times_zero p ps : times p ps = 0%nat ↔ p ∉ ps.
Proof.
  unfold times. induction ps as [|q ps IH].
  - split; [intros _; apply not_elem_of_nil | done].
  - rewrite filter_cons, not_elem_of_cons.
    destruct (decide (q = p)) as [->|Hne]; simpl.
    + split; [done | by intros [? _]].
    + rewrite IH. split; [intros ?; split; [congruence | done] | by intros [_ ?]].
Qed.

Lemma hooks_at_nil p hs :
  Forall (fun ph => ph.1 ≠ p) hs → hooks_at p hs = [].
Proof.
  unfold hooks_at. induction 1 as [|ph hs Hne _ IH]; [done|].
  rewrite filter_cons. by destruct (decide (ph.1 = p)).
Qed.

Lemma hooks_at_Forall (P : Hook → Prop) p hs :
  Forall (fun ph => P ph.2) hs → Forall P (hooks_at p hs).
Proof.
  unfold hooks_at. induction 1 as [|ph hs HP _ IH]; [constructor|].
  rewrite filter_cons. destruct (decide (ph.1 = p)); [|done].
  rewrite fmap_cons. by constructor.
Qed.

(** The list of cell [c], and whether the pass raised, depend on the
    hooks only through the number of hooks of each block that append to
    [c], provided a block with any hook has one that appends to [c]. *)
Lemma fire_cell n b hs c m ps : ∀ cs l,
  Forall (fun ph => is_top5 ph.2) hs →
  (∀ p, p ∈ ps →
        m p = length (filter (fun h => cell_of h = c) (hooks_at p hs))) →
  (∀ p, p ∈ ps → m p = 0%nat → hooks_at p hs = []) →
  cs !! c = Some l →
  ∃ cs', fire n b hs ps cs = ((caps n b m ps).1, cs')
    ∧ cs' !! c = Some (l ++ (caps n b m ps).2)
    ∧ length cs' = length cs.
Proof.
  induction ps as [|p ps IH]; intros cs l Hall Hm Hz Hl.
  - exists cs. simpl. by rewrite app_nil_r.
  - simpl fire. simpl caps.
    rewrite fire_hooks_top5 by by apply hooks_at_Forall.
    assert (Hin : p ∈ p :: ps) by left.
    pose proof (Hm p Hin) as Hmp. pose proof (Hz p Hin) as Hzp.
    assert (Hm' : ∀ q, q ∈ ps →
      m q = length (filter (fun h => cell_of h = c) (hooks_at q hs)))
      by (intros q Hq; apply Hm; by right).
    assert (Hz' : ∀ q, q ∈ ps → m q = 0%nat → hooks_at q hs = [])
      by (intros q Hq; apply Hz; by right).
    destruct (hooks_at p hs) as [|h hp] eqn:Hhp.
    + simpl in Hmp. rewrite Hmp. by apply IH.
    + destruct (m p) as [|k] eqn:Hk; [by specialize (Hzp eq_refl)|].
      fold (cap_at n p b). destruct (cap_at n p b) as [v|e].
      * destruct (appends_lookup v (h :: hp) cs c) as [Hlen Hlook].
        rewrite Hl in Hlook. simpl in Hlook. rewrite <- Hmp in Hlook.
        destruct (IH _ _ Hall Hm' Hz' Hlook) as (cs' & Hf & Hc' & Hlen').
        exists cs'. simpl foldl. rewrite Hf.
        destruct (caps n b m ps) as [o l']. simpl in *.
        split; [done|]. split; [by rewrite Hc', <- app_assoc|].
        by rewrite Hlen', Hlen.
      * exists cs. simpl. by rewrite app_nil_r.
Qed.

(** ** The export as a function of the model *)

Lemma locate_run n wl w : locate n wl w = (locate_o n wl, w).
Proof.
  unfold locate, locate_o. destruct (select (layers n) wl) as [[s i]|]; [|done].
  by destruct (Py.norm_index (length (stage n s)) i).
Qed.

Lemma set_hooks_nil (w : World) : set_hooks (fun hs => hs ++ []) w = w.
Proof. destruct w. unfold set_hooks. simpl. by rewrite app_nil_r. Qed.

Lemma set_hooks_app l1 l2 (w : World) :
  set_hooks (fun hs => hs ++ l2) (set_hooks (fun hs => hs ++ l1) w)
  = set_hooks (fun hs => hs ++ l1 ++ l2) w.
Proof. destruct w. unfold set_hooks. simpl. by rewrite app_assoc. Qed.

Lemma register_hooks_run h ll : ∀ w ps,
  located (net w) ll = Ok ps →
  register_hooks h ll w
  = (Ok tt, set_hooks (fun hs => hs ++ ((fun p => (p, h)) <$> ps)) w).
Proof.
  unfold register_hooks.
  induction ll as [|layer ll IH]; intros w ps Hloc; simpl in Hloc.
  - injection Hloc as <-. simpl. mrun. by rewrite set_hooks_nil.
  - simpl for_each. destruct (Py.int layer) as [l|]; [|done]. simpl in Hloc.
    mrun. rewrite locate_run.
    destruct (locate_o (net w) l) as [o|]; [|done]. simpl in Hloc.
    destruct (located (net w) ll) as [ps'|] eqn:Hps; [|done].
    simpl in Hloc. injection Hloc as <-.
    destruct o as [p|]; mrun.
    + rewrite (IH _ ps') by done. by rewrite set_hooks_app.
    + by rewrite (IH _ ps').
Qed.

Lemma register_hooks_raise h ll : ∀ w e,
  located (net w) ll = Raise e →
  ∃ w', register_hooks h ll w = (Raise e, w') ∧ trace w' = trace w
    ∧ net w' = net w ∧ args w' = args w.
Proof.
  unfold register_hooks.
  induction ll as [|layer ll IH]; intros w e Hloc; simpl in Hloc; [done|].
  simpl for_each. destruct (Py.int layer) as [l|]; simpl in Hloc.
  - mrun. rewrite locate_run.
    destruct (locate_o (net w) l) as [o|e']; simpl in Hloc.
    + destruct (located (net w) ll) as [ps'|e'] eqn:Hps; [done|].
      simpl in Hloc. injection Hloc as <-.
      destruct o as [p|]; mrun.
      * destruct (IH (set_hooks (fun hs => hs ++ [(p, h)]) w) e' Hps)
          as (w' & -> & Htr). by exists w'.
      * destruct (IH w e' Hps) as (w' & -> & Htr). by exists w'.
    + injection Hloc as <-. mrun. by exists w.
  - injection Hloc as <-. mrun. by exists w.
Qed.

Lemma ranking_state_log n a hs len e w :
  ranking_state n a hs len w → ranking_state n a hs len (log e w).
Proof. done. Qed.

Lemma collect_run n a hs len c cfg k batches : ∀ paths vals w,
  quiescent n → feeds hs c cfg → (c < len)%nat →
  ranking_state n a hs len w →
  ∃ w', collect c k batches paths vals w
        = ((collect_rec n cfg k batches paths vals).1, w')
    ∧ trace w' = trace w ++ (collect_rec n cfg k batches paths vals).2
    ∧ ranking_state n a hs len w'.
Proof.
  intros paths vals w Hq (Htop & Hm & Hz) Hc.
  revert paths vals w.
  induction batches as [|[i [input path]] more IH];
    intros paths vals w (Hn & Ha & Hg & Hh & Hlen).
  - exists w. simpl. by rewrite app_nil_r.
  - simpl collect. mrun. rewrite call_model_quiet by (wsimpl; by rewrite Hn).
    wsimpl. unfold forward_event. wsimpl. rewrite Hn, Hh, Hg.
    destruct Hq as [Htr Hrest]. rewrite Htr.
    assert (Hl : <[c:=[]]> (cells w) !! c = Some [])
      by (apply list_lookup_insert_eq; lia).
    destruct (fire_cell n input hs c (fun p => times p cfg) (positions n)
                _ _ Htop (fun p _ => Hm p) (fun p _ => Hz p) Hl)
      as (cs' & -> & Hc' & Hlen').
    simpl collect_rec. unfold captures.
    destruct (caps n input (fun p => times p cfg) (positions n))
      as [[u|e] outs]; cbn [fst snd] in *.
    + unfold read_cell, with_cells. mrun. rewrite Hc'.
      cbn [default from_option id app].
      destruct (batch_vals k outs) as [val|e]; cbn [mbind Outcome_bind].
      * mrun. destruct (next_vals i vals val) as [vals'|e].
        -- mrun.
           match goal with
           | |- context [collect _ _ _ _ _ ?w0] =>
               destruct (IH (paths ++ path) (Some vals') w0)
                 as (w' & -> & Ht & Hs)
           end.
           { repeat split; wsimpl; try done.
             by rewrite Hlen', length_insert. }
           exists w'. wsimpl.
           destruct (collect_rec n cfg k more (paths ++ path) (Some vals'))
             as [r evs]. simpl in *. split; [done|]. split; [|done].
           by rewrite Ht, <- app_assoc.
        -- mrun. eexists. split; [done|]. split; [done|].
           repeat split; wsimpl; try done. by rewrite Hlen', length_insert.
      * mrun. eexists. split; [done|]. split; [done|].
        repeat split; wsimpl; try done. by rewrite Hlen', length_insert.
    + unfold with_cells. eexists. split; [done|]. split; [done|].
      repeat split; wsimpl; try done. by rewrite Hlen', length_insert.
Qed.

Lemma follows_bind {A B} I (m : M A) (f : A → M B) s g :
  follows I m s → (∀ a, follows I (f a) (g a)) →
  follows I (m ≫= f) (rec_bind s g).
Proof.
  intros Hm Hf w Hw. destruct (Hm w Hw) as (w1 & Hr & Ht & H1).
  rewrite run_bind, Hr. destruct s as [[a|e] evs]; simpl in *.
  - destruct (Hf a w1 H1) as (w2 & Hr2 & Ht2 & H2).
    exists w2. rewrite Hr2. destruct (g a) as [r evs']. simpl in *.
    split; [done|]. split; [|done]. by rewrite Ht2, Ht, <- app_assoc.
  - by exists w1.
Qed.

Lemma follows_for_each {A} I (xs : list A) body spec :
  (∀ x, follows I (body x) (spec x)) →
  follows I (for_each xs body) (rec_for xs spec).
Proof.
  intros H. induction xs as [|x xs IH].
  - intros w Hw. exists w. simpl. by rewrite app_nil_r.
  - cbn [for_each rec_for].
    apply follows_bind; [apply H | intros u; apply IH].
Qed.

Lemma follows_copies I arr name js :
  (∀ e w, I w → I (log e w)) →
  follows I
    (for_each js (fun j =>
       e ← lift_opt IndexError (arr !! Z.to_nat j);
       emit (ECopy e.2 (name j))))
    (copies arr name js).
Proof.
  intros Hlog. induction js as [|j js IH].
  - intros w Hw. exists w. simpl. by rewrite app_nil_r.
  - cbn [for_each copies]. destruct (arr !! Z.to_nat j) as [e|].
    + apply follows_bind; [|intros u; apply IH].
      intros w Hw. mrun. eexists. split; [done|]. split; [done|].
      by apply Hlog.
    + intros w Hw. mrun. exists w. simpl. by rewrite app_nil_r.
Qed.

Lemma follows_export_layer I folder suffix vals paths il :
  (∀ e w, I w → I (log e w)) →
  follows I (export_layer folder suffix vals paths il)
            (export_rec folder suffix vals paths il).
Proof.
  intros Hlog. unfold export_layer, export_rec.
  destruct (layer_ranking vals paths il.1) as [arr|e].
  - intros w Hw. mrun. by apply follows_copies.
  - intros w Hw. mrun. exists w. simpl. by rewrite app_nil_r.
Qed.

Lemma follows_collect n a hs len c cfg k batches paths vals :
  quiescent n → feeds hs c cfg → (c < len)%nat →
  follows (ranking_state n a hs len) (collect c k batches paths vals)
          (collect_rec n cfg k batches paths vals).
Proof. intros Hq Hf Hc w Hw. by eapply collect_run. Qed.

Lemma blocks_set_training b n : blocks (set_training b n) = blocks n.
Proof. reflexivity. Qed.

Lemma set_training_twice b n :
  set_training b (set_training b n) = set_training b n.
Proof. reflexivity. Qed.

Lemma filter_replicate_all {X} (P : X → Prop) `{∀ x, Decision (P x)} k x :
  P x → filter P (replicate k x) = replicate k x.
Proof.
  intros Hx. induction k as [|k IH]; [done|].
  simpl. rewrite filter_cons. destruct (decide (P x)); [|done].
  by rewrite IH.
Qed.

Lemma filter_none {X} (P : X → Prop) `{∀ x, Decision (P x)} (l : list X) :
  Forall (fun x => ¬ P x) l → filter P l = [].
Proof.
  induction 1 as [|x l Hx _ IH]; [done|].
  rewrite filter_cons. by destruct (decide (P x)).
Qed.

(** The hooks of earlier exports together with those of this one feed
    the new list as the export expects. *)
Lemma feeds_tag old c cfg :
  Forall (fun ph => is_top5 ph.2 ∧ ph.1 ∈ cfg ∧ (cell_of ph.2 < c)%nat) old →
  feeds (old ++ tag c cfg) c cfg.
Proof.
  intros Hold. split; [|split].
  - apply Forall_app. split.
    + eapply Forall_impl; [exact Hold|]. by intros ph (? & _).
    + unfold tag. apply Forall_fmap, Forall_forall. by intros p _.
  - intros p. rewrite hooks_at_app, filter_app, hooks_at_tag, length_app.
    rewrite (filter_none _ (hooks_at p old)).
    + rewrite filter_replicate_all by done. by rewrite length_replicate.
    + apply hooks_at_Forall. eapply Forall_impl; [exact Hold|].
      intros ph (_ & _ & Hlt). simpl. lia.
  - intros p Hp. rewrite hooks_at_app, hooks_at_tag, Hp. simpl.
    rewrite app_nil_r. apply hooks_at_nil.
    eapply Forall_impl; [exact Hold|]. intros ph (_ & Hin & _) Heq.
    apply times_zero in Hp. by rewrite Heq in Hin.
Qed.

Lemma follows_ranking n a hs len c cfg vl ll po :
  quiescent n → feeds hs c cfg → (c < len)%nat →
  follows (ranking_state n a hs len)
    (for_each (top5_axes po) (fun k =>
       '(paths, vals) ← collect c k (enumerate_from 0 vl) [] None;
       for_each (enumerate_from 0 ll)
         (export_layer (top5_folder a ll po) (top5_suffix po k) vals paths)))
    (ranking_rec n a cfg vl ll po).
Proof.
  intros Hq Hf Hc. unfold ranking_rec. apply follows_for_each. intros k.
  apply follows_bind; [by apply follows_collect|].
  intros [paths vals]. apply follows_for_each. intros il.
  apply follows_export_layer. intros e w. apply ranking_state_log.
Qed.

Lemma print_concept_top5_run vl wl po w :
  rankable wl w →
  ∃ w', print_concept_top5 vl wl po w
        = ((top5_rec (net w) (args w) vl wl po).1, w')
    ∧ trace w' = trace w ++ (top5_rec (net w) (args w) vl wl po).2
    ∧ net w' = set_training false (net w) ∧ args w' = args w
    ∧ rankable wl w'
    ∧ ∀ cfg, located (set_training false (net w)) (Py.split "," wl) = Ok cfg →
        hooks w' = hooks w ++ tag (length (cells w)) cfg.
Proof.
  intros [Hcal Hhooks]. unfold print_concept_top5, top5_rec, model_eval,
    new_cell. mrun.
  set (n := set_training false (net w)) in *.
  set (ll := Py.split "," wl) in *.
  destruct (located n ll) as [cfg|e] eqn:Hloc.
  - rewrite (register_hooks_run _ _ _ cfg) by done. mrun.
    specialize (Hhooks cfg eq_refl).
    assert (Hfeeds : feeds (hooks w ++ tag (length (cells w)) cfg)
                       (length (cells w)) cfg).
    { apply feeds_tag. exact Hhooks. }
    assert (Hq : quiescent n) by (split; [done | exact Hcal]).
    pose proof (follows_ranking n (args w) _ (S (length (cells w)))
                  (length (cells w)) cfg vl ll po Hq Hfeeds
                  (Nat.lt_succ_diag_r _)) as Hrun.
    assert (Hend : ∀ len cfg', len = S (length (cells w)) →
      located (set_training false n) ll = Ok cfg' →
      Forall (fun ph => is_top5 ph.2 ∧ ph.1 ∈ cfg'
                        ∧ (cell_of ph.2 < len)%nat)
             (hooks w ++ tag (length (cells w)) cfg)).
    { intros len cfg' -> Hcfg'. change (set_training false n) with n in Hcfg'.
      rewrite Hloc in Hcfg'. injection Hcfg' as <-.
      apply Forall_app. split.
      - eapply Forall_impl; [exact Hhooks|]. intros ph (? & ? & ?).
        split; [done|]. split; [done|]. lia.
      - unfold tag. apply Forall_fmap, Forall_forall. intros p Hp. simpl.
        split; [done|]. split; [done|]. lia. }
    unfold top5_axes, top5_suffix in Hrun.
    destruct po; cbn iota beta; unfold no_grad; mrun;
      (match goal with
       | |- context [for_each _ _ ?w0] =>
           destruct (Hrun w0) as (w5 & Hr & Ht & Hn & Ha & Hg & Hh & Hlen);
           [repeat split; wsimpl; try done; rewrite length_app; simpl; lia|]
       end);
      rewrite Hr;
      destruct (ranking_rec n (args w) cfg vl ll _) as [[u|e] evs];
      mrun; cbn [fst snd] in *;
      (eexists; split; [reflexivity|]; wsimpl;
       split; [rewrite Ht; wsimpl; by rewrite <- ?app_assoc|];
       split; [done|]; split; [done|];
       split;
       [split; unfold ranking_hooks; wsimpl; rewrite Hn; [done|];
        rewrite Hh; intros cfg' Hcfg'; by apply Hend
       |wsimpl; rewrite Hh; intros cfg' Hcfg';
        by injection Hcfg' as <-]).
  - destruct (register_hooks_raise (Top5Hook (length (cells w))) ll
               (set_cells (fun cs => cs ++ [[]])
                  (set_net (set_training false)
                     (log EModelEval (log ETop5Begin w)))) e Hloc)
      as (w' & -> & Htr & Hnet & Hargs).
    exists w'. wsimpl. split; [done|]. split; [by rewrite Htr, <- app_assoc|].
    split; [done|]. split; [done|]. unfold rankable. rewrite Hnet.
    split; [split; [exact Hcal|]|]; intros cfg' Hcfg'; [|done].
    change (located n ll = Ok cfg') in Hcfg'. by rewrite Hloc in Hcfg'.
Qed.

(** ** The sort of the ranking *)

Lemma insert_desc_perm {A} (key : A → Q) x l :
  Permutation (Py.insert_desc key x l) (x :: l).
Proof.
  induction l as [|y l IH]; [done|]. simpl.
  destruct (Qle_bool (key y) (key x)); [done|].
  rewrite IH. apply perm_swap.
Qed.

Lemma sort_reverse_perm {A} (key : A → Q) l :
  Permutation (Py.sort_reverse key l) l.
Proof.
  induction l as [|x l IH]; [done|]. unfold Py.sort_reverse in *. simpl.
  rewrite insert_desc_perm. by constructor.
Qed.

Lemma insert_desc_fmap {A B} (f : A → B) (key : B → Q) x l :
  Py.insert_desc key (f x) (f <$> l)
  = f <$> Py.insert_desc (key ∘ f) x l.
Proof.
  induction l as [|y l IH]; [done|]. simpl.
  destruct (Qle_bool (key (f y)) (key (f x))); [done|].
  rewrite fmap_cons. f_equal. exact IH.
Qed.

Lemma sort_reverse_fmap {A B} (f : A → B) (key : B → Q) l :
  Py.sort_reverse key (f <$> l) = f <$> Py.sort_reverse (key ∘ f) l.
Proof.
  induction l as [|x l IH]; [done|]. unfold Py.sort_reverse in *.
  rewrite fmap_cons. simpl. rewrite IH. apply insert_desc_fmap.
Qed.

Lemma before_le {A} (key : A → Q) idx x y :
  before key idx x y → (key y <= key x)%Q.
Proof.
  intros [Hlt | [Heq _]]; [by apply Qlt_le_weak|].
  rewrite Heq. apply Qle_refl.
Qed.

Lemma insert_desc_sorted {A} (key : A → Q) (idx : A → nat) x l :
  StronglySorted (before key idx) l →
  Forall (fun y => (idx x < idx y)%nat) l →
  StronglySorted (before key idx) (Py.insert_desc key x l).
Proof.
  induction 1 as [|y l Hs IH Hy]; intros Hidx.
  - simpl. repeat constructor.
  - apply Forall_cons in Hidx as [Hxy Hidx]. simpl.
    destruct (Qle_bool (key y) (key x)) eqn:Hle.
    + apply Qle_bool_iff in Hle. constructor; [by constructor|].
      assert (Hall : ∀ z, (key z <= key y)%Q → (idx x < idx z)%nat →
                          before key idx x z).
      { intros z Hz Hxz.
        destruct (Qlt_le_dec (key z) (key x)) as [Hlt|Hge]; [by left|].
        right. split; [|done]. apply Qle_antisym; [done|].
        by apply Qle_trans with (key y). }
      constructor; [apply Hall; [apply Qle_refl | done]|].
      rewrite Forall_forall in Hy, Hidx. apply Forall_forall.
      intros z Hz. apply Hall; [|by apply Hidx].
      eapply before_le, Hy, Hz.
    + constructor; [by apply IH|].
      assert (Hlt : (key x < key y)%Q).
      { apply Qnot_le_lt. intros Hc. apply Qle_bool_iff in Hc. congruence. }
      apply Forall_forall. intros z Hz.
      rewrite insert_desc_perm in Hz. apply elem_of_cons in Hz as [->|Hz].
      * by left.
      * rewrite Forall_forall in Hy. by apply Hy.
Qed.

Lemma sort_reverse_sorted {A} (key : A → Q) (idx : A → nat) l :
  StronglySorted (fun a b => (idx a < idx b)%nat) l →
  StronglySorted (before key idx) (Py.sort_reverse key l).
Proof.
  intros Hl. induction Hl as [|x l Hs IH Hx]; [by constructor|].
  change (Py.sort_reverse key (x :: l))
    with (Py.insert_desc key x (Py.sort_reverse key l)).
  apply insert_desc_sorted; [done|].
  rewrite Forall_forall in Hx. apply Forall_forall. intros z Hz.
  apply Hx. by rewrite sort_reverse_perm in Hz.
Qed.

Lemma StronglySorted_fmap {A B} (R : B → B → Prop) (f : A → B) l :
  StronglySorted (fun a b => R (f a) (f b)) l →
  StronglySorted R (f <$> l).
Proof.
  intros Hl. induction Hl as [|x l Hs IH Hx]; [constructor|].
  rewrite fmap_cons. constructor; [done|]. by apply Forall_fmap.
Qed.

Lemma StronglySorted_impl_in {A} (R R' : A → A → Prop) l :
  StronglySorted R l →
  (∀ a b, a ∈ l → b ∈ l → R a b → R' a b) →
  StronglySorted R' l.
Proof.
  intros Hl. induction Hl as [|x l Hs IH Hx]; intros Himp; [constructor|].
  constructor.
  - apply IH. intros a b Ha Hb. apply Himp; by right.
  - rewrite Forall_forall in Hx. apply Forall_forall. intros y Hy.
    apply Himp; [left | by right | by apply Hx].
Qed.

Lemma numbered_lookup {A} (l : list A) j i x :
  (i, x) ∈ zip (seq j (length l)) l → (j ≤ i)%nat ∧ l !! (i - j)%nat = Some x.
Proof.
  intros Hin. apply list_elem_of_lookup in Hin as [k Hk].
  apply lookup_zip_with_Some in Hk as (i' & x' & Heq & Hi & Hx).
  injection Heq as -> ->. apply lookup_seq in Hi as [-> _].
  split; [lia|]. by replace (j + k - j)%nat with k by lia.
Qed.

Lemma numbered_sorted {A} (l : list A) : ∀ j,
  StronglySorted (fun a b : nat * A => (a.1 < b.1)%nat)
                 (zip (seq j (length l)) l).
Proof.
  induction l as [|x l IH]; intros j; [constructor|].
  simpl. constructor; [apply IH|].
  apply Forall_forall. intros [i y] Hin.
  apply numbered_lookup in Hin as [Hle _]. simpl. lia.
Qed.

(** The sort of line 507 ranks the images: it lists them by descending
    score, images of equal score in the order of iteration. *)
Lemma sort_ranks (row : list Q) (paths : list string) :
  length row = length paths →
  ∃ order, ranks row order
    ∧ Forall2 (fun i e => row !! i = Some e.1 ∧ paths !! i = Some e.2)
              order (Py.sort_reverse fst (zip row paths)).
Proof.
  intros Hlen. set (l := zip row paths).
  set (il := zip (seq 0 (length l)) l).
  set (sorted := Py.sort_reverse (fst ∘ snd) il).
  assert (Hl : length l = length row).
  { unfold l. rewrite length_zip_with. lia. }
  assert (Hil : snd <$> il = l).
  { unfold il. apply snd_zip. rewrite length_seq. lia. }
  assert (Hin : ∀ i x, (i, x) ∈ sorted →
                row !! i = Some x.1 ∧ paths !! i = Some x.2).
  { intros i x Hx. unfold sorted in Hx. rewrite sort_reverse_perm in Hx.
    apply numbered_lookup in Hx as [_ Hx].
    replace (i - 0)%nat with i in Hx by lia.
    apply lookup_zip_with_Some in Hx as (a & b & -> & Ha & Hb). done. }
  exists (fst <$> sorted). split; [split|].
  - unfold sorted. rewrite sort_reverse_perm. unfold il.
    rewrite fst_zip by (rewrite length_seq; lia). by rewrite Hl.
  - apply StronglySorted_fmap.
    eapply StronglySorted_impl_in.
    + apply (sort_reverse_sorted (fst ∘ snd) fst). apply numbered_sorted.
    + intros [i x] [j y] Hx Hy. fold sorted in Hx, Hy.
      apply Hin in Hx as [Hx _]. apply Hin in Hy as [Hy _].
      unfold before, score_at. simpl in *. by rewrite Hx, Hy.
  - rewrite <- Hil, sort_reverse_fmap. fold sorted.
    apply Forall2_fmap, Forall_Forall2_diag, Forall_forall.
    intros [i x] Hx. simpl. by apply Hin.
Qed.

(** ** The scores of a batch *)

Lemma chunks_lookup {A} k n : ∀ (l : list A) j,
  (j < k)%nat → T.chunks k n l !! j = Some (take n (drop (j * n) l)).
Proof.
  induction k as [|k IH]; intros l j Hj; [lia|].
  destruct j as [|j]; simpl; [done|].
  rewrite IH by lia. by rewrite drop_drop.
Qed.

Lemma chunks_bind {A B} (f : A → list B) n (xs : list A) :
  (∀ x, x ∈ xs → length (f x) = n) →
  T.chunks (length xs) n (xs ≫= f) = f <$> xs.
Proof.
  induction xs as [|x xs IH]; intros Hlen; [done|].
  rewrite bind_cons, fmap_cons. cbn [length T.chunks].
  assert (Hx : length (f x) = n) by (apply Hlen; left).
  subst n. rewrite take_app_length, drop_app_length.
  rewrite IH; [done|]. intros y Hy. apply Hlen. by right.
Qed.

Lemma length_bind_const {A B} (f : A → list B) n (xs : list A) :
  (∀ x, x ∈ xs → length (f x) = n) →
  length (xs ≫= f) = (length xs * n)%nat.
Proof.
  induction xs as [|x xs IH]; intros Hlen; [done|].
  rewrite bind_cons, length_app, IH, Hlen; [simpl; lia | left |].
  intros y Hy. apply Hlen. by right.
Qed.

(** Lines 497: [output.sum((2,3))[:,k]] is, image by image, the sum of
    axis [k] over the locations. *)
Lemma scores_of_capture t b c h w (k : nat) :
  shape t = [b; c; h; w] → (k < c)%nat →
  T.sum23 t ≫= T.column (Z.of_nat k)
  = Some ((fun i => T.qsum (pixels t k i)) <$> seq 0 b).
Proof.
  intros Hsh Hk. unfold T.sum23. rewrite Hsh. simpl. unfold T.column.
  cbn [shape]. destruct (0 <=? Z.of_nat k) eqn:H0; [|lia].
  destruct ((0 <=? Z.of_nat k) && (Z.of_nat k <? Z.of_nat c)) eqn:Hin;
    [|apply andb_false_iff in Hin as [?|?]; lia].
  f_equal. apply list_fmap_ext. intros j i Hi.
  apply lookup_seq in Hi as [-> Hlt]. simpl.
  unfold T.at_, pixels. cbn [elems]. rewrite Hsh, Nat2Z.id.
  rewrite list_lookup_fmap, chunks_lookup by nia. done.
Qed.

Lemma flat_scores_run (act : Pos → Tensor) (sh : Pos → nat * nat * nat)
  b (k : nat) (ps : list Pos) :
  (∀ p, p ∈ ps → shape (act p) = [b; (sh p).1.1; (sh p).1.2; (sh p).2]
                 ∧ (k < (sh p).1.1)%nat) →
  flat_scores (Z.of_nat k) ((fun p => CapTensor (act p)) <$> ps)
  = Ok (p ← ps; (fun i => T.qsum (pixels (act p) k i)) <$> seq 0 b).
Proof.
  induction ps as [|p ps IH]; intros Hsh; [done|].
  rewrite fmap_cons, bind_cons. cbn [flat_scores].
  destruct (Hsh p) as [Hp Hk]; [left|].
  pose proof (scores_of_capture _ _ _ _ _ _ Hp Hk) as Hs.
  destruct (T.sum23 (act p)) as [s|]; [|done]. simpl in Hs.
  cbn [opt mbind Outcome_bind]. rewrite Hs. cbn [opt mbind Outcome_bind].
  rewrite IH; [done|]. intros q Hq. apply Hsh. by right.
Qed.

Lemma batch_vals_run (act : Pos → Tensor) (sh : Pos → nat * nat * nat)
  b (k : nat) (ps : list Pos) :
  ps ≠ [] →
  (∀ p, p ∈ ps → shape (act p) = [b; (sh p).1.1; (sh p).1.2; (sh p).2]
                 ∧ (k < (sh p).1.1)%nat) →
  batch_vals (Z.of_nat k) ((fun p => CapTensor (act p)) <$> ps)
  = Ok ((fun p => (fun i => T.qsum (pixels (act p) k i)) <$> seq 0 b)
        <$> ps).
Proof.
  intros Hne Hsh. unfold batch_vals.
  rewrite (flat_scores_run act sh b) by done. cbn [mbind Outcome_bind].
  assert (Hout : ∃ o outs, (fun p => CapTensor (act p)) <$> ps = o :: outs)
    by (destruct ps; [done | rewrite fmap_cons; eauto]).
  destruct Hout as (o & outs & Hout). rewrite Hout at 1.
  rewrite length_fmap. unfold reshape_rows.
  assert (Hlen : ∀ q, q ∈ ps →
    length ((fun i => T.qsum (pixels (act q) k i)) <$> seq 0 b) = b).
  { intros q _. by rewrite length_fmap, length_seq. }
  rewrite (length_bind_const _ b) by done.
  destruct (length ps) as [|m] eqn:Hm; [by destruct ps|].
  rewrite (Nat.mul_comm (S m) b), Nat.Div0.mod_mul, Nat.div_mul by lia.
  destruct (decide (0 = 0)%nat); [|done].
  cbn [opt]. rewrite <- Hm. by rewrite chunks_bind.
Qed.

(** ** The captures of a forward pass in forward order *)

Lemma caps_ok n b (m : Pos → nat) (v : Pos → Captured) ps :
  (∀ p, p ∈ ps → m p ≠ 0%nat → cap_at n p b = Ok (v p)) →
  caps n b m ps = (Ok tt, p ← ps; replicate (m p) (v p)).
Proof.
  induction ps as [|p ps IH]; intros Hcap; [done|].
  rewrite bind_cons. cbn [caps].
  assert (IH' : caps n b m ps = (Ok tt, p ← ps; replicate (m p) (v p))).
  { apply IH. intros q Hq. apply Hcap. by right. }
  destruct (m p) as [|k] eqn:Hk; [by rewrite IH'|].
  rewrite Hcap, IH'; [done | left | lia].
Qed.

Lemma captures_run n cfg b (v : Pos → Captured) :
  in_forward_order n cfg →
  (∀ p, p ∈ cfg → cap_at n p b = Ok (v p)) →
  captures n cfg b = (Ok tt, v <$> cfg).
Proof.
  intros Hord Hcap. unfold captures.
  rewrite (caps_ok _ _ _ v).
  - f_equal.
    transitivity (v <$> (p ← positions n; replicate (times p cfg) p));
      [|by rewrite Hord].
    induction (positions n) as [|p ps IH]; [done|].
    by rewrite !bind_cons, fmap_app, fmap_replicate, IH.
  - intros p _ Hp. apply Hcap. by apply dec_stable; rewrite <- times_zero.
Qed.

(** ** The scores of the validation set *)

Lemma zip_with_fmap_same {A B C D} (h : B → C → D) (f : A → B) (g : A → C)
  (l : list A) :
  zip_with h (f <$> l) (g <$> l) = (fun x => h (f x) (g x)) <$> l.
Proof. induction l as [|x l IH]; [done|]. csimpl. by rewrite IH. Qed.

Lemma image_sums_cons act k p b path bs :
  image_sums act k p ((b, path) :: bs)
  = ((fun i => T.qsum (pixels (act p b) k i)) <$> seq 0 (length path))
    ++ image_sums act k p bs.
Proof. unfold image_sums. by rewrite bind_cons. Qed.

Lemma collect_rec_scores n cfg (act : Pos → Batch → Tensor)
  (sh : Pos → nat * nat * nat) (k : nat) :
  cfg ≠ [] → in_forward_order n cfg →
  ∀ bs i paths vals (f : Pos → list Q),
    (∀ b path p, (b, path) ∈ bs → p ∈ cfg →
       cap_at n p b = Ok (CapTensor (act p b))
       ∧ shape (act p b)
         = [length path; (sh p).1.1; (sh p).1.2; (sh p).2]
       ∧ (k < (sh p).1.1)%nat) →
    0 ≤ i →
    (i = 0 → ∀ p, f p = []) →
    (i ≠ 0 → vals = Some (f <$> cfg)) →
    collect_rec n cfg (Z.of_nat k) (enumerate_from i bs) paths vals
    = (Ok (paths ++ (bs ≫= snd),
           match bs with
           | [] => vals
           | _ :: _ =>
               Some ((fun p => f p ++ image_sums act k p bs) <$> cfg)
           end),
       forwards n bs).
Proof.
  intros Hne Hord bs.
  induction bs as [|[b path] bs IH]; intros i paths vals f Hcap Hpos H0 Hi.
  - simpl. by rewrite app_nil_r.
  - cbn [enumerate_from collect_rec].
    rewrite (captures_run n cfg b (fun p => CapTensor (act p b)) Hord).
    2: { intros p Hp. apply (Hcap b path p); [left | done]. }
    rewrite (batch_vals_run (fun p => act p b) sh (length path) k cfg Hne).
    2: { intros p Hp. destruct (Hcap b path p) as (_ & Hsh & Hk);
           [left | done | done]. }
    cbn [mbind Outcome_bind].
    set (sums := fun p =>
      (fun j => T.qsum (pixels (act p b) k j)) <$> seq 0 (length path)).
    assert (Hnext : next_vals i vals (sums <$> cfg)
                    = Ok ((fun p => f p ++ sums p) <$> cfg)).
    { unfold next_vals. destruct (i =? 0) eqn:Hi0.
      - apply Z.eqb_eq in Hi0. f_equal. apply list_fmap_ext. intros j p _.
        by rewrite (H0 Hi0 p).
      - apply Z.eqb_neq in Hi0. rewrite (Hi Hi0). unfold concat_columns.
        rewrite !length_fmap. destruct (decide _) as [_|]; [|done].
        simpl. by rewrite zip_with_fmap_same. }
    rewrite Hnext.
    rewrite (IH (i + 1) (paths ++ path) _ (fun p => f p ++ sums p));
      [| intros b' path' p Hb Hp; apply (Hcap b' path' p); [by right | done]
       | lia | intros; lia | done].
    + cbn [rec_bind]. unfold forwards. rewrite fmap_cons. cbn [app fst].
      change (list_bind _ _ snd ((b, path) :: bs))
        with (path ++ (bs ≫= snd)).
      rewrite <- app_assoc. f_equal. f_equal. f_equal.
      destruct bs as [|b' bs'].
      * f_equal. apply list_fmap_ext. intros j p _.
        rewrite image_sums_cons. unfold image_sums. simpl.
        by rewrite app_nil_r.
      * f_equal. apply list_fmap_ext. intros j p _.
        by rewrite (image_sums_cons act k p b path), app_assoc.
Qed.

(** ** The copies of a layer *)

Lemma copies_run (arr : list (Q * string)) (name : Z → string) : ∀ m a,
  (a ≤ length arr)%nat →
  copies arr name (Z.of_nat <$> seq a m)
  = (if decide (a + m ≤ length arr)%nat then Ok tt else Raise IndexError,
     (fun jx => ECopy jx.2.2 (name jx.1))
     <$> enumerate_from (Z.of_nat a) (take m (drop a arr))).
Proof.
  induction m as [|m IH]; intros a Ha.
  - simpl. destruct (decide _); [done | lia].
  - cbn [seq]. rewrite fmap_cons. cbn [copies]. rewrite Nat2Z.id.
    destruct (arr !! a) as [e|] eqn:He.
    + assert (Hlt : (a < length arr)%nat) by (by eapply lookup_lt_Some).
      rewrite IH by lia. rewrite (drop_S _ _ _ He). cbn [take enumerate_from].
      rewrite fmap_cons. cbn [rec_bind fst snd app].
      replace (Z.of_nat a + 1) with (Z.of_nat (S a)) by lia.
      destruct (decide (S a + m ≤ length arr)%nat),
               (decide (a + S m ≤ length arr)%nat); try lia; done.
    + apply lookup_ge_None in He.
      rewrite drop_ge by lia. rewrite take_nil. simpl.
      destruct (decide _); [lia | done].
Qed.

Lemma range_top_k : Py.range 0 top_k = Z.of_nat <$> seq 0 50.
Proof. reflexivity. Qed.

Lemma enumerate_from_fmap {A B} (g : A → B) (l : list A) : ∀ a,
  enumerate_from a (g <$> l)
  = (fun jx => (jx.1, g jx.2)) <$> enumerate_from a l.
Proof.
  induction l as [|x l IH]; intros a; [done|].
  rewrite fmap_cons. cbn [enumerate_from]. rewrite fmap_cons. by rewrite IH.
Qed.

(** The export of one layer: the first 50 entries of the sorted list
    are copied in their order, and [IndexError] is raised after them
    when there are fewer. *)
Lemma export_rec_run folder suffix rows paths i layer row :
  rows !! Z.to_nat i = Some row →
  export_rec folder suffix (Some rows) paths (i, layer)
  = (if decide (50 ≤ length (zip row paths))%nat
     then Ok tt else Raise IndexError,
     copy_events folder layer suffix
       (snd <$> take 50 (Py.sort_reverse fst (zip row paths)))).
Proof.
  intros Hrow. unfold export_rec, layer_ranking. cbn [fst snd opt mbind
    Outcome_bind]. rewrite Hrow. cbn [opt mbind Outcome_bind].
  rewrite range_top_k, copies_run by lia. rewrite drop_0.
  rewrite (Permutation_length (sort_reverse_perm fst (zip row paths))).
  f_equal. unfold copy_events. rewrite enumerate_from_fmap.
  rewrite <- list_fmap_compose. done.
Qed.

Lemma rec_for_ok {A} (xs : list A) (body : A → Rec unit)
  (evs : A → list Event) :
  (∀ x, x ∈ xs → body x = (Ok tt, evs x)) →
  rec_for xs body = (Ok tt, xs ≫= evs).
Proof.
  induction xs as [|x xs IH]; intros Hbody; [done|].
  cbn [rec_for]. rewrite Hbody by left. rewrite IH.
  - by rewrite bind_cons.
  - intros y Hy. apply Hbody. by right.
Qed.

(** ** Sums and means rank alike *)

Lemma length_image_sums act k p vl :
  length (image_sums act k p vl) = length (vl ≫= snd).
Proof.
  unfold image_sums. induction vl as [|[b path] vl IH]; [done|].
  rewrite !bind_cons, !length_app, IH. cbn [snd fst].
  by rewrite length_fmap, length_seq.
Qed.

Lemma image_means_sums act k p vl (c h w : nat) :
  (∀ b path, (b, path) ∈ vl → shape (act p b) = [length path; c; h; w]) →
  image_means act k p vl
  = (fun s => (s / inject_Z (Z.of_nat (h * w)))%Q) <$> image_sums act k p vl.
Proof.
  unfold image_means, image_sums.
  induction vl as [|[b path] vl IH]; intros Hsh; [done|].
  rewrite !bind_cons, fmap_app, IH.
  - f_equal. cbn [fst snd]. rewrite <- list_fmap_compose.
    apply list_fmap_ext. intros j i _. unfold spatial_mean. cbn [compose].
    by rewrite (Hsh b path) by left.
  - intros b' path' Hin. apply Hsh. by right.
Qed.

Lemma ranks_scale (d : Q) (sums : list Q) (order : list nat) :
  (0 < d)%Q → ranks sums order →
  ranks ((fun s => (s / d)%Q) <$> sums) order.
Proof.
  intros Hd [Hperm Hsorted]. split; [by rewrite length_fmap|].
  eapply StronglySorted_impl_in; [exact Hsorted|].
  assert (Hat : ∀ a, a ∈ order →
    score_at ((fun s => (s / d)%Q) <$> sums) a = (score_at sums a / d)%Q).
  { intros a Ha. rewrite Hperm in Ha. apply elem_of_seq in Ha as [_ Ha].
    unfold score_at. rewrite list_lookup_fmap.
    destruct (sums !! a) eqn:Hs; [done|].
    apply lookup_ge_None in Hs. simpl in Ha. lia. }
  assert (Hinv : (0 < / d)%Q) by (by apply Qinv_lt_0_compat).
  intros a b Ha Hb [Hlt | [Heq Hidx]]; unfold before;
    rewrite (Hat a Ha), (Hat b Hb).
  - left. unfold Qdiv. by apply Qmult_lt_compat_r.
  - right. split; [by rewrite Heq | done].
Qed.

(** The 50 sources copied for a layer are the first 50 of the images
    ranked by the spatial mean of the axis. *)
Lemma top_of_layer act k p vl (c h w : nat) :
  (∀ b path, (b, path) ∈ vl → shape (act p b) = [length path; c; h; w]) →
  (0 < h * w)%nat →
  ∃ order,
    ranks (image_means act k p vl) order
    ∧ Forall2 (fun idx src => (vl ≫= snd) !! idx = Some src)
        (take 50 order)
        (snd <$> take 50 (Py.sort_reverse fst
                            (zip (image_sums act k p vl) (vl ≫= snd)))).
Proof.
  intros Hsh Hhw.
  destruct (sort_ranks (image_sums act k p vl) (vl ≫= snd)
              (length_image_sums act k p vl)) as (order & Hranks & Hall).
  exists order. split.
  - rewrite (image_means_sums act k p vl c h w Hsh).
    apply ranks_scale; [|done].
    change 0%Q with (inject_Z 0). rewrite <- Zlt_Qlt. lia.
  - apply Forall2_fmap_r, Forall2_take.
    eapply Forall2_impl; [exact Hall|]. by intros idx e [_ He].
Qed.

(** ** The export of one axis *)

Lemma split_nonempty sep s : Py.split sep s ≠ [].
Proof.
  destruct s as [|c s]; [done|]. simpl.
  destruct (Ascii.eqb c sep); [done|]. by destruct (Py.split sep s).
Qed.

Lemma enumerate_from_elem {A} (l : list A) : ∀ a i x,
  (i, x) ∈ enumerate_from a l →
  ∃ idx, i = a + Z.of_nat idx ∧ l !! idx = Some x.
Proof.
  induction l as [|y l IH]; intros a i x Hin; [by apply elem_of_nil in Hin|].
  cbn [enumerate_from] in Hin. apply elem_of_cons in Hin as [Heq | Hin].
  - injection Heq as -> ->. exists 0%nat. split; [lia | done].
  - apply IH in Hin as (idx & -> & Hidx). exists (S idx). split; [lia | done].
Qed.

Lemma axis_rec_run n cfg (act : Pos → Batch → Tensor)
  (sh : Pos → nat * nat * nat) (k : nat) vl ll folder suffix :
  in_forward_order n cfg → length cfg = length ll → ll ≠ [] →
  (∀ b path p, (b, path) ∈ vl → p ∈ cfg →
     cap_at n p b = Ok (CapTensor (act p b))
     ∧ shape (act p b) = [length path; (sh p).1.1; (sh p).1.2; (sh p).2]
     ∧ (k < (sh p).1.1)%nat) →
  (50 ≤ length (vl ≫= snd))%nat →
  rec_bind (collect_rec n cfg (Z.of_nat k) (enumerate_from 0 vl) [] None)
    (fun pv =>
       rec_for (enumerate_from 0 ll)
         (export_rec folder suffix pv.2 pv.1))
  = (Ok tt, axis_events n folder suffix vl ll (top_sources act cfg vl k)).
Proof.
  intros Hord Hlen Hll Hcap H50.
  assert (Hcfg : cfg ≠ []) by (destruct cfg, ll; done).
  assert (Hvl : vl ≠ []) by (destruct vl; [simpl in H50; lia | done]).
  rewrite (collect_rec_scores n cfg act sh k Hcfg Hord vl 0 [] None
             (fun _ => [])); [|done|lia|done|done].
  destruct vl as [|b0 vl0] eqn:Hvleq; [done|]. rewrite <- Hvleq in *.
  cbn [rec_bind app fst snd].
  rewrite (rec_for_ok _ _
    (fun il => copy_events folder il.2 suffix
                 (top_sources act cfg vl k (Z.to_nat il.1)))); [done|].
  intros [i layer] Hin.
  apply enumerate_from_elem in Hin as (idx & -> & Hidx).
  assert (Hlt : (idx < length cfg)%nat)
    by (rewrite Hlen; by eapply lookup_lt_Some).
  destruct (lookup_lt_is_Some_2 cfg idx Hlt) as [p Hp].
  assert (Hrow : ((fun p => [] ++ image_sums act k p vl) <$> cfg)
                 !! Z.to_nat (0 + Z.of_nat idx)
                 = Some (image_sums act k p vl)).
  { replace (Z.to_nat (0 + Z.of_nat idx)) with idx by lia.
    by rewrite list_lookup_fmap, Hp. }
  rewrite (export_rec_run _ _ _ _ _ _ _ Hrow).
  rewrite length_zip_with, length_image_sums.
  destruct (decide _) as [_|]; [|lia]. cbn [fst snd]. f_equal.
  unfold top_sources.
  replace (Z.to_nat (0 + Z.of_nat idx)) with idx by lia.
  by rewrite list_lookup_fmap, Hp.
Qed.

(** ** The claims about the training loop and the modes *)

(** C1. In an epoch of [train], with no forward hook registered and a
    concept source that yields at least one batch in every pass, the
    events are exactly the interleaving of cadence 2; and for every
    batch of index [i] with [(i + 1) mod 2 = 0] the events immediately
    before its forward pass are: evaluation mode, CALIBRATE on every
    whitening layer, gradient tracking off, the forward of exactly one
    concept batch (the first batch of the next pass over the concept
    data, in evaluation mode, every whitening layer in CALIBRATE, no
    gradient), gradient tracking restored, NORMAL, training mode; the
    batch itself is then processed in training mode with every
    whitening layer in NORMAL.  The trace is a function of the batches,
    the concept batches and the state at entry only. *)
Theorem train_calibrates_before_every_second_batch
  (tl cl : nat → list Batch) (w : World) :
  hooks w = [] → (∀ j, cl j ≠ []) →
  let k := length (modes (net w)) in
  let batches := tl (train_passes w) in
  ∃ w', train tl cl w = (Ok tt, w')
    ∧ trace w' = trace w
        ++ EModelTrain
           :: interleaving k (grad_enabled w) cl (concept_passes w)
                (modes (net w)) (enumerate_from 0 batches)
    ∧ ∀ (i : nat) b,
        batches !! i = Some b → (Z.of_nat i + 1) `mod` 2 = 0 →
        ∃ pre post X more,
          cl (concept_passes w + i `div` 2)%nat = X :: more
          ∧ trace w'
            = pre
              ++ [EModelEval; EChangeMode CALIBRATE; ENoGrad true;
                  EForward InCalibrate X false (replicate k CALIBRATE) false;
                  ENoGrad false; EChangeMode NORMAL; EModelTrain;
                  EForward InTrain b true (replicate k NORMAL)
                           (grad_enabled w)]
              ++ post.
Proof.
  intros Hh Hcl k batches.
  destruct (train_run tl cl w Hh) as (w' & Hrun & _ & _ & _ & _ & _ & _ & _ & _ & Ht).
  exists w'. split; [done|]. split; [done|].
  intros i b Hb Hpar.
  destruct (interleaving_at k (grad_enabled w) cl batches 0
              (concept_passes w) (modes (net w)) i b ltac:(lia) Hb Hpar)
    as (pre & post & Hint).
  replace (Z.to_nat ((0 + Z.of_nat i) `div` 2 - 0 `div` 2)) with (i `div` 2)%nat
    in Hint.
  2:{ rewrite Z.add_0_l. change (0 `div` 2) with 0. rewrite Z.sub_0_r.
      change 2 with (Z.of_nat 2). by rewrite <- Nat2Z.inj_div, Nat2Z.id. }
  destruct (cl (concept_passes w + i `div` 2)%nat) as [|X more] eqn:HX;
    [by destruct (Hcl (concept_passes w + i `div` 2)%nat)|].
  exists (trace w ++ EModelTrain :: pre),
    ([EZeroGrad; EBackward (replicate k NORMAL); EStep] ++ post), X, more.
  split; [done|]. rewrite Ht. fold k batches. rewrite Hint.
  unfold calibration_events, batch_events. simpl.
  rewrite <- !app_assoc. simpl. done.
Qed.

(** C2. A calibration sub-pass changes no parameter of the
    classification path and no state of the optimizer: whatever it does,
    every parameter and running statistic of the model other than the
    rotation matrices of the whitening layers, and the optimizer, are
    afterwards what they were before. *)
Theorem calibration_keeps_classification_state
  (cl : nat → list Batch) (w : World) :
  classification_state (net (calibrate cl w).2)
  = classification_state (net w)
  ∧ optimizer (calibrate cl w).2 = optimizer w.
Proof.
  destruct (calibrate_run cl w) as (o & w' & -> & Hc & Ho & _). done.
Qed.

Lemma rotate_cpt_resets cl mean w :
  match rotate_cpt cl mean w with
  | (Ok _, w') => Forall (eq NORMAL) (modes (net w'))
  | (Raise _, _) => True
  end.
Proof.
  unfold rotate_cpt, model_eval, change_mode. mrun.
  match goal with |- context [no_grad ?b ?x] =>
    destruct (no_grad b x) as [[u|e] w1] end; mrun; [|done].
  rewrite modes_change_mode. apply Forall_replicate_eq.
Qed.

Lemma state_dict_change_mode m n :
  state_dict (change_mode_net m n) = state_dict n.
Proof.
  unfold state_dict, change_mode_net; simpl.
  assert (H : ∀ l : list Block,
    (fun b => (nstate (bn1 b), rest b)) <$> (set_mode m <$> l)
    = (fun b => (nstate (bn1 b), rest b)) <$> l).
  { intros l. rewrite <- list_fmap_compose. apply list_fmap_ext.
    intros i b _. unfold set_mode; simpl. by destruct (is_cw (bn1 b)). }
  by rewrite !H.
Qed.

(** C3. A new model has every whitening layer in NORMAL; the
    calibration sub-pass of [train] and [rotate_cpt] leave every
    whitening layer in NORMAL when they return; in a run of [main] every
    forward pass on a training or validation batch and every backward
    pass finds every whitening layer in NORMAL; and the mode is no part
    of a checkpoint: the saved record is the same whatever the modes,
    and loading a state leaves the modes as they are. *)
Theorem mode_is_normal_outside_calibration :
  (∀ bp, Forall (eq NORMAL) (modes (ResidualNet bp)))
  ∧ (∀ cl w, match calibrate cl w with
             | (Ok _, w') => Forall (eq NORMAL) (modes (net w'))
             | (Raise _, _) => True
             end)
  ∧ (∀ cl mean w, match rotate_cpt cl mean w with
                  | (Ok _, w') => Forall (eq NORMAL) (modes (net w'))
                  | (Raise _, _) => True
                  end)
  ∧ (∀ a bp bufs0 disk tl cl vl vl2,
       Forall event_ok
         (trace (main bp bufs0 disk tl cl vl vl2
                   (fresh_world a bp bufs0)).2))
  ∧ (∀ epoch m w,
       checkpoint_of epoch (set_net (change_mode_net m) w)
       = checkpoint_of epoch w)
  ∧ (∀ sd n, match load_state_dict sd n with
             | Some n' => modes n' = modes n
             | None => True
             end).
Proof.
  split; [apply modes_ResidualNet|]. split.
  { intros cl w. destruct (calibrate_run cl w)
      as (o & w' & -> & _ & _ & _ & _ & _ & _ & _ & _ & _ & _ & Hres).
    destruct o as [[]|e]; [|done]. destruct (Hres eq_refl) as (_ & -> & _).
    apply Forall_replicate_eq. }
  split; [apply rotate_cpt_resets|]. split.
  { intros a bp bufs0 disk tl cl vl vl2.
    destruct (main_decompose bp bufs0 disk tl cl vl vl2
                (fresh_world a bp bufs0) eq_refl)
      as [(e & w1 & Hs & ->) | (w1 & evs2 & evs3 & Hs & _ & -> & Hok & _ & Hq)].
    - destruct (emits_setup bp bufs0 disk (fresh_world a bp bufs0))
        as (evs & He & Hq). rewrite Hs in He. simpl in *. rewrite He.
      by apply quiet_ok.
    - destruct (emits_setup bp bufs0 disk (fresh_world a bp bufs0))
        as (evs & He & Hq1). rewrite Hs in He. simpl in He. rewrite He.
      simpl. rewrite !Forall_app. split; [by apply quiet_ok|].
      split; [done|]. apply Forall_cons_2; [done | by apply quiet_ok]. }
  split.
  { intros epoch m w. unfold checkpoint_of. simpl.
    by rewrite state_dict_change_mode. }
  intros sd n. destruct (load_state_dict sd n) eqn:H; [|done].
  by apply modes_load_state_dict in H.
Qed.


(** ** The claims about resuming *)


(** C7. When the derived path names a file whose record holds an
    integer epoch, a numeric best score and a model state of the model's
    structure, the resume step returns without raising with the epoch
    counter, the best score and the model state taken from the record;
    when the record has no ['optimizer'] entry the optimizer is left as
    it was created, and when it has one the state of the optimizer is
    the one of the record. *)
Theorem resume_loads_checkpoint
  (disk : gmap string Checkpoint) (w : World) (ck : Checkpoint)
  (e : Z) (b : Q) (sd : StateDict) (n : Net) :
  resume (args w) ≠ EmptyString →
  disk !! resume_path (args w) = Some ck →
  ck !! "epoch" = Some (VInt e) →
  ck !! "best_prec1" = Some (VNum b) →
  ck !! "state_dict" = Some (VModel sd) →
  load_state_dict sd (net w) = Some n →
  (ck !! "optimizer" = None ∨ ∃ os, ck !! "optimizer" = Some (VOptim os)) →
  ∃ w', resume_from disk w = (Ok tt, w')
    ∧ start_epoch (args w') = e ∧ best_prec1 w' = b
    ∧ net w' = n ∧ state_dict (net w') = sd
    ∧ match ck !! "optimizer" with
      | None => optimizer w' = optimizer w
      | Some v =>
          v = VOptim (optimizer_state_dict (optimizer w'))
          ∧ params (optimizer w') = params (optimizer w)
      end.
Proof.
  intros Hne Hfile He Hb Hsd Hload Hopt. unfold resume_from, item. mrun.
  destruct (decide _) as [|_]; [done|]. mrun. rewrite Hfile. mrun.
  rewrite He. mrun. rewrite Hb. mrun. rewrite Hsd. mrun. rewrite Hload.
  mrun. pose proof (state_dict_load _ _ _ Hload) as Hback.
  destruct Hopt as [Hnone | [[lr0 bufs1] Hsome]].
  - rewrite Hnone. mrun. eexists. split; [reflexivity|]. done.
  - rewrite Hsome. mrun. eexists. split; [reflexivity|]. done.
Qed.

(** ** The claims about the hooks and the export *)

Lemma run_hook_eval_net p x h w :
  training (net w) = false → net (run_hook p x h w).2 = net w.
Proof.
  intros Htr. unfold run_hook. mrun.
  destruct (bn1_at (net w) p) as [m|]; mrun; [|done].
  assert (Hn : set_bn1 (net w) p (hook_stats (training (net w)) x) = net w).
  { rewrite Htr. apply set_bn1_same, hook_stats_eval_same. }
  destruct (hook_capture _ _ _ _) as [v|e]; unfold append_cell; mrun;
    simpl; exact Hn.
Qed.

Lemma collect_forgets_cell c k batches paths vals l w :
  (collect c k batches paths vals (set_cells (fun cs => <[c := l]> cs) w)).1
  = (collect c k batches paths vals w).1.
Proof.
  destruct batches as [|[i [input path]] more]; [done|].
  simpl collect. rewrite !run_bind, !run_modify. cbn beta iota.
  replace (set_cells (fun cs => <[c := []]> cs)
             (set_cells (fun cs => <[c := l]> cs) w))
    with (set_cells (fun cs => <[c := []]> cs) w); [done|].
  destruct w; unfold set_cells; simpl. f_equal.
  by rewrite list_insert_insert_eq.
Qed.

(** X10.  A hook returns nothing and, the model being in evaluation
    mode as both functions that register hooks put it, leaves the model
    as it finds it.  In [print_concept_top5] the list of captures is
    emptied before every forward pass, so what is read for a batch and
    the batches after it does not depend on what the list held before.
    In [get_optimal_direction] the list is bound once before the loop:
    through the forward passes of its loop every list only grows,
    keeping the captures of the earlier batches for the mean that is
    taken after the loop. *)
Theorem hooks_observe_and_lists_are_reset_only_in_the_export :
  (∀ p x h w, training (net w) = false →
              net (run_hook p x h w).2 = net w)
  ∧ (∀ c k batches paths vals l w,
       (collect c k batches paths vals
                (set_cells (fun cs => <[c := l]> cs) w)).1
       = (collect c k batches paths vals w).1)
  ∧ (∀ bs w, grown (cells w)
                   (cells (for_each bs (call_model InDirection) w).2)).
Proof.
  split; [apply run_hook_eval_net|]. split; [apply collect_forgets_cell|].
  intros bs w. apply for_each_grown; [|apply grown_refl].
  intros b. apply call_model_grown.
Qed.

(** X11.  On a model none of whose whitening layers is left in
    CALIBRATE mode, and whose hooks are those of earlier exports for the
    same layers, two invocations of
    [print_concept_top5] one after the other, with the same validation
    set, layers and axes, end the same way and record the same events:
    the same forward passes and the same copies, source and destination,
    in the same order.  The state after an invocation is again such a
    state, so that every later invocation agrees too. *)
Theorem repeated_rankings_agree vl wl po w o1 w1 o2 w2 :
  rankable wl w →
  print_concept_top5 vl wl po w = (o1, w1) →
  print_concept_top5 vl wl po w1 = (o2, w2) →
  o2 = o1
  ∧ (∃ evs, trace w1 = trace w ++ evs ∧ trace w2 = trace w1 ++ evs)
  ∧ rankable wl w1.
Proof.
  intros Hw H1 H2.
  destruct (print_concept_top5_run vl wl po w Hw)
    as (w1' & Hr1 & Ht1 & Hn1 & Ha1 & Hw1 & _).
  rewrite H1 in Hr1. injection Hr1 as -> <-.
  destruct (print_concept_top5_run vl wl po w1 Hw1)
    as (w2' & Hr2 & Ht2 & _).
  rewrite H2 in Hr2. injection Hr2 as -> <-.
  assert (Hsame : top5_rec (net w1) (args w1) vl wl po
                  = top5_rec (net w) (args w) vl wl po).
  { rewrite Hn1, Ha1. unfold top5_rec.
    by rewrite set_training_twice. }
  rewrite Hsame in Ht2. split; [by rewrite Hsame|]. split; [|exact Hw1].
  exists (top5_rec (net w) (args w) vl wl po).2. by split.
Qed.


(** ** Further properties of the script *)

(** *** The names of the checkpoint files *)

Lemma append_cons c (s t : string) : String c s +:+ t = String c (s +:+ t).
Proof. reflexivity. Qed.

Lemma str_app_assoc (s t u : string) : (s +:+ t) +:+ u = s +:+ t +:+ u.
Proof.
  induction s as [|c s IH]; [done|]. rewrite !append_cons. by f_equal.
Qed.

Lemma list_ascii_app (s t : string) :
  list_ascii_of_string (s +:+ t)
  = list_ascii_of_string s ++ list_ascii_of_string t.
Proof.
  induction s as [|c s IH]; [done|]. rewrite append_cons. simpl. by f_equal.
Qed.

Lemma length_list_ascii (s : string) :
  length (list_ascii_of_string s) = String.length s.
Proof. induction s as [|c s IH]; [done|]. simpl. by f_equal. Qed.

(** [(s + t)[:-n]] and [(s + t)[-n:]] when [t] has [n] characters. *)
Lemma str_slices_app n (s t : string) :
  String.length t = n →
  Py.str_until_last n (s +:+ t) = s ∧ Py.str_last n (s +:+ t) = t.
Proof.
  intros Hn. unfold Py.str_until_last, Py.str_last, Py.slice_until_last,
    Py.slice_last.
  rewrite list_ascii_app, length_app, !length_list_ascii, Hn.
  replace (String.length s + n - n)%nat
    with (length (list_ascii_of_string s))
    by (rewrite length_list_ascii; lia).
  rewrite take_app_length, drop_app_length.
  by rewrite !string_of_list_ascii_of_string.
Qed.


(** X1.  The resume path and [save_checkpoint] fit together.  [main]
    appends the layer suffix to [args.prefix] before anything is saved,
    and inserts the same suffix before the last 19 characters of
    [args.resume]; both names [save_checkpoint] gives its files end in 19
    characters after the prefix.  So a run given the checkpoint name, or
    the best-model name, of the plain prefix looks up exactly the file
    that a run with the same prefix and layers writes there. *)
Theorem resume_path_is_the_saved_file (a : Args) (tail : string) :
  tail = "_checkpoint.pth.tar" ∨ tail = "_model_best.pth.tar" →
  resume a = "./checkpoints/" +:+ prefix a +:+ tail →
  let pfx := prefix a +:+ "_" +:+ layer_suffix a in
  (tail = "_checkpoint.pth.tar" → resume_path a = checkpoint_file pfx)
  ∧ (tail = "_model_best.pth.tar" → resume_path a = best_file pfx)
  ∧ ∀ state w,
      trace (save_checkpoint state true pfx w).2
      = trace w ++ [ESave (checkpoint_file pfx) state;
                    ECopy (checkpoint_file pfx) (best_file pfx)].
Proof.
  intros Htail Hres pfx.
  assert (Hlen : String.length tail = 19%nat)
    by (destruct Htail as [-> | ->]; reflexivity).
  assert (Hpath : resume_path a = "./checkpoints/" +:+ pfx +:+ tail).
  { unfold resume_path. rewrite Hres.
    rewrite <- (str_app_assoc "./checkpoints/" (prefix a) tail).
    destruct (str_slices_app 19 ("./checkpoints/" +:+ prefix a) tail Hlen)
      as [-> ->].
    unfold pfx. by rewrite !str_app_assoc. }
  split; [by intros ->|]. split; [by intros ->|]. intros state w.
  unfold save_checkpoint. mrun. cbn [snd]. wsimpl.
  by rewrite <- app_assoc.
Qed.

(** *** Saving and resuming *)

Lemma checkpoint_of_items epoch w :
  checkpoint_of epoch w !! "epoch" = Some (VInt (epoch + 1))
  ∧ checkpoint_of epoch w !! "best_prec1" = Some (VNum (best_prec1 w))
  ∧ checkpoint_of epoch w !! "state_dict"
    = Some (VModel (state_dict (net w)))
  ∧ checkpoint_of epoch w !! "optimizer"
    = Some (VOptim (optimizer_state_dict (optimizer w))).
Proof.
  unfold checkpoint_of.
  repeat split;
    repeat (first [ rewrite lookup_insert_eq; reflexivity
                  | rewrite lookup_insert_ne by done ]).
Qed.

Lemma load_own_state_dict (n n0 : Net) :
  length (layer1 n0) = length (layer1 n) →
  length (layer2 n0) = length (layer2 n) →
  length (layer3 n0) = length (layer3 n) →
  length (layer4 n0) = length (layer4 n) →
  ∃ n', load_state_dict (state_dict n) n0 = Some n'
        ∧ training n' = training n0 ∧ layers n' = layers n0.
Proof.
  intros H1 H2 H3 H4. unfold load_state_dict, state_dict. cbn [fst snd fmap
    list_fmap stage].
  destruct (decide _) as [_|Hne].
  - eexists. split; [reflexivity|]. done.
  - exfalso. apply Hne. by rewrite !length_fmap.
Qed.

(** X2.  What [main] saves at the end of an epoch, it restores when it
    resumes: given the record [save_checkpoint] is passed after the
    epoch [epoch], under the path the resume logic looks up, a model
    with as many blocks in each stage takes over the saved parameters
    and buffers, the best score and the state of the optimizer, and the
    run continues with the epoch [epoch + 1].  The training flag, the
    layer counts and the list of parameters the optimizer was built with
    are those of the resuming run. *)
Theorem resume_restores_what_was_saved
  (disk : gmap string Checkpoint) (epoch : Z) (w w0 : World) :
  resume (args w0) ≠ EmptyString →
  disk !! resume_path (args w0) = Some (checkpoint_of epoch w) →
  length (layer1 (net w0)) = length (layer1 (net w)) →
  length (layer2 (net w0)) = length (layer2 (net w)) →
  length (layer3 (net w0)) = length (layer3 (net w)) →
  length (layer4 (net w0)) = length (layer4 (net w)) →
  ∃ w', resume_from disk w0 = (Ok tt, w')
    ∧ start_epoch (args w') = epoch + 1
    ∧ best_prec1 w' = best_prec1 w
    ∧ state_dict (net w') = state_dict (net w)
    ∧ optimizer_state_dict (optimizer w')
      = optimizer_state_dict (optimizer w)
    ∧ params (optimizer w') = params (optimizer w0)
    ∧ training (net w') = training (net w0)
    ∧ layers (net w') = layers (net w0)
    ∧ resume (args w') = resume_path (args w0).
Proof.
  intros Hne Hfile H1 H2 H3 H4.
  destruct (checkpoint_of_items epoch w) as (He & Hb & Hsd & Hopt).
  destruct (load_own_state_dict (net w) (net w0) H1 H2 H3 H4)
    as (n' & Hload & Htr & Hlay).
  unfold resume_from, item. mrun.
  destruct (decide _) as [|_]; [done|]. mrun. rewrite Hfile. mrun.
  rewrite He. mrun. rewrite Hb. mrun. rewrite Hsd. mrun. rewrite Hload.
  mrun. rewrite Hopt. mrun. eexists. split; [reflexivity|]. wsimpl.
  repeat split; try done. by apply state_dict_load in Hload.
Qed.

(** *** The learning rate *)

(** X3.  [adjust_learning_rate] divides the rate by 10 every 50 epochs
    (its docstring says 30): through the first 50 epochs the rate of the
    group is [args.lr], and the rate of an epoch is a tenth of the rate
    50 epochs earlier.  The parameters and the buffers of the optimizer
    and the model are left as they are, and nothing is raised. *)
Theorem learning_rate_drops_every_50_epochs (w : World) :
  let rate e := group_lr (optimizer (adjust_learning_rate e w).2) in
  (∀ e, 0 ≤ e < 50 → (rate e == lr (args w))%Q)
  ∧ (∀ e : Z, (rate (e + 50)%Z == rate e * (1 # 10))%Q)
  ∧ (∀ e, (adjust_learning_rate e w).1 = Ok tt
          ∧ params (optimizer (adjust_learning_rate e w).2)
            = params (optimizer w)
          ∧ bufs (optimizer (adjust_learning_rate e w).2)
            = bufs (optimizer w)
          ∧ net (adjust_learning_rate e w).2 = net w).
Proof.
  intros rate. unfold rate, adjust_learning_rate. split; [|split].
  - intros e He. mrun. cbn [snd]. wsimpl. cbn [group_lr].
    rewrite Z.div_small by lia. simpl. apply Qmult_1_r.
  - intros e. mrun. cbn [snd]. wsimpl. cbn [group_lr].
    replace ((e + 50) `div` 50) with (e `div` 50 + 1)
      by (rewrite <- (Z.div_add e 1 50) by lia; f_equal; lia).
    rewrite Qpower_plus by done.
    change (Qpower (1 # 10) 1) with (1 # 10)%Q. apply Qmult_assoc.
  - intros e. mrun. done.
Qed.

(** *** The numbering of the layers *)


Lemma norm_index_in_range len i :
  0 ≤ i < Z.of_nat len → Py.norm_index len i = Some (Z.to_nat i).
Proof.
  intros Hi. unfold Py.norm_index.
  destruct (0 <=? i) eqn:H0; [|lia]. destruct (i <? Z.of_nat len) eqn:H1; [|lia].
  done.
Qed.

Lemma positions_stages n :
  positions n
  = ((fun i => (1%nat, i)) <$> seq 0 (length (layer1 n)))
    ++ ((fun i => (2%nat, i)) <$> seq 0 (length (layer2 n)))
    ++ ((fun i => (3%nat, i)) <$> seq 0 (length (layer3 n)))
    ++ ((fun i => (4%nat, i)) <$> seq 0 (length (layer4 n))).
Proof. unfold positions. simpl. by rewrite app_nil_r. Qed.

Lemma stage_lookup (s : nat) len i :
  (i < len)%nat →
  ((fun i => (s, i)) <$> seq 0 len) !! i = Some (s, i).
Proof. intros Hi. by rewrite list_lookup_fmap, lookup_seq_lt. Qed.

Lemma locate_o_in_range (n : Net) (wl : Z) :
  counts_fit n →
  1 ≤ wl ≤ Z.of_nat (length (positions n)) →
  ∃ p, locate_o n wl = Ok (Some p)
       ∧ positions n !! Z.to_nat (wl - 1) = Some p.
Proof.
  intros Hfit Hwl. unfold locate_o.
  rewrite positions_stages in *.
  rewrite !length_app, !length_fmap, !length_seq in Hwl.
  rewrite Hfit. unfold select.
  set (l1 := length (layer1 n)) in *. set (l2 := length (layer2 n)) in *.
  set (l3 := length (layer3 n)) in *. set (l4 := length (layer4 n)) in *.
  destruct (wl <=? Z.of_nat l1) eqn:H1.
  { cbn [stage]. fold l1. rewrite norm_index_in_range by lia.
    eexists. split; [reflexivity|].
    rewrite lookup_app_l by (rewrite length_fmap, length_seq; lia).
    rewrite stage_lookup by lia. done. }
  rewrite lookup_app_r by (rewrite length_fmap, length_seq; lia).
  rewrite length_fmap, length_seq.
  destruct (wl <=? Z.of_nat l1 + Z.of_nat l2) eqn:H2.
  { cbn [stage]. fold l2. rewrite norm_index_in_range by lia.
    eexists. split; [reflexivity|].
    rewrite lookup_app_l by (rewrite length_fmap, length_seq; lia).
    rewrite stage_lookup by lia. do 2 f_equal. lia. }
  rewrite lookup_app_r by (rewrite length_fmap, length_seq; lia).
  rewrite length_fmap, length_seq.
  destruct (wl <=? Z.of_nat l1 + Z.of_nat l2 + Z.of_nat l3) eqn:H3.
  { cbn [stage]. fold l3. rewrite norm_index_in_range by lia.
    eexists. split; [reflexivity|].
    rewrite lookup_app_l by (rewrite length_fmap, length_seq; lia).
    rewrite stage_lookup by lia. do 2 f_equal. lia. }
  rewrite lookup_app_r by (rewrite length_fmap, length_seq; lia).
  rewrite length_fmap, length_seq.
  destruct (wl <=? Z.of_nat l1 + Z.of_nat l2 + Z.of_nat l3 + Z.of_nat l4)
    eqn:H4; [|lia].
  cbn [stage]. fold l4. rewrite norm_index_in_range by lia.
  eexists. split; [reflexivity|].
  rewrite stage_lookup by lia. do 2 f_equal. lia.
Qed.

(** X4.  The chain of comparisons that [get_param_list],
    [get_optimal_direction] and [print_concept_top5] share numbers the
    blocks from 1 in the order the forward pass runs them: when the
    layer counts are those of the stages, the layer [wl], from 1 to the
    number of blocks, selects the block of index [wl - 1] in forward
    order, and nothing is raised. *)
Theorem layer_number_counts_blocks_in_forward_order (n : Net) (wl : Z)
  (w : World) :
  counts_fit n →
  1 ≤ wl ≤ Z.of_nat (length (positions n)) →
  ∃ p, locate n wl w = (Ok (Some p), w)
       ∧ positions n !! Z.to_nat (wl - 1) = Some p.
Proof.
  intros Hfit Hwl. rewrite locate_run.
  destruct (locate_o_in_range n wl Hfit Hwl) as (p & Hloc & Hp).
  exists p. by rewrite Hloc.
Qed.

(** X5.  Layer numbers outside 1 .. number of blocks.  A number greater
    than the number of blocks takes no branch of the chain: nothing is
    selected and nothing is raised.  A number from [1 - len] to 0, [len]
    being the number of blocks of the first stage, takes the first
    branch with a negative index, which Python counts from the end:
    layer 0 is the last block of the first stage.  A smaller number
    raises [IndexError]. *)
Theorem layer_numbers_out_of_range (n : Net) (wl : Z) (w : World) :
  counts_fit n →
  let len := Z.of_nat (length (layer1 n)) in
  (Z.of_nat (length (positions n)) < wl → locate n wl w = (Ok None, w))
  ∧ (- len < wl ≤ 0 →
     locate n wl w = (Ok (Some (1%nat, Z.to_nat (len + wl - 1))), w))
  ∧ (wl ≤ - len → locate n wl w = (Raise IndexError, w)).
Proof.
  intros Hfit len. rewrite locate_run. unfold locate_o.
  rewrite positions_stages, !length_app, !length_fmap, !length_seq.
  rewrite Hfit. unfold select. fold len.
  set (l2 := length (layer2 n)). set (l3 := length (layer3 n)).
  set (l4 := length (layer4 n)).
  split; [|split]; intros Hwl.
  - destruct (wl <=? len) eqn:H1; [lia|].
    destruct (wl <=? len + Z.of_nat l2) eqn:H2; [lia|].
    destruct (wl <=? len + Z.of_nat l2 + Z.of_nat l3) eqn:H3; [lia|].
    destruct (wl <=? len + Z.of_nat l2 + Z.of_nat l3 + Z.of_nat l4) eqn:H4;
      [lia | done].
  - destruct (wl <=? len) eqn:H1; [|lia]. cbn [stage]. fold len.
    unfold Py.norm_index. fold len.
    destruct (0 <=? wl - 1) eqn:H0; [lia|]. cbn [andb].
    destruct (wl - 1 <? 0) eqn:H2; [|lia].
    destruct (0 <=? len + (wl - 1)) eqn:H3; [|lia]. cbn [andb opt mbind
      Outcome_bind]. do 4 f_equal. lia.
  - destruct (wl <=? len) eqn:H1; [|lia]. cbn [stage]. fold len.
    unfold Py.norm_index. fold len.
    destruct (0 <=? wl - 1) eqn:H0; [lia|]. cbn [andb].
    destruct (wl - 1 <? 0) eqn:H2; [|lia].
    destruct (0 <=? len + (wl - 1)) eqn:H3; [lia|]. done.
Qed.

(** *** [get_param_list] *)

Lemma whitened_params_in_range (n : Net) (whitened : list Z) (w : World) :
  counts_fit n →
  Forall (fun wl => 1 ≤ wl ≤ Z.of_nat (length (positions n))) whitened →
  ∃ ps, whitened_params n whitened w = (Ok (Bn1Params <$> ps), w)
    ∧ Forall2 (fun wl p => positions n !! Z.to_nat (wl - 1) = Some p)
              whitened ps.
Proof.
  intros Hfit Hall. induction Hall as [|wl wls Hwl Hall IH].
  - exists []. split; [done | constructor].
  - destruct IH as (ps & Hrun & Hps).
    destruct (locate_o_in_range n wl Hfit Hwl) as (p & Hloc & Hp).
    exists (p :: ps). split; [|by constructor].
    cbn [whitened_params].
    rewrite run_bind, locate_run, Hloc, run_bind, Hrun. done.
Qed.

(** X6.  [get_param_list] returns the parameters of [fc] first and then
    those of the [bn1] of each listed layer, in the order of the list
    and as often as a layer is listed: for layer numbers from 1 to the
    number of blocks of a model whose layer counts are those of its
    stages, the entry of a layer is the block of that number in forward
    order.  Nothing is raised and the state is left as it is. *)
Theorem get_param_list_lists_fc_then_the_layers (n : Net)
  (whitened : list Z) (w : World) :
  counts_fit n →
  Forall (fun wl => 1 ≤ wl ≤ Z.of_nat (length (positions n))) whitened →
  ∃ ps, get_param_list n whitened w
        = (Ok (FcParams :: (Bn1Params <$> ps)), w)
    ∧ Forall2 (fun wl p => positions n !! Z.to_nat (wl - 1) = Some p)
              whitened ps.
Proof.
  intros Hfit Hall. unfold get_param_list.
  destruct (whitened_params_in_range n whitened w Hfit Hall)
    as (ps & Hrun & Hps).
  exists ps. split; [|done]. by rewrite run_bind, Hrun.
Qed.

(** *** The best score *)




(** *** The meters *)

Lemma meter_update_bounds (lo hi : Q) (m : Meter.t) (v : Q) (n : Z) :
  0 ≤ Meter.count m → 0 < n → (lo <= v)%Q → (v <= hi)%Q →
  (lo * inject_Z (Meter.count m) <= Meter.sum m)%Q →
  (Meter.sum m <= hi * inject_Z (Meter.count m))%Q →
  ∃ m', Meter.update m v n = (Ok tt, m')
    ∧ Meter.count m' = Meter.count m + n
    ∧ Meter.val m' = v
    ∧ Meter.avg m' = (Meter.sum m' / inject_Z (Meter.count m'))%Q
    ∧ (lo * inject_Z (Meter.count m') <= Meter.sum m')%Q
    ∧ (Meter.sum m' <= hi * inject_Z (Meter.count m'))%Q.
Proof.
  intros Hc Hn Hlo Hhi Hs1 Hs2. unfold Meter.update.
  destruct (Meter.count m + n =? 0) eqn:H0; [lia|].
  eexists. split; [reflexivity|]. cbn [Meter.count Meter.val Meter.avg
    Meter.sum]. split; [done|]. split; [done|]. split; [done|].
  assert (Hpos : (0 <= inject_Z n)%Q)
    by (change 0%Q with (inject_Z 0); rewrite <- Zle_Qle; lia).
  assert (H1 : (lo * inject_Z n <= v * inject_Z n)%Q)
    by (by apply Qmult_le_compat_r).
  assert (H2 : (v * inject_Z n <= hi * inject_Z n)%Q)
    by (by apply Qmult_le_compat_r).
  rewrite !inject_Z_plus. split; lra.
Qed.

Lemma meter_updates_bounds (lo hi : Q) (us : list (Q * Z)) : ∀ m,
  Forall (fun u => 0 < u.2 ∧ (lo <= u.1)%Q ∧ (u.1 <= hi)%Q) us →
  0 ≤ Meter.count m →
  (lo * inject_Z (Meter.count m) <= Meter.sum m)%Q →
  (Meter.sum m <= hi * inject_Z (Meter.count m))%Q →
  ∃ m', Meter.updates m us = (Ok tt, m')
    ∧ Meter.count m' = Meter.count m + foldr Z.add 0 (snd <$> us)
    ∧ Meter.count m ≤ Meter.count m'
    ∧ (lo * inject_Z (Meter.count m') <= Meter.sum m')%Q
    ∧ (Meter.sum m' <= hi * inject_Z (Meter.count m'))%Q
    ∧ (us ≠ [] →
       0 < Meter.count m'
       ∧ Meter.avg m' = (Meter.sum m' / inject_Z (Meter.count m'))%Q
       ∧ Some (Meter.val m') = last (fst <$> us)).
Proof.
  induction us as [|[v n] us IH]; intros m Hall Hc Hs1 Hs2.
  - exists m. simpl. split; [done|]. split; [lia|]. split; [lia|].
    split; [done|]. split; [done|]. by intros H.
  - apply Forall_cons in Hall as [(Hn & Hlo & Hhi) Hall]. simpl in Hn, Hlo, Hhi.
    destruct (meter_update_bounds lo hi m v n Hc Hn Hlo Hhi Hs1 Hs2)
      as (m1 & Hup & Hc1 & Hv1 & Ha1 & Hb1 & Hb2).
    cbn [Meter.updates]. rewrite Hup.
    destruct (IH m1 Hall ltac:(lia) Hb1 Hb2)
      as (m' & Hrun & Hc' & Hle & Hb1' & Hb2' & Hlast).
    exists m'. split; [done|]. rewrite fmap_cons. cbn [foldr snd].
    split; [lia|]. split; [lia|]. split; [done|]. split; [done|].
    intros _. destruct us as [|u us'].
    + simpl in Hrun. injection Hrun as <-. split; [lia|]. split; [done|].
      simpl. by rewrite Hv1.
    + destruct Hlast as (Hpos & Havg & Hval); [done|].
      split; [done|]. split; [done|]. rewrite Hval. by destruct us'.
Qed.

(** X8.  [AverageMeter]: after [reset] and one or more calls of
    [update] with positive weights, nothing has been raised, [count] is
    the sum of the weights, [avg] is [sum / count] and lies between any
    two bounds that hold for all the values, and [val] is the value
    given last. *)
Theorem meter_average_lies_between_the_values (lo hi : Q)
  (us : list (Q * Z)) :
  us ≠ [] →
  Forall (fun u => 0 < u.2 ∧ (lo <= u.1)%Q ∧ (u.1 <= hi)%Q) us →
  ∃ m, Meter.updates Meter.reset us = (Ok tt, m)
    ∧ Meter.count m = foldr Z.add 0 (snd <$> us)
    ∧ Meter.avg m = (Meter.sum m / inject_Z (Meter.count m))%Q
    ∧ (lo <= Meter.avg m)%Q ∧ (Meter.avg m <= hi)%Q
    ∧ Some (Meter.val m) = last (fst <$> us).
Proof.
  intros Hne Hall.
  destruct (meter_updates_bounds lo hi us Meter.reset Hall)
    as (m & Hrun & Hc & _ & Hb1 & Hb2 & Hlast);
    [done | | |];
    [cbn [Meter.reset Meter.count Meter.sum];
     change (inject_Z 0) with 0%Q; lra ..|].
  destruct (Hlast Hne) as (Hpos & Havg & Hval).
  exists m. split; [done|]. split; [by rewrite Hc|]. split; [done|].
  assert (H0 : (0 < inject_Z (Meter.count m))%Q)
    by (change 0%Q with (inject_Z 0); by rewrite <- Zlt_Qlt).
  rewrite Havg. split; [by apply Qle_shift_div_l|].
  split; [by apply Qle_shift_div_r | done].
Qed.


(** *** The export of the top 50 *)

Lemma ranking_rec_run n a cfg (act : Pos → Batch → Tensor)
  (C H W : Pos → nat) vl ll po :
  in_forward_order n cfg → length cfg = length ll → ll ≠ [] →
  (∀ b path p, (b, path) ∈ vl → p ∈ cfg →
     cap_at n p b = Ok (CapTensor (act p b))
     ∧ shape (act p b) = [length path; C p; H p; W p]) →
  (∀ k p, k ∈ top5_axes po → p ∈ cfg → k < Z.of_nat (C p)) →
  (50 ≤ length (vl ≫= snd))%nat →
  ranking_rec n a cfg vl ll po
  = (Ok tt,
     k ← top5_axes po;
     axis_events n (top5_folder a ll po) (top5_suffix po k) vl ll
       (top_sources act cfg vl (Z.to_nat k))).
Proof.
  intros Hord Hlen Hll Hcap Hk H50. unfold ranking_rec.
  apply rec_for_ok. intros k Hin.
  assert (H0 : 0 ≤ k).
  { unfold top5_axes, Py.range in Hin.
    destruct po; apply list_elem_of_fmap in Hin as (j & -> & _); lia. }
  rewrite <- (Z2Nat.id k H0) at 1.
  apply (axis_rec_run n cfg act (fun p => (C p, H p, W p))); try done.
  intros b path p Hb Hp. destruct (Hcap b path p Hb Hp) as [Hc Hsh].
  split; [done|]. split; [done|]. cbn [fst snd].
  specialize (Hk k p Hin Hp). lia.
Qed.

(** X13.  The export of the top 50.  Let the model have no whitening
    layer in CALIBRATE mode and no hooks but those of earlier exports,
    let every listed layer name a block and the blocks be listed in the
    order the forward pass runs them, let the hook on the block [p]
    capture for every batch [b] a tensor [act p b] of shape
    (B, C, H, W), B being the number of paths of the batch, with every
    inspected axis below C and H * W positive, and let the validation
    set hold at least 50 images.  Then [print_concept_top5] returns 0,
    and what it records is: for every inspected axis, one forward pass
    per batch and then, layer by layer, exactly 50 copies, whose
    destinations are named after the layer and the ranks 1 to 50 and
    whose sources are the first 50 images when all images are ordered
    by descending spatial mean of the axis at that layer, images of
    equal mean in the order of iteration. *)
Theorem export_copies_the_50_images_of_greatest_mean
  (vl : list (Batch * list string)) (wl : string) (po : bool) (w : World)
  (cfg : list Pos) (act : Pos → Batch → Tensor) (C H W : Pos → nat) :
  let n := set_training false (net w) in
  let ll := Py.split "," wl in
  let folder := top5_folder (args w) ll po in
  rankable wl w →
  located n ll = Ok cfg → length cfg = length ll →
  in_forward_order n cfg →
  (∀ b path p, (b, path) ∈ vl → p ∈ cfg →
     cap_at n p b = Ok (CapTensor (act p b))
     ∧ shape (act p b) = [length path; C p; H p; W p]) →
  (∀ k p, k ∈ top5_axes po → p ∈ cfg → k < Z.of_nat (C p)) →
  (∀ p, p ∈ cfg → (0 < H p * W p)%nat) →
  (50 ≤ length (vl ≫= snd))%nat →
  ∃ w' (top : Z → nat → list string),
    print_concept_top5 vl wl po w = (Ok 0, w')
    ∧ trace w'
      = trace w ++ [ETop5Begin; EModelEval; ENoGrad true]
        ++ (k ← top5_axes po;
            axis_events n folder (top5_suffix po k) vl ll (top k))
        ++ [ENoGrad false; ETop5End]
    ∧ ∀ k i p, k ∈ top5_axes po → cfg !! i = Some p →
        length (top k i) = 50%nat
        ∧ ∃ order,
            ranks (image_means act (Z.to_nat k) p vl) order
            ∧ Forall2 (fun idx src => (vl ≫= snd) !! idx = Some src)
                      (take 50 order) (top k i).
Proof.
  intros n ll folder Hw Hloc Hlen Hord Hcap Hk Hhw H50.
  destruct (print_concept_top5_run vl wl po w Hw)
    as (w' & Hrun & Htr & _).
  pose proof (ranking_rec_run n (args w) cfg act C H W vl ll po Hord Hlen
                (split_nonempty _ _) Hcap Hk H50) as Hrec.
  unfold top5_rec in Hrun, Htr. fold n ll in Hrun, Htr.
  rewrite Hloc, Hrec in Hrun, Htr. cbn [fst snd] in Hrun, Htr.
  exists w', (fun k => top_sources act cfg vl (Z.to_nat k)).
  split; [exact Hrun|]. split; [exact Htr|].
  intros k i p Hin Hp. unfold top_sources.
  rewrite list_lookup_fmap, Hp. cbn [fmap option_fmap option_map default
    from_option id].
  split.
  - rewrite length_fmap, length_take.
    rewrite (Permutation_length (sort_reverse_perm fst _)).
    rewrite length_zip_with, length_image_sums. lia.
  - apply (top_of_layer act (Z.to_nat k) p vl (C p) (H p) (W p)).
    + intros b path Hb. apply (Hcap b path p Hb). by eapply list_elem_of_lookup_2.
    + apply Hhw. by eapply list_elem_of_lookup_2.
Qed.

(** *** The sort of the ranking *)

(** X12.  Lines 506 and 507: the scores of the layer of index [i] are
    paired with the paths and sorted by [sort(key, reverse=True)].  With
    one score per path the sorted list holds every image once, by
    descending score, images of equal score in the order they were
    iterated.  Before any batch was seen [vals] is [None] and indexing
    it raises [TypeError]; an index beyond the rows raises
    [IndexError]. *)
Theorem layer_ranking_is_stable_and_descending
  (rows : list (list Q)) (paths : list string) (i : Z) :
  (∀ row, rows !! Z.to_nat i = Some row → length row = length paths →
     ∃ arr order,
       layer_ranking (Some rows) paths i = Ok arr
       ∧ ranks row order
       ∧ Forall2 (fun idx e => row !! idx = Some e.1
                               ∧ paths !! idx = Some e.2) order arr)
  ∧ (rows !! Z.to_nat i = None →
     layer_ranking (Some rows) paths i = Raise IndexError)
  ∧ layer_ranking None paths i = Raise TypeError.
Proof.
  unfold layer_ranking. split; [|split].
  - intros row Hrow Hlen. cbn [opt mbind Outcome_bind]. rewrite Hrow.
    destruct (sort_ranks row paths Hlen) as (order & Hranks & Hall).
    exists (Py.sort_reverse fst (zip row paths)), order. done.
  - intros Hrow. cbn [opt mbind Outcome_bind]. by rewrite Hrow.
  - reflexivity.
Qed.

(** *** The names of the copies *)

Lemma append_inj_r (s1 s2 t : string) : s1 +:+ t = s2 +:+ t → s1 = s2.
Proof.
  intros Heq. apply (f_equal list_ascii_of_string) in Heq.
  rewrite !list_ascii_app in Heq. apply app_inv_tail in Heq.
  apply (f_equal string_of_list_ascii) in Heq.
  by rewrite !string_of_list_ascii_of_string in Heq.
Qed.

(** X17.  The copies of a layer never overwrite one another: for one
    folder, layer and suffix, different ranks give different file
    names. *)
Theorem copy_names_differ_by_rank (folder layer suffix : string) (j j' : Z) :
  j ≠ j' →
  copy_name folder layer suffix j ≠ copy_name folder layer suffix j'.
Proof.
  unfold copy_name, Py.str. intros Hne Heq.
  do 4 apply (inj (String.app _)) in Heq.
  rewrite <- !str_app_assoc in Heq. apply append_inj_r in Heq.
  apply append_inj_r in Heq. apply (inj pretty) in Heq. lia.
Qed.

(** *** The hooks after an export *)

(** X16.  [print_concept_top5] never removes the hooks it registers:
    whether it returns or raises after the registration, the hooks in
    place afterwards are those it found followed by one for each listed
    layer, all appending to the list of this call.  A second call adds
    as many again, so that every listed block then carries the hooks of
    both calls. *)
Theorem export_never_removes_its_hooks
  (vl : list (Batch * list string)) (wl : string) (po : bool) (w : World)
  (cfg : list Pos) :
  rankable wl w →
  located (set_training false (net w)) (Py.split "," wl) = Ok cfg →
  let w1 := (print_concept_top5 vl wl po w).2 in
  let w2 := (print_concept_top5 vl wl po w1).2 in
  hooks w1 = hooks w ++ tag (length (cells w)) cfg
  ∧ hooks w2
    = hooks w ++ tag (length (cells w)) cfg ++ tag (length (cells w1)) cfg
  ∧ ∀ p, length (hooks_at p (hooks w2))
         = (length (hooks_at p (hooks w)) + 2 * times p cfg)%nat.
Proof.
  intros Hw Hloc w1 w2.
  destruct (print_concept_top5_run vl wl po w Hw)
    as (w1' & Hr1 & _ & Hn1 & _ & Hw1 & Hh1).
  assert (Hw1' : w1 = w1') by (unfold w1; by rewrite Hr1).
  destruct (print_concept_top5_run vl wl po w1' Hw1)
    as (w2' & Hr2 & _ & _ & _ & _ & Hh2).
  assert (Hw2' : w2 = w2') by (unfold w2; by rewrite Hw1', Hr2).
  specialize (Hh1 cfg Hloc). rewrite Hn1, set_training_twice in Hh2.
  specialize (Hh2 cfg Hloc). rewrite Hw1', Hw2'.
  split; [exact Hh1|]. split; [by rewrite Hh2, Hh1, <- app_assoc|].
  intros p. rewrite Hh2, Hh1, !hooks_at_app, !length_app, !hooks_at_tag.
  rewrite !length_replicate. lia.
Qed.

(** *** Validation sets that are too small *)

Lemma rec_for_raise {A} (x : A) (xs : list A) (body : A → Rec unit) e evs :
  body x = (Raise e, evs) → rec_for (x :: xs) body = (Raise e, evs).
Proof. intros Hx. cbn [rec_for]. by rewrite Hx. Qed.

Lemma top5_axes_first po :
  ∃ more, top5_axes po = (if po then 1 else 0) :: more.
Proof. destruct po; eexists; reflexivity. Qed.

(** X15.  With an empty validation set the export raises [TypeError]:
    the loop over the batches leaves [vals] at [None], and the first
    layer indexes it.  The hooks are registered by then, no forward pass
    has run and nothing is copied. *)
Theorem export_of_an_empty_set_raises
  (wl : string) (po : bool) (w : World) (cfg : list Pos) :
  rankable wl w →
  located (set_training false (net w)) (Py.split "," wl) = Ok cfg →
  ∃ w', print_concept_top5 [] wl po w = (Raise TypeError, w')
    ∧ trace w'
      = trace w ++ [ETop5Begin; EModelEval; ENoGrad true; ENoGrad false]
    ∧ hooks w' = hooks w ++ tag (length (cells w)) cfg.
Proof.
  intros Hw Hloc.
  destruct (print_concept_top5_run [] wl po w Hw)
    as (w' & Hrun & Htr & _ & _ & _ & Hh).
  exists w'. unfold top5_rec in Hrun, Htr. rewrite Hloc in Hrun, Htr.
  assert (Hrec : ranking_rec (set_training false (net w)) (args w) cfg []
                   (Py.split "," wl) po = (Raise TypeError, [])).
  { unfold ranking_rec. destruct (top5_axes_first po) as (more & ->).
    apply rec_for_raise. cbn [enumerate_from collect_rec rec_bind snd fst].
    destruct (Py.split "," wl) as [|layer ll] eqn:Hll;
      [by apply split_nonempty in Hll|].
    cbn [enumerate_from]. by rewrite (rec_for_raise _ _ _ TypeError []). }
  rewrite Hrec in Hrun, Htr. cbn [fst snd app] in Hrun, Htr.
  split; [exact Hrun|]. split; [exact Htr | by apply Hh].
Qed.

Lemma axis_rec_short n cfg (act : Pos → Batch → Tensor)
  (sh : Pos → nat * nat * nat) (k : nat) vl layer ll folder suffix :
  in_forward_order n cfg → length cfg = length (layer :: ll) →
  (∀ b path p, (b, path) ∈ vl → p ∈ cfg →
     cap_at n p b = Ok (CapTensor (act p b))
     ∧ shape (act p b) = [length path; (sh p).1.1; (sh p).1.2; (sh p).2]
     ∧ (k < (sh p).1.1)%nat) →
  vl ≠ [] → (length (vl ≫= snd) < 50)%nat →
  rec_bind (collect_rec n cfg (Z.of_nat k) (enumerate_from 0 vl) [] None)
    (fun pv =>
       rec_for (enumerate_from 0 (layer :: ll))
         (export_rec folder suffix pv.2 pv.1))
  = (Raise IndexError,
     forwards n vl
     ++ copy_events folder layer suffix (top_sources act cfg vl k 0)).
Proof.
  intros Hord Hlen Hcap Hvl Hshort.
  assert (Hcfg : cfg ≠ []) by (by destruct cfg).
  rewrite (collect_rec_scores n cfg act sh k Hcfg Hord vl 0 [] None
             (fun _ => [])); [|done|lia|done|done].
  destruct vl as [|b0 vl0] eqn:Hvleq; [done|]. rewrite <- Hvleq in *.
  cbn [rec_bind app fst snd enumerate_from].
  destruct cfg as [|p cfg'] eqn:Hcfgeq; [done|]. rewrite <- Hcfgeq in *.
  assert (Hrow : ((fun p => [] ++ image_sums act k p vl) <$> cfg)
                 !! Z.to_nat 0 = Some (image_sums act k p vl))
    by (by rewrite Hcfgeq).
  rewrite (rec_for_raise _ _ _ IndexError
             (copy_events folder layer suffix (top_sources act cfg vl k 0)));
    [done|].
  rewrite (export_rec_run _ _ _ _ _ _ _ Hrow).
  rewrite length_zip_with, length_image_sums.
  destruct (decide _) as [|_]; [lia|]. f_equal.
  unfold top_sources. by rewrite Hcfgeq.
Qed.

(** X14.  With fewer than 50 images the export raises [IndexError]:
    under the conditions of X13 but with a validation set of 1 to 49
    images, it runs the forward passes of the first axis, copies every
    image for the first layer, in the order of the ranking, and raises
    when it reads the entry after the last.  The other layers and axes
    are not exported. *)
Theorem export_of_fewer_than_50_images_raises
  (vl : list (Batch * list string)) (wl : string) (po : bool) (w : World)
  (cfg : list Pos) (act : Pos → Batch → Tensor) (C H W : Pos → nat) :
  let n := set_training false (net w) in
  let ll := Py.split "," wl in
  let k := if po then 1%nat else 0%nat in
  rankable wl w →
  located n ll = Ok cfg → length cfg = length ll →
  in_forward_order n cfg →
  (∀ b path p, (b, path) ∈ vl → p ∈ cfg →
     cap_at n p b = Ok (CapTensor (act p b))
     ∧ shape (act p b) = [length path; C p; H p; W p]) →
  (∀ p, p ∈ cfg → (k < C p)%nat ∧ (0 < H p * W p)%nat) →
  vl ≠ [] → (length (vl ≫= snd) < 50)%nat →
  ∃ w' layer p srcs order,
    head ll = Some layer ∧ head cfg = Some p
    ∧ print_concept_top5 vl wl po w = (Raise IndexError, w')
    ∧ trace w'
      = trace w ++ [ETop5Begin; EModelEval; ENoGrad true]
        ++ forwards n vl
        ++ copy_events (top5_folder (args w) ll po) layer
             (top5_suffix po (Z.of_nat k)) srcs
        ++ [ENoGrad false]
    ∧ ranks (image_means act k p vl) order
    ∧ Forall2 (fun idx src => (vl ≫= snd) !! idx = Some src) order srcs.
Proof.
  intros n ll k Hw Hloc Hlen Hord Hcap Hk Hvl Hshort.
  destruct (print_concept_top5_run vl wl po w Hw)
    as (w' & Hrun & Htr & _).
  unfold top5_rec in Hrun, Htr. fold n ll in Hrun, Htr.
  rewrite Hloc in Hrun, Htr.
  destruct ll as [|layer ll'] eqn:Hll; [by apply split_nonempty in Hll|].
  destruct cfg as [|p cfg'] eqn:Hcfg; [done|]. rewrite <- Hcfg in *.
  assert (Hp : p ∈ cfg) by (rewrite Hcfg; left).
  assert (Hrec : ranking_rec n (args w) cfg vl (layer :: ll') po
    = (Raise IndexError,
       forwards n vl
       ++ copy_events (top5_folder (args w) (layer :: ll') po) layer
            (top5_suffix po (Z.of_nat k)) (top_sources act cfg vl k 0))).
  { unfold ranking_rec. destruct (top5_axes_first po) as (more & ->).
    apply rec_for_raise.
    replace (if po then 1 else 0) with (Z.of_nat k) by (by destruct po).
    apply (axis_rec_short n cfg act (fun p => (C p, H p, W p))); try done.
    intros b path q Hb Hq. destruct (Hcap b path q Hb Hq) as [Hc Hsh].
    split; [done|]. split; [done|]. apply Hk, Hq. }
  rewrite Hrec in Hrun, Htr. cbn [fst snd] in Hrun, Htr.
  destruct (sort_ranks (image_sums act k p vl) (vl ≫= snd)
              (length_image_sums act k p vl)) as (order & Hranks & Hall).
  exists w', layer, p, (top_sources act cfg vl k 0), order.
  split; [done|]. split; [by rewrite Hcfg|]. split; [exact Hrun|].
  split; [by rewrite Htr, <- !app_assoc|]. split.
  - rewrite (image_means_sums act k p vl (C p) (H p) (W p)).
    + apply ranks_scale; [|done].
      change 0%Q with (inject_Z 0). rewrite <- Zlt_Qlt.
      destruct (Hk p Hp). lia.
    + intros b path Hb. by apply Hcap.
  - unfold top_sources. rewrite Hcfg. cbn [fmap list_fmap lookup list_lookup
      default from_option id].
    rewrite take_ge.
    + apply Forall2_fmap_r. eapply Forall2_impl; [exact Hall|].
      by intros idx e [_ He].
    + rewrite (Permutation_length (sort_reverse_perm fst _)).
      rewrite length_zip_with, length_image_sums. lia.
Qed.

(** *** The steps of an epoch *)

Lemma count_events_app f (a b : list Event) :
  count_events f (a ++ b) = (count_events f a + count_events f b)%nat.
Proof. unfold count_events. by rewrite List.filter_app, length_app. Qed.

Lemma interleaving_counts k g (cl : nat → list Batch) (bs : list Batch) :
  (∀ j, cl j ≠ []) →
  ∀ j cp ms, 0 ≤ j →
    let evs := interleaving k g cl cp ms (enumerate_from j bs) in
    count_events is_step evs = length bs
    ∧ count_events (is_forward InTrain) evs = length bs
    ∧ Z.of_nat (count_events (is_forward InCalibrate) evs)
      = (j + Z.of_nat (length bs)) `div` 2 - j `div` 2.
Proof.
  intros Hcl. induction bs as [|b bs IH]; intros j cp ms Hj evs.
  - unfold evs. simpl. rewrite Z.add_0_r. repeat split; try done.
    unfold count_events. simpl. lia.
  - unfold evs. cbn [enumerate_from]. rewrite interleaving_cons.
    destruct ((j + 1) `mod` 2 =? 0) eqn:Hodd.
    + apply Z.eqb_eq in Hodd.
      destruct (IH (j + 1) (S cp) (replicate k NORMAL) ltac:(lia))
        as (H1 & H2 & H3).
      rewrite !count_events_app, H1, H2.
      unfold calibration_events.
      destruct (cl cp) as [|X more] eqn:HX; [by apply Hcl in HX|].
      cbn [length]. split; [done|]. split; [done|].
      rewrite !Nat2Z.inj_add, H3. cbn [count_events List.filter is_forward
        app length batch_events].
      pose proof (div2_step_odd j Hj Hodd).
      replace (j + Z.of_nat (S (length bs)))
        with (j + 1 + Z.of_nat (length bs)) by lia.
      simpl. lia.
    + apply Z.eqb_neq in Hodd.
      destruct (IH (j + 1) cp ms ltac:(lia)) as (H1 & H2 & H3).
      rewrite !count_events_app, H1, H2. cbn [length].
      split; [done|]. split; [done|].
      rewrite !Nat2Z.inj_add, H3.
      pose proof (div2_step_even j Hj Hodd).
      replace (j + Z.of_nat (S (length bs)))
        with (j + 1 + Z.of_nat (length bs)) by lia.
      change (count_events (is_forward InCalibrate)
                (batch_events b true ms g)) with 0%nat.
      lia.
Qed.

(** X19.  One call of [train], no hook being registered and the
    concept loader never empty: for the [N] batches of the training
    loader there are [N] forward passes of training batches and [N]
    optimizer steps, and [N // 2] forward passes of concept batches, one
    before every second batch; the model is left in training mode. *)
Theorem train_steps_once_per_batch_and_calibrates_every_second
  (tl cl : nat → list Batch) (w : World) :
  hooks w = [] → (∀ j, cl j ≠ []) →
  ∃ w' evs,
    train tl cl w = (Ok tt, w')
    ∧ trace w' = trace w ++ evs
    ∧ training (net w') = true
    ∧ count_events is_step evs = length (tl (train_passes w))
    ∧ count_events (is_forward InTrain) evs = length (tl (train_passes w))
    ∧ Z.of_nat (count_events (is_forward InCalibrate) evs)
      = Z.of_nat (length (tl (train_passes w))) `div` 2.
Proof.
  intros Hh Hcl.
  destruct (train_run tl cl w Hh)
    as (w' & Hrun & _ & Htr & _ & _ & _ & _ & _ & _ & Ht).
  eexists w', _. split; [exact Hrun|]. split; [exact Ht|].
  split; [exact Htr|].
  destruct (interleaving_counts (length (modes (net w))) (grad_enabled w)
              cl (tl (train_passes w)) Hcl 0 (concept_passes w)
              (modes (net w)) ltac:(lia)) as (H1 & H2 & H3).
  change (EModelTrain :: ?l) with ([EModelTrain] ++ l).
  rewrite !count_events_app, H1, H2.
  change (count_events is_step [EModelTrain]) with 0%nat.
  change (count_events (is_forward InTrain) [EModelTrain]) with 0%nat.
  change (count_events (is_forward InCalibrate) [EModelTrain]) with 0%nat.
  split; [done|]. split; [done|].
  rewrite Nat2Z.inj_add, H3, Z.add_0_l. change (0 `div` 2) with 0.
  by rewrite Z.add_0_l, Z.sub_0_r.
Qed.

(** *** [validate] *)

(** X18.  [validate], no hook being registered: every batch of the
    loader is forwarded once, in its order, with the model in evaluation
    mode and gradient tracking off; the score returned is the one of the
    model in evaluation mode; the parameters and running statistics of
    the classification path, the modes, the optimizer and the best score
    are left as they were, the gradient switch is restored, and the
    model stays in evaluation mode. *)
Theorem validate_evaluates_without_training (vl : list Batch) (w : World) :
  hooks w = [] →
  ∃ w', validate vl w
        = (Ok (top1_avg (set_training false (net w)) vl), w')
    ∧ trace w'
      = trace w ++ [EModelEval; ENoGrad true]
        ++ ((fun b => EForward InValidate b false (modes (net w)) false)
            <$> vl)
        ++ [ENoGrad false]
    ∧ classification_state (net w') = classification_state (net w)
    ∧ modes (net w') = modes (net w)
    ∧ training (net w') = false
    ∧ grad_enabled w' = grad_enabled w
    ∧ optimizer w' = optimizer w
    ∧ best_prec1 w' = best_prec1 w.
Proof.
  intros Hh. unfold validate, model_eval, no_grad. mrun.
  match goal with |- context [for_each vl _ ?x] =>
    destruct (forward_loop_run InValidate vl x) as (o & w1 & -> & Hok & Hk)
  end.
  wsimpl. rewrite (Hok Hh) in *. specialize (Hk eq_refl). mrun.
  eexists. split; [reflexivity|]. wsimpl.
  destruct Hk as (a1&b1&c1&d1&e1&f1&g1&h1&i1&j1&k1&l1).
  match type of a1 with context [logs ?evs ?x] =>
    destruct (logs_fields evs x) as (la&lb&lc&ld&le&lf&lg&lh&li&lj) end.
  rewrite lb in b1. rewrite ld in c1. rewrite lc in i1, j1, k1.
  rewrite lj in h1. wsimpl.
  rewrite h1, c1, b1, i1, (modes_per_block _ _ j1), (k1 eq_refl).
  repeat split; try done.
  unfold forward_event. simpl. by rewrite <- !app_assoc.
Qed.

(** *** What [main] builds before the loop *)



(** *** The layer suffix *)


Lemma join_cons_nonempty sep (p q : string) (ps : list string) :
  Py.join sep (p :: q :: ps) = p +:+ sep +:+ Py.join sep (q :: ps).
Proof. reflexivity. Qed.

(** X22.  The suffix [main] appends to the prefix and inserts into the
    resume path, ['_'.join(args.whitened_layers.split(','))], is the
    list of layers as given with every comma replaced by an underscore:
    it has the same length, and empty fields are kept. *)
Theorem layer_suffix_replaces_commas (a : Args) :
  layer_suffix a = underscored (whitened_layers a)
  ∧ String.length (layer_suffix a) = String.length (whitened_layers a).
Proof.
  unfold layer_suffix.
  assert (H : ∀ s, Py.join "_" (Py.split "," s) = underscored s).
  { induction s as [|c s IH]; [done|]. cbn [Py.split underscored].
    pose proof (split_nonempty "," s) as Hne.
    destruct (Ascii.eqb c ",") eqn:Hc.
    - destruct (Py.split "," s) as [|q qs] eqn:Hs; [done|].
      rewrite join_cons_nonempty, IH. done.
    - destruct (Py.split "," s) as [|q qs] eqn:Hs; [done|].
      rewrite <- IH. destruct qs as [|q' qs']; [done|].
      by rewrite !join_cons_nonempty. }
  rewrite H. split; [done|].
  induction (whitened_layers a) as [|c s IH]; [done|]. simpl. by rewrite IH.
Qed.

End Script.

(** ** A small instance

  A backbone of four stages of one block each, whose first three blocks
  are whitening layers with one channel and the identity rotation.  The
  collaborators are the simplest ones: every block sees the batch as it
  is, whitening and the updates of statistics, rotation and parameters
  change nothing, and the accuracy is 0. *)
Module Toy.

Definition input (p : Pos) (n : @Net unit unit) (b : Tensor) : Tensor := b.
Definition whiten_batch (x : Tensor) : Tensor := x.
Definition whiten_running (st : unit) (x : Tensor) : Tensor := x.
Definition ema (st : unit) (x : Tensor) : unit := st.
Definition update_rot (r x : Tensor) : Tensor := r.
Definition sgd_param (o : @Optimizer unit) (n : @Net unit unit)
  (b : Tensor) (r : ParamRef) (v : unit) : unit := v.
Definition sgd_bufs (o : @Optimizer unit) (n : @Net unit unit)
  (b : Tensor) : unit := tt.
Definition top1_avg (n : @Net unit unit) (vl : list Tensor) : Q := 0%Q.

Definition rot1 : Tensor := mkTensor [1; 1; 1]%nat [1%Q].

Definition block (cw : bool) : bool * @NormState unit unit * unit :=
  (cw, mkNormState tt tt rot1, tt).

Definition bp : @Blueprint unit unit :=
  ((1, 1, 1, 1), [[block true]; [block true]; [block true]; [block false]],
   tt, tt).

Definition args0 : Args :=
  mkArgs "resnet" "1,2,3" 100 0 (1 # 10) "" "cw".

Definition args_resume : Args :=
  mkArgs "resnet" "1,2,3" 100 0 (1 # 10)
         "./checkpoints/cw_checkpoint.pth.tar" "cw".

(** A batch of images of one channel and one pixel, given by their
    values. *)
Definition images (vals : list Q) : Tensor :=
  mkTensor [length vals; 1; 1; 1]%nat vals.

Definition train_loader (pass : nat) : list Tensor :=
  [images [1]; images [2]; images [3]; images [4]]%Q.

Definition concept_loader (pass : nat) : list Tensor :=
  [images [inject_Z (Z.of_nat pass)]; images [7%Q]].

Definition val_loader : list Tensor := [images [5; 6]%Q].

Definition world0 : @World Tensor unit unit unit := fresh_world args0 bp tt.

Definition sd7 : @StateDict unit unit :=
  ([[(mkNormState tt tt rot1, tt)]; [(mkNormState tt tt rot1, tt)];
    [(mkNormState tt tt rot1, tt)]; [(mkNormState tt tt rot1, tt)]], tt, tt).

(** A record saved after epoch 6, without and with the state of the
    optimizer. *)
Definition ck7 : @Checkpoint unit unit unit :=
  <["epoch" := VInt 7]> (<["arch" := VStr "resnet"]>
  (<["state_dict" := VModel sd7]> (<["best_prec1" := VNum (1 # 2)]> ∅))).

Definition ck7_opt : @Checkpoint unit unit unit :=
  <["optimizer" := VOptim ((1 # 100)%Q, tt)]> ck7.

Definition disk7 : gmap string (@Checkpoint unit unit unit) :=
  {[ "./checkpoints/cw_1_2_3_checkpoint.pth.tar"%string := ck7 ]}.

Definition run_train :=
  train input whiten_batch whiten_running ema update_rot sgd_param sgd_bufs.


End Toy.

(** C1 on the small instance: the second batch of the epoch. *)
Lemma train_calibrates_witness :
hooks Toy.world0 = []
∧ (∀ j, Toy.concept_loader j ≠ [])
∧ ∃ (w' : @World Tensor unit unit unit) pre post,
    Toy.run_train Toy.train_loader Toy.concept_loader Toy.world0
    = (Ok tt, w')
    ∧ trace w'
      = pre
        ++ [EModelEval; EChangeMode 1; ENoGrad true;
            EForward InCalibrate (Toy.images [0%Q]) false [1; 1; 1] false;
            ENoGrad false; EChangeMode 0; EModelTrain;
            EForward InTrain (Toy.images [2%Q]) true [0; 0; 0] true]
        ++ post.
Proof.
split; [reflexivity|]. split; [by intros j|].
destruct (train_calibrates_before_every_second_batch
            Toy.input Toy.whiten_batch Toy.whiten_running Toy.ema
            Toy.update_rot Toy.sgd_param Toy.sgd_bufs
            Toy.train_loader Toy.concept_loader Toy.world0
            eq_refl ltac:(by intros j))
  as (w' & Hrun & _ & Hat).
destruct (Hat 1%nat (Toy.images [2%Q]) eq_refl eq_refl)
  as (pre & post & X & more & HX & Ht).
injection HX as <- _.
exists w', pre, post. split; [exact Hrun | exact Ht].
Defined.



(** C7 on the small instance: a record without the state of the
  optimizer. *)
Lemma resume_loads_checkpoint_witness :
let w : @World Tensor unit unit unit :=
  fresh_world Toy.args_resume Toy.bp tt in
resume (args w) ≠ EmptyString
∧ Toy.disk7 !! resume_path (args w) = Some Toy.ck7
∧ Toy.ck7 !! "optimizer" = None
∧ ∃ w', resume_from Toy.disk7 w = (Ok tt, w')
    ∧ start_epoch (args w') = 7 ∧ best_prec1 w' = (1 # 2)%Q
    ∧ state_dict (net w') = Toy.sd7
    ∧ optimizer w' = optimizer w.
Proof.
intros w. split; [done|]. split; [by vm_compute|]. split; [by vm_compute|].
destruct (resume_loads_checkpoint Toy.disk7 w Toy.ck7 7 (1 # 2)%Q Toy.sd7
            (net w))
  as (w' & Hrun & He & Hb & _ & Hsd & Ho);
  [done | by vm_compute | by vm_compute | by vm_compute | by vm_compute
  | by vm_compute | left; by vm_compute |].
exists w'. replace (Toy.ck7 !! "optimizer") with (@None (@PyVal unit unit unit))
  in Ho by (by vm_compute).
done.
Defined.


(** The list of [get_optimal_direction] accumulates: with one hooked
    layer and two concept batches, the capture of the first batch is
    still in the list when the second forward pass has run. *)
Lemma direction_list_accumulates_counterexample :
  let batches (pass : nat) :=
    [mkTensor [1; 128; 1; 1]%nat (replicate 128 1%Q);
     mkTensor [1; 128; 1; 1]%nat (replicate 128 3%Q)] in
  ∃ mean w' first second,
    get_optimal_direction Toy.input Toy.whiten_batch Toy.whiten_running
      Toy.ema Toy.update_rot batches "1" Toy.world0 = (Ok mean, w')
    ∧ hooks w' = [((1%nat, 0%nat), DirectionHook 0)]
    ∧ cells w' = [[CapMean first; CapMean second]]
    ∧ first !! 0%nat = Some (1 / 1)%Q ∧ second !! 0%nat = Some (3 / 1)%Q.
Proof.
  intros batches. eexists _, _, _, _.
  split; [by vm_compute|]. by vm_compute.
Qed.

(** X10 on the small instance: a hook on the first block in evaluation
    mode. *)
Lemma hook_leaves_model_witness :
  let w : @World Tensor unit unit unit :=
    set_net (set_training false) Toy.world0 in
  training (net w) = false
  ∧ net (run_hook Toy.whiten_batch Toy.whiten_running Toy.ema
           (1%nat, 0%nat) (Toy.images [1%Q]) (Top5Hook 0) w).2 = net w.
Proof.
  intros w. split; [done|].
  by apply (proj1 (hooks_observe_and_lists_are_reset_only_in_the_export
                     Toy.input Toy.whiten_batch Toy.whiten_running Toy.ema
                     Toy.update_rot)).
Defined.

(** ** The further properties on the small instance *)

(** X1 for the prefix [cw] and the layers 1, 2 and 3. *)
Lemma resume_path_is_the_saved_file_witness :
  resume Toy.args_resume
  = "./checkpoints/" +:+ prefix Toy.args_resume +:+ "_checkpoint.pth.tar"
  ∧ resume_path Toy.args_resume
    = "./checkpoints/cw_1_2_3_checkpoint.pth.tar".
Proof.
  split; [reflexivity|].
  exact (proj1 (resume_path_is_the_saved_file
                  (Batch := Tensor) (Weights := unit) (Stats := unit)
                  (OptBuf := unit) Toy.args_resume "_checkpoint.pth.tar"
                  (or_introl eq_refl) eq_refl) eq_refl).
Defined.

(** X2: the record saved after epoch 6 of a run without resume, found
    by a run that resumes. *)
Lemma resume_restores_what_was_saved_witness :
  let w0 : @World Tensor unit unit unit :=
    fresh_world Toy.args_resume Toy.bp tt in
  let disk : gmap string (@Checkpoint unit unit unit) :=
    {[ resume_path (args w0) := checkpoint_of 6 Toy.world0 ]} in
  resume (args w0) ≠ EmptyString
  ∧ disk !! resume_path (args w0) = Some (checkpoint_of 6 Toy.world0)
  ∧ ∃ w', resume_from disk w0 = (Ok tt, w')
      ∧ start_epoch (args w') = 7
      ∧ state_dict (net w') = state_dict (net Toy.world0).
Proof.
  intros w0 disk. split; [done|].
  assert (Hfile : disk !! resume_path (args w0)
                  = Some (checkpoint_of 6 Toy.world0))
    by apply lookup_singleton_eq.
  split; [exact Hfile|].
  destruct (resume_restores_what_was_saved disk 6 Toy.world0 w0
              ltac:(done) Hfile eq_refl eq_refl eq_refl eq_refl)
    as (w' & Hrun & He & _ & Hsd & _).
  exists w'. split; [exact Hrun|]. split; [exact He | exact Hsd].
Defined.

(** X4: layer 2 of the small model is the only block of its second
    stage. *)
Lemma layer_number_witness :
  counts_fit (net Toy.world0)
  ∧ 1 ≤ 2 ≤ Z.of_nat (length (positions (net Toy.world0)))
  ∧ ∃ p, locate (net Toy.world0) 2 Toy.world0 = (Ok (Some p), Toy.world0)
         ∧ positions (net Toy.world0) !! Z.to_nat (2 - 1) = Some p.
Proof.
  split; [reflexivity|]. split; [by vm_compute|].
  apply layer_number_counts_blocks_in_forward_order;
    [reflexivity | by vm_compute].
Defined.

(** X5: on the small model layer 0 is the only block of the first
    stage, and layer 5 selects nothing. *)
Lemma layer_numbers_out_of_range_witness :
  counts_fit (net Toy.world0)
  ∧ locate (net Toy.world0) 5 Toy.world0 = (Ok None, Toy.world0)
  ∧ locate (net Toy.world0) 0 Toy.world0
    = (Ok (Some (1%nat, 0%nat)), Toy.world0).
Proof.
  split; [reflexivity|]. split.
  - apply (proj1 (layer_numbers_out_of_range (net Toy.world0) 5 Toy.world0
                    eq_refl)). by vm_compute.
  - apply (proj1 (proj2 (layer_numbers_out_of_range (net Toy.world0) 0
                           Toy.world0 eq_refl))). by vm_compute.
Defined.

(** X6: the parameters the optimizer of the small run is given. *)
Lemma get_param_list_witness :
  counts_fit (net Toy.world0)
  ∧ Forall (fun wl => 1 ≤ wl ≤ Z.of_nat (length (positions (net Toy.world0))))
           [1; 2; 3]
  ∧ ∃ ps, get_param_list (net Toy.world0) [1; 2; 3] Toy.world0
          = (Ok (FcParams :: (Bn1Params <$> ps)), Toy.world0)
      ∧ Forall2 (fun wl p => positions (net Toy.world0) !! Z.to_nat (wl - 1)
                             = Some p) [1; 2; 3] ps.
Proof.
  assert (Hall : Forall (fun wl =>
      1 ≤ wl ≤ Z.of_nat (length (positions (net Toy.world0)))) [1; 2; 3])
    by (repeat constructor; by vm_compute).
  split; [reflexivity|]. split; [exact Hall|].
  exact (get_param_list_lists_fc_then_the_layers (net Toy.world0) [1; 2; 3]
           Toy.world0 eq_refl Hall).
Defined.


(** X8 for the values 1, with weight 2, and 3, with weight 1. *)
Lemma meter_average_witness :
  [(1%Q, 2); (3%Q, 1)] ≠ []
  ∧ Forall (fun u : Q * Z => 0 < u.2 ∧ (1 <= u.1)%Q ∧ (u.1 <= 3)%Q)
           [(1%Q, 2); (3%Q, 1)]
  ∧ ∃ m, Meter.updates Meter.reset [(1%Q, 2); (3%Q, 1)] = (Ok tt, m)
      ∧ Meter.count m = 3
      ∧ (1 <= Meter.avg m)%Q ∧ (Meter.avg m <= 3)%Q.
Proof.
  assert (Hall : Forall (fun u : Q * Z => 0 < u.2 ∧ (1 <= u.1)%Q ∧ (u.1 <= 3)%Q)
                        [(1%Q, 2); (3%Q, 1)]).
  { repeat constructor; simpl; try lia; by vm_compute. }
  split; [done|]. split; [exact Hall|].
  destruct (meter_average_lies_between_the_values 1 3 [(1%Q, 2); (3%Q, 1)]
              ltac:(done) Hall)
    as (m & Hrun & Hc & _ & Hlo & Hhi & _).
  exists m. split; [exact Hrun|]. split; [exact Hc|]. split; [exact Hlo | exact Hhi].
Defined.

(** Sixty images of one channel and one pixel in two batches, with the
    paths [img0], [img1], ...; the value of an image is its score in
    every layer of the small model. *)
Module Gallery.

Definition paths_from (i n : nat) : list string :=
  (fun j => "img" +:+ pretty (Z.of_nat j)) <$> seq i n.

Definition values_from (i n : nat) : list Q :=
  (fun j => inject_Z (Z.of_nat ((j * 7) `mod` 11))) <$> seq i n.

Definition val_loader_2 : list (Tensor * list string) :=
  [(Toy.images (values_from 0 40), paths_from 0 40);
   (Toy.images (values_from 40 20), paths_from 40 20)].

Definition ready : @World Tensor unit unit unit := Toy.world0.

End Gallery.

Notation gallery_export w :=
  (print_concept_top5 (OptBuf := unit) Toy.input Toy.whiten_batch
     Toy.whiten_running Toy.ema Toy.update_rot Gallery.val_loader_2
     "1,2,3" false w) (only parsing).

Lemma rankable_ready : rankable "1,2,3" Gallery.ready.
Proof.
  split.
  - repeat constructor.
  - intros cfg _. constructor.
Qed.

(** X11 on the gallery: a second export right after the first. *)
Lemma repeated_rankings_agree_witness :
  rankable "1,2,3" Gallery.ready
  ∧ (gallery_export (gallery_export Gallery.ready).2).1
    = (gallery_export Gallery.ready).1
  ∧ ∃ evs,
      trace (gallery_export Gallery.ready).2 = trace Gallery.ready ++ evs
      ∧ trace (gallery_export (gallery_export Gallery.ready).2).2
        = trace (gallery_export Gallery.ready).2 ++ evs.
Proof.
  split; [exact rankable_ready|].
  destruct (repeated_rankings_agree Toy.input Toy.whiten_batch
              Toy.whiten_running Toy.ema Toy.update_rot
              Gallery.val_loader_2 "1,2,3" false Gallery.ready
              _ _ _ _ rankable_ready
              (surjective_pairing (gallery_export Gallery.ready))
              (surjective_pairing
                 (gallery_export (gallery_export Gallery.ready).2)))
    as (Ho & Hev & _).
  split; [exact Ho | exact Hev].
Defined.

Ltac gallery_cases :=
  repeat match goal with
         | H : _ ∈ _ :: _ |- _ => apply elem_of_cons in H as [H | H]
         | H : _ ∈ [] |- _ => by apply elem_of_nil in H
         end;
  simplify_eq.

(** X13 on the gallery: the three layers of the small model, axis 0. *)
Lemma export_copies_the_50_images_witness :
  let n := set_training false (net Gallery.ready) in
  let cfg := [(1, 0); (2, 0); (3, 0)]%nat in
  rankable "1,2,3" Gallery.ready
  ∧ located n (Py.split "," "1,2,3") = Ok cfg
  ∧ in_forward_order n cfg
  ∧ (50 ≤ length (Gallery.val_loader_2 ≫= snd))%nat
  ∧ ∃ w' (top : Z → nat → list string),
      gallery_export Gallery.ready = (Ok 0, w')
      ∧ length (top 0 0%nat) = 50%nat
      ∧ ∃ order,
          ranks (image_means (fun _ b => b) 0 (1%nat, 0%nat)
                   Gallery.val_loader_2) order
          ∧ Forall2 (fun idx src =>
                       (Gallery.val_loader_2 ≫= snd) !! idx = Some src)
                    (take 50 order) (top 0 0%nat).
Proof.
  intros n cfg.
  assert (Hloc : located n (Py.split "," "1,2,3") = Ok cfg) by reflexivity.
  assert (Hord : in_forward_order n cfg) by reflexivity.
  assert (H50 : (50 ≤ length (Gallery.val_loader_2 ≫= snd))%nat)
    by (vm_compute; lia).
  split; [exact rankable_ready|]. split; [exact Hloc|].
  split; [exact Hord|]. split; [exact H50|].
  destruct (export_copies_the_50_images_of_greatest_mean
              Toy.input Toy.whiten_batch Toy.whiten_running Toy.ema
              Toy.update_rot Gallery.val_loader_2 "1,2,3" false
              Gallery.ready cfg (fun _ b => b)
              (fun _ => 1%nat) (fun _ => 1%nat) (fun _ => 1%nat)
              rankable_ready Hloc eq_refl Hord)
    as (w' & top & Hrun & _ & Htop); [| | | exact H50 |].
  - intros b path p Hb Hp. unfold Gallery.val_loader_2 in Hb.
    unfold cfg in Hp. gallery_cases; split; by vm_compute.
  - intros k p Hk Hp. change (k ∈ [0]) in Hk.
    apply list_elem_of_singleton in Hk as ->. done.
  - intros p _. simpl. lia.
  - exists w', top. split; [exact Hrun|].
    destruct (Htop 0 0%nat (1%nat, 0%nat)) as [Hlen Horder];
      [change (0 ∈ [0]); left | reflexivity |].
    split; [exact Hlen | exact Horder].
Defined.

(** The copies an export records, as pairs of source and destination. *)
Definition copies_of {Batch Weights Stats OptBuf : Type}
  (tr : list (@Event Batch Weights Stats OptBuf)) : list (string * string) :=
  omap (fun e => match e with
                 | ECopy src dst => Some (src, dst)
                 | _ => None
                 end) tr.

(** The export on the gallery: 50 copies for each of the three layers;
    the images of the greatest value, 10, are those of index 3, 14, 25,
    ..., and they come first, in the order of iteration. *)
Example gallery_export_copies :
  (gallery_export Gallery.ready).1 = Ok 0
  ∧ length (copies_of (trace (gallery_export Gallery.ready).2)) = 150%nat
  ∧ take 3 (copies_of (trace (gallery_export Gallery.ready).2))
    = [("img3", "/usr/xtmp/zhichen/attention-module/plot/1_2_3_rot/layer1_1.jpg");
       ("img14", "/usr/xtmp/zhichen/attention-module/plot/1_2_3_rot/layer1_2.jpg");
       ("img25", "/usr/xtmp/zhichen/attention-module/plot/1_2_3_rot/layer1_3.jpg")].
Proof. vm_compute. done. Qed.

(** X12 on four images, two of them of equal score. *)
Example layer_ranking_of_four :
  layer_ranking (Some [[1; 3; 3; 2]%Q]) ["a"; "b"; "c"; "d"] 0
  = Ok [(3%Q, "b"); (3%Q, "c"); (2%Q, "d"); (1%Q, "a")].
Proof. reflexivity. Qed.

(** Two images in one batch. *)
Definition two_images : list (Tensor * list string) :=
  [(Toy.images [5; 6]%Q, ["a"; "b"])].

(** X14 on two images: both are copied for layer 1, the one of the
    greater value first, and the third entry is missing. *)
Lemma export_of_fewer_than_50_images_witness :
  let n := set_training false (net Gallery.ready) in
  let cfg := [(1, 0); (2, 0); (3, 0)]%nat in
  rankable "1,2,3" Gallery.ready
  ∧ located n (Py.split "," "1,2,3") = Ok cfg
  ∧ in_forward_order n cfg
  ∧ two_images ≠ [] ∧ (length (two_images ≫= snd) < 50)%nat
  ∧ ∃ w' srcs order,
      print_concept_top5 (OptBuf := unit) Toy.input Toy.whiten_batch
        Toy.whiten_running Toy.ema Toy.update_rot two_images "1,2,3" false
        Gallery.ready = (Raise IndexError, w')
      ∧ ranks (image_means (fun _ b => b) 0 (1%nat, 0%nat) two_images) order
      ∧ Forall2 (fun idx src => (two_images ≫= snd) !! idx = Some src)
                order srcs.
Proof.
  intros n cfg.
  assert (Hloc : located n (Py.split "," "1,2,3") = Ok cfg) by reflexivity.
  assert (Hord : in_forward_order n cfg) by reflexivity.
  assert (Hshort : (length (two_images ≫= snd) < 50)%nat)
    by (vm_compute; lia).
  split; [exact rankable_ready|]. split; [exact Hloc|].
  split; [exact Hord|]. split; [done|]. split; [exact Hshort|].
  destruct (export_of_fewer_than_50_images_raises
              Toy.input Toy.whiten_batch Toy.whiten_running Toy.ema
              Toy.update_rot two_images "1,2,3" false
              Gallery.ready cfg (fun _ b => b)
              (fun _ => 1%nat) (fun _ => 1%nat) (fun _ => 1%nat)
              rankable_ready Hloc eq_refl Hord)
    as (w' & layer & p & srcs & order & _ & Hp & Hrun & _ & Hranks & Hall);
    [| | discriminate | exact Hshort |].
  - intros b path p Hb Hp. unfold two_images in Hb. unfold cfg in Hp.
    gallery_cases; split; by vm_compute.
  - intros p _. simpl. lia.
  - injection Hp as <-. exists w', srcs, order.
    split; [exact Hrun|]. split; [exact Hranks | exact Hall].
Defined.

(** X15 on the small model. *)
Lemma export_of_an_empty_set_witness :
  rankable "1,2,3" Gallery.ready
  ∧ located (set_training false (net Gallery.ready)) (Py.split "," "1,2,3")
    = Ok [(1, 0); (2, 0); (3, 0)]%nat
  ∧ ∃ w', print_concept_top5 (OptBuf := unit) Toy.input Toy.whiten_batch
            Toy.whiten_running Toy.ema Toy.update_rot [] "1,2,3" false
            Gallery.ready = (Raise TypeError, w')
      ∧ trace w' = [ETop5Begin; EModelEval; ENoGrad true; ENoGrad false].
Proof.
  split; [exact rankable_ready|]. split; [reflexivity|].
  destruct (export_of_an_empty_set_raises Toy.input Toy.whiten_batch
              Toy.whiten_running Toy.ema Toy.update_rot "1,2,3" false
              Gallery.ready [(1, 0); (2, 0); (3, 0)]%nat
              rankable_ready eq_refl)
    as (w' & Hrun & Htr & _).
  exists w'. split; [exact Hrun | exact Htr].
Defined.

(** X16 on the gallery: three hooks after one export. *)
Lemma export_never_removes_its_hooks_witness :
  rankable "1,2,3" Gallery.ready
  ∧ located (set_training false (net Gallery.ready)) (Py.split "," "1,2,3")
    = Ok [(1, 0); (2, 0); (3, 0)]%nat
  ∧ hooks (gallery_export Gallery.ready).2
    = [((1, 0), Top5Hook 0); ((2, 0), Top5Hook 0); ((3, 0), Top5Hook 0)]%nat.
Proof.
  split; [exact rankable_ready|]. split; [reflexivity|].
  exact (proj1 (export_never_removes_its_hooks Toy.input Toy.whiten_batch
                  Toy.whiten_running Toy.ema Toy.update_rot
                  Gallery.val_loader_2 "1,2,3" false Gallery.ready
                  [(1, 0); (2, 0); (3, 0)]%nat rankable_ready eq_refl)).
Defined.

(** X17 for the first two ranks of layer 1. *)
Lemma copy_names_differ_by_rank_witness :
  (0 : Z) ≠ 1
  ∧ copy_name "plot/" "1" "" 0 ≠ copy_name "plot/" "1" "" 1.
Proof.
  split; [done|]. by apply copy_names_differ_by_rank.
Defined.

(** X18 on the small instance. *)
Lemma validate_evaluates_without_training_witness :
  hooks Toy.world0 = []
  ∧ ∃ w' : @World Tensor unit unit unit,
      validate Toy.input Toy.whiten_batch Toy.whiten_running Toy.ema
        Toy.update_rot Toy.top1_avg Toy.val_loader Toy.world0
      = (Ok 0%Q, w')
      ∧ training (net w') = false.
Proof.
  split; [reflexivity|].
  destruct (validate_evaluates_without_training Toy.input Toy.whiten_batch
              Toy.whiten_running Toy.ema Toy.update_rot Toy.top1_avg
              Toy.val_loader Toy.world0 eq_refl)
    as (w' & Hrun & _ & _ & _ & Htr & _).
  exists w'. split; [exact Hrun | exact Htr].
Defined.

(** X19 on the small instance: four batches, two calibrations. *)
Lemma train_steps_witness :
  hooks Toy.world0 = []
  ∧ (∀ j, Toy.concept_loader j ≠ [])
  ∧ ∃ (w' : @World Tensor unit unit unit)
      (evs : list (@Event Tensor unit unit unit)),
      Toy.run_train Toy.train_loader Toy.concept_loader Toy.world0
      = (Ok tt, w')
      ∧ trace w' = trace Toy.world0 ++ evs
      ∧ count_events is_step evs = 4%nat
      ∧ Z.of_nat (count_events (is_forward InCalibrate) evs) = 2.
Proof.
  split; [reflexivity|]. split; [by intros j|].
  destruct (train_steps_once_per_batch_and_calibrates_every_second
              Toy.input Toy.whiten_batch Toy.whiten_running Toy.ema
              Toy.update_rot Toy.sgd_param Toy.sgd_bufs
              Toy.train_loader Toy.concept_loader Toy.world0
              eq_refl ltac:(by intros j))
    as (w' & evs & Hrun & Ht & _ & Hsteps & _ & Hcal).
  exists w', evs. split; [exact Hrun|]. split; [exact Ht|].
  split; [exact Hsteps | exact Hcal].
Defined.


(** ** The built-ins on concrete values *)

Example py_index_neg : Py.index [10; 20; 30] (-1) = Some 30.
Proof. reflexivity. Qed.

Example py_index_oob : Py.index [10; 20; 30] (-4) = None.
Proof. reflexivity. Qed.

Example py_split_layers : Py.split "," "1,2,3" = ["1"; "2"; "3"]%string.
Proof. reflexivity. Qed.

Example py_join_layers : Py.join "_" ["1"; "2"; "3"]%string = "1_2_3"%string.
Proof. reflexivity. Qed.

Example py_int_8 : Py.int "18" = Some 18.
Proof. reflexivity. Qed.

Example py_slices :
(Py.str_until_last 19 "./checkpoints/cw_checkpoint.pth.tar",
 Py.str_last 19 "./checkpoints/cw_checkpoint.pth.tar")
= ("./checkpoints/cw", "_checkpoint.pth.tar")%string.
Proof. reflexivity. Qed.

Example py_slices_short :
(Py.str_until_last 19 "ckpt.tar", Py.str_last 19 "ckpt.tar")
= ("", "ckpt.tar")%string.
Proof. reflexivity. Qed.

Example sum23_2x2 :
T.sum23 (mkTensor [1; 2; 2; 2]%nat
           [1; 2; 3; 4; 10; 20; 30; 40]%Q)
= Some (mkTensor [1; 2]%nat [1 + (2 + (3 + (4 + 0))); 10 + (20 + (30 + (40 + 0)))]%Q).
Proof. reflexivity. Qed.

Example column_of_scores :
T.column 1 (mkTensor [2; 2]%nat [1; 2; 3; 4]%Q) = Some [2; 4]%Q.
Proof. reflexivity. Qed.

Example einsum_swaps_axes :
(* one group, two channels, rotation that swaps the two axes *)
elems <$> T.einsum_rot (mkTensor [1; 1; 2; 1; 1]%nat [5; 7]%Q)
                       (mkTensor [1; 2; 2]%nat [0; 1; 1; 0]%Q)
= Some [5 * 0 + (7 * 1 + 0); 5 * 1 + (7 * 0 + 0)]%Q.
Proof. reflexivity. Qed.
